(** * Media-to-message reconciliation (phase 1): a shallow embedding

    The development follows the Python modules of [phases/phase1]:
    - [media_id_extractor.py]: identifiers embedded in file names;
    - [timestamp_matcher.py]: the sorted timestamp index, the binary search
      for the closest message, and the batch matcher;
    - [mp4_processor.py]: the creation time of an MP4 container;
    - [orchestrator.py]: the derived identifier sets.

    Python [str] is modelled by [string], [int] by [Z], [float] by the
    IEEE 754 values of [spec_float], [dict] used as a map by [gmap], [set] by
    [gset], and a [dict] whose iteration order matters by an association
    list. *)

From Stdlib Require Import ZArith Lia Ascii String List Sorting.Sorted Permutation.
From Stdlib.Strings Require Byte.
From Stdlib.Floats Require Import SpecFloat.
From Equations Require Import Equations.
From stdpp Require Import base option list strings gmap sets.


Local Open Scope Z_scope.

(** ** Python string primitives used by the parser *)

Module PyStr.

(** [s.startswith(p)], returning the remainder of [s] after [p]. *)
Fixpoint strip_prefix (p s : string) : option string :=
  match p, s with
  | EmptyString, _ => Some s
  | String a p', String b s' =>
      if Ascii.eqb a b then strip_prefix p' s' else None
  | String _ _, EmptyString => None
  end.

(** [sub in s]. *)
Fixpoint contains (sub s : string) : bool :=
  match strip_prefix sub s with
  | Some _ => true
  | None =>
      match s with
      | EmptyString => false
      | String _ s' => contains sub s'
      end
  end.

(** [s.split(sep, 1)]: one piece when [sep] does not occur, otherwise the
    text before and after the first occurrence. *)
Fixpoint split1 (sep s : string) : list string :=
  match strip_prefix sep s with
  | Some rest => [EmptyString; rest]
  | None =>
      match s with
      | EmptyString => [EmptyString]
      | String c s' =>
          match split1 sep s' with
          | h :: t => String c h :: t
          | [] => [String c EmptyString]
          end
      end
  end.

(** [s.rsplit(c, 1)] for a one-character separator: the split is at the
    last occurrence. *)
Fixpoint rsplit1 (c : ascii) (s : string) : list string :=
  match s with
  | EmptyString => [EmptyString]
  | String a s' =>
      match rsplit1 c s' with
      | [t] => if Ascii.eqb a c then [EmptyString; t] else [String a t]
      | h :: t => String a h :: t
      | [] => [String a EmptyString]
      end
  end.

(** [parts[i]], with the empty string standing for a missing piece (the
    parser only indexes pieces that exist). *)
Definition item (i : nat) (parts : list string) : string :=
  nth i parts EmptyString.

(** The rest of the module serves [split_pipe_separated_ids]; a character
    is a code point below 256. *)

(** [c.isspace()]: TAB to CR, FS to US, space, NEL and NBSP. *)
Definition is_space (c : ascii) : bool :=
  let n := nat_of_ascii c in
  ((9 <=? n)%nat && (n <=? 13)%nat)
  || ((28 <=? n)%nat && (n <=? 32)%nat)
  || (n =? 133)%nat || (n =? 160)%nat.

(** [s.lstrip()]. *)
Fixpoint lstrip (s : string) : string :=
  match s with
  | EmptyString => EmptyString
  | String c s' => if is_space c then lstrip s' else s
  end.

(** [s.rstrip()]. *)
Fixpoint rstrip (s : string) : string :=
  match s with
  | EmptyString => EmptyString
  | String c s' =>
      match rstrip s' with
      | EmptyString => if is_space c then EmptyString else String c EmptyString
      | t => String c t
      end
  end.

(** [s.strip()]. *)
Definition strip (s : string) : string := rstrip (lstrip s).

Lemma strip_prefix_length (p s r : string) :
  strip_prefix p s = Some r ->
  String.length s = (String.length p + String.length r)%nat.
Proof.
  revert s. induction p as [|a p IH]; intros s H.
  - destruct s; simpl in H; injection H as <-; reflexivity.
  - destruct s as [|b s]; simpl in H; [discriminate|].
    destruct (Ascii.eqb a b); [|discriminate]. simpl. f_equal. auto.
Qed.

(** A value together with the equation that names it, for the recursion
    of [split]. *)
Definition inspect {A : Type} (x : A) : {y : A | x = y} := exist _ x eq_refl.

(** [s.split(sep)] for the non-empty separator [sep = String a sep']:
    the occurrences are found left to right and do not overlap. *)
Equations? split (a : ascii) (sep' : string) (s : string) : list string
    by wf (String.length s) lt :=
  split a sep' s with inspect (strip_prefix (String a sep') s) := {
    | exist _ (Some rest) _ => EmptyString :: split a sep' rest
    | exist _ None _ with s := {
        | EmptyString => [EmptyString]
        | String c s' with split a sep' s' := {
            | h :: t => String c h :: t
            | [] => [String c EmptyString] } } }.
Proof.
  - apply strip_prefix_length in e. simpl in e. lia.
  - simpl. lia.
Qed.

(** [list(s)]: the one-character strings of [s]. *)
Fixpoint chars (s : string) : list string :=
  match s with
  | EmptyString => []
  | String c s' => String c EmptyString :: chars s'
  end.

End PyStr.

(** ** The two regular expressions of the parser

    Both have the shape [lit([A-F0-9\-]+)] (or an alternation of two such
    literals).  [re.search] returns the leftmost match; the character class
    is followed by nothing, so the greedy [+] takes the maximal run. *)

Module Regex.

(** The class [[A-F0-9\-]]. *)
Definition id_char (c : ascii) : bool :=
  let n := nat_of_ascii c in
  ((65 <=? n)%nat && (n <=? 70)%nat)
  || ((48 <=? n)%nat && (n <=? 57)%nat)
  || (n =? 45)%nat.

(** The longest prefix of [s] made of class characters. *)
Fixpoint take_run (s : string) : string :=
  match s with
  | EmptyString => EmptyString
  | String c s' => if id_char c then String c (take_run s') else EmptyString
  end.

(** [lit([A-F0-9\-]+)] anchored at the start of [s]: group 1. *)
Definition match_here (lit s : string) : option string :=
  match PyStr.strip_prefix lit s with
  | Some rest =>
      match take_run rest with
      | EmptyString => None
      | run => Some run
      end
  | None => None
  end.

(** [(?:a|b)~(...)] anchored at the start of [s]: the alternatives are
    tried in order. *)
Definition match_alt (lit1 lit2 s : string) : option string :=
  match match_here lit1 s with
  | Some g => Some g
  | None => match_here lit2 s
  end.

(** [re.search]: the anchored matcher is tried at every position, left to
    right. *)
Fixpoint search (m : string -> option string) (s : string) : option string :=
  match m s with
  | Some g => Some g
  | None =>
      match s with
      | EmptyString => None
      | String _ s' => search m s'
      end
  end.

End Regex.

(** ** [media_id_extractor.extract_media_id_from_filename] *)

Definition blob_branch (filename : string) : option string :=
  if PyStr.contains "b~" filename then
    let parts := PyStr.split1 "b~" filename in
    if (1 <? length parts)%nat then
      let id_with_ext := PyStr.item 1 parts in
      let id_part := PyStr.item 0 (PyStr.rsplit1 "." id_with_ext) in
      Some ("b~" +:+ id_part)
    else None
  else None.

Definition zip_branch (filename : string) : option string :=
  if PyStr.contains "_media~zip-" filename then
    match Regex.search (Regex.match_here "media~zip-") filename with
    | Some g => Some ("media~zip-" +:+ g)
    | None => None
    end
  else None.

Definition generic_branch (filename : string) : option string :=
  match Regex.search (Regex.match_alt "media~" "overlay~") filename with
  | Some g =>
      let prefix := if PyStr.contains "media~" filename then "media" else "overlay" in
      Some (prefix +:+ "~" +:+ g)
  | None => None
  end.

Definition extract_media_id_from_filename (filename : string) : option string :=
  if PyStr.contains "thumbnail~" filename then None
  else
    match blob_branch filename with
    | Some r => Some r
    | None =>
        match zip_branch filename with
        | Some r => Some r
        | None => generic_branch filename
        end
    end.


(** ** Python values

    Messages are JSON objects loaded from the conversation files: what
    [json.load] can produce.  A number with a fraction or an exponent is a
    [float], and [json] also reads [Infinity] and [NaN]; a [dict] is kept as
    an association list in insertion order. *)

#[warnings="-register-all"]
Inductive pyval : Type :=
  | PyNone
  | PyBool (b : bool)
  | PyInt (z : Z)
  | PyFloat (x : spec_float)
  | PyStr (s : string)
  | PyList (l : list pyval)
  | PyDict (d : list (string * pyval)).

Abbreviation pydict := (list (string * pyval)).

(** Truth value of an object, as tested by [if x] and [not x]. *)
Definition truthy (v : pyval) : bool :=
  match v with
  | PyNone => false
  | PyBool b => b
  | PyInt z => negb (z =? 0)
  | PyFloat x => match x with S754_zero _ => false | _ => true end
  | PyStr s => negb (String.eqb s "")
  | PyList l => match l with [] => false | _ => true end
  | PyDict d => match d with [] => false | _ => true end
  end.

(** [d.get(key)]: [None] when the key is absent. *)
Fixpoint dict_get (key : string) (d : pydict) : pyval :=
  match d with
  | [] => PyNone
  | (k, v) :: d' => if String.eqb k key then v else dict_get key d'
  end.

(** How a call ends.  An uncaught exception ends it ([Raised]).  The
    atom loop of the MP4 parser is a [while True] and is run with fuel:
    [OutOfFuel] means it was still running when the fuel ran out. *)
Inductive outcome (A : Type) : Type :=
  | Returned (a : A)
  | Raised
  | OutOfFuel.
Arguments Returned {A} a.
Arguments Raised {A}.
Arguments OutOfFuel {A}.

#[export] Instance outcome_ret : MRet outcome := fun A a => Returned a.
#[export] Instance outcome_bind : MBind outcome := fun A B k m =>
  match m with
  | Returned a => k a
  | Raised => Raised
  | OutOfFuel => OutOfFuel
  end.

(** [l[i]] for a Python list: negative subscripts count from the end, and a
    subscript outside [-len, len) raises. *)
Definition getitem {A : Type} (l : list A) (i : Z) : outcome A :=
  let n := Z.of_nat (length l) in
  let j := if i <? 0 then i + n else i in
  if (0 <=? j) && (j <? n) then
    match l !! Z.to_nat j with
    | Some x => Returned x
    | None => Raised
    end
  else Raised.

(** [min(x :: l, key=key)]: the first minimal element wins. *)
Fixpoint py_min {A : Type} (key : A -> Z) (x : A) (l : list A) : A :=
  match l with
  | [] => x
  | y :: l' => py_min key (if key y <? key x then y else x) l'
  end.

(** ** [timestamp_matcher.build_millisecond_index] *)

(** One index tuple [(timestamp_ms, conv_id, msg_idx, message)]. *)
Record index_entry : Type := IndexEntry {
  timestamp_ms : Z;
  conv_id : string;
  msg_idx : nat;
  message : pydict
}.

(** [list.sort(key=...)] is a stable sort; a stable insertion sort computes
    the same list. *)
Fixpoint insert_by_key {A : Type} (key : A -> Z) (x : A) (l : list A) : list A :=
  match l with
  | [] => [x]
  | y :: l' => if key x <=? key y then x :: l else y :: insert_by_key key x l'
  end.

Definition sort_by_key {A : Type} (key : A -> Z) (l : list A) : list A :=
  foldr (insert_by_key key) [] l.

(** The exceptions [int] raises. *)
Inductive py_exception : Type :=
  | TypeError
  | ValueError
  | OverflowError.

Section TimestampIndex.

(** [int(s)] for a [str]: the grammar of the builtin is taken as a
    parameter; [None] stands for [ValueError]. *)
Variable int_of_str : string -> option Z.

(** [int(x)] for a [float]: the value truncated towards zero;
    [OverflowError] for an infinity and [ValueError] for a NaN. *)
Definition float_to_int (x : spec_float) : Z + py_exception :=
  match x with
  | S754_zero _ => inl 0
  | S754_finite s m e =>
      let a := if 0 <=? e then Z.pos m * 2 ^ e else Z.pos m / 2 ^ (- e) in
      inl (if s then - a else a)
  | S754_infinity _ => inr OverflowError
  | S754_nan => inr ValueError
  end.

(** [int(v)]: the integer, or the exception the builtin raises. *)
Definition py_int (v : pyval) : Z + py_exception :=
  match v with
  | PyInt z => inl z
  | PyBool b => inl (if b then 1 else 0)
  | PyFloat x => float_to_int x
  | PyStr s => match int_of_str s with Some z => inl z | None => inr ValueError end
  | PyNone | PyList _ | PyDict _ => inr TypeError
  end.

(** The body of the inner loop for one enumerated message: the entry it
    appends, if any.  The [try] around [int] catches [TypeError] and
    [ValueError] only: the [OverflowError] of an infinite timestamp leaves
    the function. *)
Definition index_message (conv : string) (idx : nat) (m : pyval)
  : outcome (option index_entry) :=
  match m with
  | PyDict d =>
      if truthy (dict_get "matched_media_files" d) then Returned None
      else
        let ts := dict_get "Created(microseconds)" d in
        if negb (truthy ts) then Returned None
        else
          match py_int ts with
          | inl z => Returned (Some (IndexEntry z conv idx d))
          | inr TypeError | inr ValueError => Returned None
          | inr OverflowError => Raised
          end
  | _ => Returned None
  end.

(** [for idx, message in enumerate(message_list)], counting from [idx]. *)
Fixpoint index_messages (conv : string) (idx : nat) (message_list : list pyval)
  : outcome (list index_entry) :=
  match message_list with
  | [] => Returned []
  | m :: rest =>
      appended ← index_message conv idx m;
      entries ← index_messages conv (S idx) rest;
      Returned (match appended with
                | Some e => e :: entries
                | None => entries
                end)
  end.

(** [for conv_id, message_list in messages.items()]. *)
Fixpoint index_conversations (messages : pydict) : outcome (list index_entry) :=
  match messages with
  | [] => Returned []
  | (conv, PyList message_list) :: rest =>
      entries ← index_messages conv 0 message_list;
      others ← index_conversations rest;
      Returned (entries ++ others)
  | (_, _) :: rest => index_conversations rest
  end.

Definition build_millisecond_index (messages : pydict)
  : outcome (list index_entry) :=
  timestamp_index ← index_conversations messages;
  Returned (sort_by_key timestamp_ms timestamp_index).

End TimestampIndex.

(** ** [timestamp_matcher.find_closest_message_binary] *)

(** One candidate tuple [(conv_id, msg_idx, msg, diff_ms)]. *)
Record candidate : Type := Candidate {
  c_conv_id : string;
  c_msg_idx : nat;
  c_message : pydict;
  diff_ms : Z
}.

(** The binary-search loop; [lo] and [hi] are the variables [left] and
    [right].  The result is their value when the loop exits. *)
Equations? bisect (timestamp_index : list index_entry) (mp4_timestamp_ms : Z)
    (lo hi : Z) : outcome (Z * Z) by wf (Z.to_nat (hi - lo + 1)) lt :=
  bisect timestamp_index mp4_timestamp_ms lo hi with Z_le_dec lo hi := {
    | right _ => Returned (lo, hi)
    | left _ with getitem timestamp_index ((lo + hi) / 2) := {
        | Raised => Raised
        | OutOfFuel => OutOfFuel
        | Returned e =>
            if timestamp_ms e <? mp4_timestamp_ms
            then bisect timestamp_index mp4_timestamp_ms ((lo + hi) / 2 + 1) hi
            else bisect timestamp_index mp4_timestamp_ms lo ((lo + hi) / 2 - 1)
      }
  }.
Proof.
  - assert (lo <= (lo + hi) / 2 <= hi) by (split; [apply Z.div_le_lower_bound | apply Z.div_le_upper_bound]; lia).
    lia.
  - assert (lo <= (lo + hi) / 2 <= hi) by (split; [apply Z.div_le_lower_bound | apply Z.div_le_upper_bound]; lia).
    lia.
Qed.

(** The walk over earlier messages, from [idx] down to 0. *)
Equations? walk_left (timestamp_index : list index_entry)
    (mp4_timestamp_ms threshold_ms idx : Z) (candidates : list candidate)
    : outcome (list candidate) by wf (Z.to_nat (idx + 1)) lt :=
  walk_left timestamp_index mp4_timestamp_ms threshold_ms idx candidates
    with Z_le_dec 0 idx := {
    | right _ => Returned candidates
    | left _ with getitem timestamp_index idx := {
        | Raised => Raised
        | OutOfFuel => OutOfFuel
        | Returned e =>
            let d := mp4_timestamp_ms - timestamp_ms e in
            if d >? threshold_ms then Returned candidates
            else walk_left timestamp_index mp4_timestamp_ms threshold_ms (idx - 1)
                   (candidates ++ [Candidate (conv_id e) (msg_idx e) (message e) d])
      }
  }.
Proof. lia. Qed.

(** The walk over later messages, from [idx] up to the end of the index. *)
Equations? walk_right (timestamp_index : list index_entry)
    (mp4_timestamp_ms threshold_ms idx : Z) (candidates : list candidate)
    : outcome (list candidate)
    by wf (Z.to_nat (Z.of_nat (length timestamp_index) - idx)) lt :=
  walk_right timestamp_index mp4_timestamp_ms threshold_ms idx candidates
    with Z_lt_dec idx (Z.of_nat (length timestamp_index)) := {
    | right _ => Returned candidates
    | left _ with getitem timestamp_index idx := {
        | Raised => Raised
        | OutOfFuel => OutOfFuel
        | Returned e =>
            let d := timestamp_ms e - mp4_timestamp_ms in
            if d >? threshold_ms then Returned candidates
            else walk_right timestamp_index mp4_timestamp_ms threshold_ms (idx + 1)
                   (candidates ++ [Candidate (conv_id e) (msg_idx e) (message e) (- d)])
      }
  }.
Proof. lia. Qed.

Definition find_closest_message_binary (mp4_timestamp_ms : Z)
    (timestamp_index : list index_entry) (threshold_ms : Z)
    : outcome (option candidate) :=
  match timestamp_index with
  | [] => Returned None
  | _ :: _ =>
      '(lo, hi) ← bisect timestamp_index mp4_timestamp_ms
                    0 (Z.of_nat (length timestamp_index) - 1);
      candidates ← walk_left timestamp_index mp4_timestamp_ms threshold_ms hi [];
      candidates ← walk_right timestamp_index mp4_timestamp_ms threshold_ms lo candidates;
      Returned
        match candidates with
        | [] => None
        | c :: cs => Some (py_min (fun x => Z.abs (diff_ms x)) c cs)
        end
  end.

(** ** [mp4_processor]: the creation time of an MP4 container *)

Abbreviation byte := Byte.byte.

#[export] Instance byte_eq_dec : EqDecision byte := Byte.byte_eq_dec.

(** A file on disk, as the matcher uses it: [Path.name] and the bytes that
    [open(path, "rb")] reads. *)
Record mp4_file : Type := Mp4File {
  file_name : string;
  file_bytes : list byte
}.

Module Mp4.

Definition ATOM_HEADER_SIZE : nat := 8.
Definition QUICKTIME_EPOCH_ADJUSTER : Z := 2082844800.

(** A bytes literal such as [b'moov']. *)
Definition lit (s : string) : list byte := list_byte_of_string s.

(** Big-endian unsigned value of a byte string. *)
Definition be_uint (bs : list byte) : Z :=
  foldl (fun acc b => acc * 256 + Z.of_N (Byte.to_N b)) 0 bs.

(** [struct.unpack('>I', bs)[0]] for [n = 4] and ['>Q'] for [n = 8]:
    [struct.error] (here [None]) unless [bs] has exactly [n] bytes. *)
Definition unpack (n : nat) (bs : list byte) : option Z :=
  if (length bs =? n)%nat then Some (be_uint bs) else None.

(** [f.read(n)] at position [pos]: at most [n] bytes, fewer at the end of
    the file; the position advances by the number of bytes read. *)
Definition read (data : list byte) (pos : Z) (n : nat) : list byte :=
  take n (drop (Z.to_nat pos) data).

(** [f.seek(off, 1)]: [OSError] or [OverflowError] (here [None]) when the
    new position is negative or does not fit a signed 64-bit offset. *)
Definition seek (pos off : Z) : option Z :=
  let p := pos + off in
  if (0 <=? p) && (p <? 2 ^ 63) then Some p else None.

(** [bs[a:b]] for [0 <= a <= b]. *)
Definition slice (a b : nat) (bs : list byte) : list byte :=
  drop a (take b bs).

(** The [while True] loop that looks for the [moov] atom, from file
    position [pos].  [Returned (Some p)]: the loop broke with the file at
    [p]; [Returned None]: the function returned [None] (also through one
    of its [except] clauses). *)
Fixpoint find_moov (fuel : nat) (data : list byte) (pos : Z)
  : outcome (option Z) :=
  match fuel with
  | O => OutOfFuel
  | S fuel' =>
      let atom_header := read data pos ATOM_HEADER_SIZE in
      if (length atom_header <? ATOM_HEADER_SIZE)%nat then Returned None
      else
        let pos := pos + Z.of_nat (length atom_header) in
        let atom_type := slice 4 8 atom_header in
        if bool_decide (atom_type = lit "moov") then Returned (Some pos)
        else
          match unpack 4 (slice 0 4 atom_header) with
          | None => Returned None
          | Some atom_size =>
              if atom_size =? 0 then Returned None
              else if atom_size =? 1 then
                let ext := read data pos 8 in
                match unpack 8 ext with
                | None => Returned None
                | Some extended_size =>
                    let pos := pos + Z.of_nat (length ext) in
                    match seek pos (extended_size - 16) with
                    | None => Returned None
                    | Some pos => find_moov fuel' data pos
                    end
                end
              else
                match seek pos (atom_size - 8) with
                | None => Returned None
                | Some pos => find_moov fuel' data pos
                end
          end
  end.

(** The code after the loop, up to the creation-time field of [mvhd]:
    the value of [creation_time], or [None] where the function returns
    [None] before reading it. *)
Definition mvhd_creation_time (data : list byte) (pos : Z) : option Z :=
  let atom_header := read data pos ATOM_HEADER_SIZE in
  let pos := pos + Z.of_nat (length atom_header) in
  if bool_decide (slice 4 8 atom_header = lit "cmov") then None
  else if negb (bool_decide (slice 4 8 atom_header = lit "mvhd")) then None
  else
    match read data pos 1 with
    | [] => None
    | version :: _ =>
        pos ← seek (pos + 1) 3;
        if Z.of_N (Byte.to_N version) =? 0
        then unpack 4 (read data pos 4)
        else unpack 8 (read data pos 8)
    end.

(** The value of the local variable [creation_time], when the parser gets
    as far as reading it. *)
Definition creation_time (fuel : nat) (data : list byte) : outcome (option Z) :=
  found ← find_moov fuel data 0;
  Returned (pos ← found; mvhd_creation_time data pos).

(** Lines 76-82: QuickTime epoch to Unix epoch, seconds to milliseconds. *)
Definition unix_ms (creation_time : Z) : option Z :=
  if creation_time >? 0
  then Some ((creation_time - QUICKTIME_EPOCH_ADJUSTER) * 1000)
  else None.

Definition parse_mp4_timestamp_binary (fuel : nat) (data : list byte)
  : outcome (option Z) :=
  ct ← creation_time fuel data;
  Returned (ct ≫= unix_ms).

Section Extract.

(** The [ffprobe] fallback runs an external program; every failure is
    caught and the subprocess has a timeout, so it returns. *)
Variable parse_mp4_timestamp_ffprobe : mp4_file -> option Z.

Definition extract_mp4_timestamp (fuel : nat) (mp4_path : mp4_file)
    (use_ffprobe_fallback : bool) : outcome (option Z) :=
  timestamp ← parse_mp4_timestamp_binary fuel (file_bytes mp4_path);
  match timestamp with
  | None =>
      if use_ffprobe_fallback
      then Returned (parse_mp4_timestamp_ffprobe mp4_path)
      else Returned None
  | Some _ => Returned timestamp
  end.

End Extract.

End Mp4.

(** ** [timestamp_matcher.match_mp4_timestamps] *)

(** A value of the result dictionary: [(conv_id, msg_idx, time_diff_ms)]. *)
Abbreviation match_data := (string * nat * Z)%type.

(** [abs(diff_ms)/1000] in the debug line of the sequential branch, which
    is formatted whether or not the line is logged.  The true division of
    two [int]s raises [OverflowError] when the quotient, rounded to the
    nearest [float], is not finite: from [2^1024 - 2^970] on. *)
Definition float_limit : Z := 2 ^ 1024 - 2 ^ 970.

Definition seconds_for_log (diff_ms : Z) : outcome unit :=
  if 1000 * float_limit <=? Z.abs diff_ms then Raised else Returned tt.

(** [ThreadPoolExecutor(max_workers=max_workers)]: [ValueError] unless
    [max_workers] is positive. *)
Definition thread_pool (max_workers : Z) : outcome unit :=
  if max_workers <=? 0 then Raised else Returned tt.

Section Matcher.

Variable int_of_str : string -> option Z.
Variable parse_mp4_timestamp_ffprobe : mp4_file -> option Z.

(** The order in which [as_completed] yields the submitted futures. *)
Variable as_completed : list mp4_file -> list mp4_file.

(** [not timestamp_ms] for an [Optional[int]]. *)
Definition no_timestamp (t : option Z) : bool :=
  match t with
  | None => true
  | Some z => z =? 0
  end.

(** The worker of the parallel branch. *)
Definition process_mp4 (fuel : nat) (timestamp_index : list index_entry)
    (threshold_ms : Z) (mp4_file : mp4_file)
  : outcome (option (string * match_data)) :=
  timestamp ← Mp4.extract_mp4_timestamp parse_mp4_timestamp_ffprobe fuel mp4_file true;
  if no_timestamp timestamp then Returned None
  else
    found ← find_closest_message_binary (default 0 timestamp) timestamp_index threshold_ms;
    match found with
    | Some c => Returned (Some (file_name mp4_file, (c_conv_id c, c_msg_idx c, diff_ms c)))
    | None => Returned None
    end.

(** [for future in as_completed(futures)]: the results are merged into
    [matches] in completion order. *)
Fixpoint parallel_loop (fuel : nat) (timestamp_index : list index_entry)
    (threshold_ms : Z) (completed : list mp4_file)
    (matches : gmap string match_data) : outcome (gmap string match_data) :=
  match completed with
  | [] => Returned matches
  | f :: rest =>
      result ← process_mp4 fuel timestamp_index threshold_ms f;
      match result with
      | Some (filename, data) =>
          parallel_loop fuel timestamp_index threshold_ms rest (<[filename := data]> matches)
      | None => parallel_loop fuel timestamp_index threshold_ms rest matches
      end
  end.

(** [for mp4_file in mp4_files] of the sequential branch. *)
Fixpoint sequential_loop (fuel : nat) (timestamp_index : list index_entry)
    (threshold_ms : Z) (mp4_files : list mp4_file)
    (matches : gmap string match_data) : outcome (gmap string match_data) :=
  match mp4_files with
  | [] => Returned matches
  | f :: rest =>
      timestamp ← Mp4.extract_mp4_timestamp parse_mp4_timestamp_ffprobe fuel f true;
      if no_timestamp timestamp
      then sequential_loop fuel timestamp_index threshold_ms rest matches
      else
        found ← find_closest_message_binary (default 0 timestamp) timestamp_index threshold_ms;
        match found with
        | Some c =>
            _ ← seconds_for_log (diff_ms c);
            sequential_loop fuel timestamp_index threshold_ms rest
              (<[file_name f := (c_conv_id c, c_msg_idx c, diff_ms c)]> matches)
        | None => sequential_loop fuel timestamp_index threshold_ms rest matches
        end
  end.

Definition match_mp4_timestamps (fuel : nat) (mp4_files : list mp4_file)
    (messages : pydict) (threshold_seconds : Z) (use_parallel : bool)
    (max_workers : Z)
  : outcome (gmap string match_data) :=
  timestamp_index ← build_millisecond_index int_of_str messages;
  match timestamp_index with
  | [] => Returned ∅
  | _ :: _ =>
      let threshold_ms := threshold_seconds * 1000 in
      if use_parallel && (10 <? length mp4_files)%nat
      then
        _ ← thread_pool max_workers;
        parallel_loop fuel timestamp_index threshold_ms (as_completed mp4_files) ∅
      else sequential_loop fuel timestamp_index threshold_ms mp4_files ∅
  end.

End Matcher.

(** ** [orchestrator.run_phase1]: the derived identifier sets (lines 132-134) *)

Record mapping_sets : Type := MappingSets {
  matched_ids : gset string;
  unmatched_ids : gset string;
  orphaned_files : gset string
}.

Definition mapping_statistics (all_media_ids : gset string)
    (media_index : gmap string string) : mapping_sets :=
  {| matched_ids := all_media_ids ∩ dom media_index;
     unmatched_ids := all_media_ids ∖ dom media_index;
     orphaned_files := dom media_index ∖ all_media_ids |}.

(** ** [media_id_extractor.split_pipe_separated_ids] *)

Definition split_pipe_separated_ids (media_ids_str : string) : list string :=
  if String.eqb media_ids_str "" then []
  else
    omap (fun id => if String.eqb (PyStr.strip id) "" then None
                    else Some (PyStr.strip id))
         (PyStr.split " " "| " media_ids_str).

(** ** [media_id_extractor.extract_media_ids_from_messages] *)

(** The [stats] dictionary of the collector. *)
Record extraction_stats : Type := ExtractionStats {
  total_messages : nat;
  messages_with_media : nat;
  pipe_separated : nat;
  total_ids : nat
}.

(** [for x in v]: the items a loop over [v] visits; [TypeError] (here
    [Raised]) for an object that is not iterable. *)
Definition py_iter (v : pyval) : outcome (list pyval) :=
  match v with
  | PyList l => Returned l
  | PyDict d => Returned (map (fun kv => PyStr (fst kv)) d)
  | PyStr s => Returned (map PyStr (PyStr.chars s))
  | PyNone | PyBool _ | PyInt _ | PyFloat _ => Raised
  end.

(** [d.get(key, default)]. *)
Fixpoint dict_get_default (key : string) (default : pyval) (d : pydict) : pyval :=
  match d with
  | [] => default
  | (k, v) :: d' => if String.eqb k key then v else dict_get_default key default d'
  end.

(** The body of the inner loop: one message updates the identifier set and
    the counters.  [message.get] needs a [dict] and [.split] a [str]:
    anything else is an [AttributeError]. *)
Definition collect_message (acc : gset string * extraction_stats) (message : pyval)
  : outcome (gset string * extraction_stats) :=
  let '(all_media_ids, st) := acc in
  match message with
  | PyDict d =>
      let st := ExtractionStats (S (total_messages st)) (messages_with_media st)
                  (pipe_separated st) (total_ids st) in
      let media_ids_field := dict_get_default "Media IDs" (PyStr "") d in
      if truthy media_ids_field then
        match media_ids_field with
        | PyStr media_ids_str =>
            let ids := split_pipe_separated_ids media_ids_str in
            Returned
              (all_media_ids ∪ list_to_set ids,
               ExtractionStats (total_messages st) (S (messages_with_media st))
                 (if (1 <? length ids)%nat then S (pipe_separated st)
                  else pipe_separated st)
                 (total_ids st + length ids))
        | _ => Raised
        end
      else Returned (all_media_ids, st)
  | _ => Raised
  end.

(** [for message in message_list]. *)
Fixpoint collect_messages (acc : gset string * extraction_stats)
    (message_list : list pyval) : outcome (gset string * extraction_stats) :=
  match message_list with
  | [] => Returned acc
  | message :: rest =>
      acc' ← collect_message acc message;
      collect_messages acc' rest
  end.

(** [for conversation_id, message_list in messages.items()]. *)
Fixpoint collect_conversations (acc : gset string * extraction_stats)
    (messages : pydict) : outcome (gset string * extraction_stats) :=
  match messages with
  | [] => Returned acc
  | (_, message_list) :: rest =>
      items ← py_iter message_list;
      acc' ← collect_messages acc items;
      collect_conversations acc' rest
  end.

Definition extract_media_ids_from_messages (messages : pydict)
  : outcome (gset string * extraction_stats) :=
  collect_conversations (∅, ExtractionStats 0 0 0 0) messages.

(** ** [file_mapper.create_media_index] *)

(** One entry of [media_dir.iterdir()]: its name and whether it is a
    regular file. *)
Record dir_entry : Type := DirEntry {
  entry_name : string;
  entry_is_file : bool
}.

(** [if media_id] for an [Optional[str]]. *)
Definition has_id (media_id : option string) : bool :=
  match media_id with
  | Some s => negb (String.eqb s "")
  | None => false
  end.

(** [name.startswith('.')]. *)
Definition hidden (name : string) : bool :=
  match PyStr.strip_prefix "." name with
  | Some _ => true
  | None => false
  end.

(** The name list of the non-hidden regular files, in [iterdir] order. *)
Fixpoint visible_files (entries : list dir_entry) : list string :=
  match entries with
  | [] => []
  | e :: rest =>
      if entry_is_file e && negb (hidden (entry_name e))
      then entry_name e :: visible_files rest
      else visible_files rest
  end.

(** The worker of the parallel branch. *)
Definition process_file (filename : string) : option (string * string) :=
  let media_id := extract_media_id_from_filename filename in
  if has_id media_id then Some (default "" media_id, filename) else None.

(** [for future in as_completed(futures)]: the merge into [media_map]. *)
Fixpoint merge_files (completed : list string) (media_map : gmap string string)
  : gmap string string :=
  match completed with
  | [] => media_map
  | f :: rest =>
      match process_file f with
      | Some (media_id, filename) => merge_files rest (<[media_id := filename]> media_map)
      | None => merge_files rest media_map
      end
  end.

(** [for filename in filenames] of the sequential branch. *)
Fixpoint scan_files (filenames : list string) (media_map : gmap string string)
  : gmap string string :=
  match filenames with
  | [] => media_map
  | filename :: rest =>
      let media_id := extract_media_id_from_filename filename in
      if has_id media_id
      then scan_files rest (<[default "" media_id := filename]> media_map)
      else scan_files rest media_map
  end.

Section MediaIndex.

(** The order in which [as_completed] yields the submitted futures. *)
Variable files_completed : list string -> list string.

(** [media_dir] is [None] when the directory does not exist, otherwise its
    entries in [iterdir] order. *)
Definition create_media_index (media_dir : option (list dir_entry))
    (use_parallel : bool) (max_workers : Z) : outcome (gmap string string) :=
  match media_dir with
  | None => Returned ∅
  | Some entries =>
      let filenames := visible_files entries in
      if use_parallel && (1000 <? length filenames)%nat
      then
        _ ← thread_pool max_workers;
        Returned (merge_files (files_completed filenames) ∅)
      else Returned (scan_files filenames ∅)
  end.

End MediaIndex.

(** ** [orchestrator.run_phase1], once the conversations are loaded

    The inputs are the loaded [messages]; [media_dir], the entries of the
    media directory; [n_media_files], the number of regular files among
    [media_dir.glob('*')]; and [all_mp4s], the files of
    [media_dir.glob('*.mp4')].  The log lines without effect are left
    out. *)

Record phase1_stats : Type := Phase1Stats {
  total_media_ids : nat;
  unique_ids : nat;
  pipe_separated_count : nat;
  total_media_files : nat;
  ids_mapped : nat;
  ids_unmapped : nat;
  orphaned_files_count : nat;
  mp4s_processed : nat;
  mp4s_matched : nat
}.

Record mapping_data : Type := MappingData {
  md_media_index : gmap string string;
  md_sets : mapping_sets;
  md_mp4_matches : gmap string match_data;
  md_statistics : phase1_stats
}.

(** Lines 150-157: the MP4 files left for timestamp matching. *)
Fixpoint mp4s_without_ids (all_mp4s : list mp4_file) (matched : gset string)
  : list mp4_file :=
  match all_mp4s with
  | [] => []
  | mp4_file :: rest =>
      let media_id := extract_media_id_from_filename (file_name mp4_file) in
      if negb (has_id media_id) || negb (bool_decide (default "" media_id ∈ matched))
      then mp4_file :: mp4s_without_ids rest matched
      else mp4s_without_ids rest matched
  end.

Section Phase1.

Variable int_of_str : string -> option Z.
Variable parse_mp4_timestamp_ffprobe : mp4_file -> option Z.
Variable as_completed : list mp4_file -> list mp4_file.
Variable files_completed : list string -> list string.

(** Lines 190-205: [output_dir.mkdir], [open] and [json.dump] of the
    mapping.  The data holds strings and integers only, so [json.dump]
    accepts it; whether the file system takes the write is a parameter:
    [false] stands for the [OSError] of a failed [mkdir], [open] or
    write. *)
Variable mapping_file_written : mapping_data -> bool.

Definition save_mapping (mapping : mapping_data) : outcome unit :=
  if mapping_file_written mapping then Returned tt else Raised.

(** [None] as second component is the empty mapping returned when no
    conversation was loaded.  The percentage of line 140 divides by
    [stats.unique_ids]: [ZeroDivisionError] (here [Raised]) when it is 0. *)
Definition run_phase1 (fuel : nat) (messages : pydict)
    (media_dir : option (list dir_entry)) (n_media_files : nat)
    (all_mp4s : list mp4_file) (timestamp_threshold : Z) (max_workers : Z)
    (use_parallel : bool)
  : outcome (phase1_stats * option mapping_data) :=
  match messages with
  | [] => Returned (Phase1Stats 0 0 0 0 0 0 0 0 0, None)
  | _ :: _ =>
      '(all_media_ids, extraction_stats) ← extract_media_ids_from_messages messages;
      media_index ← create_media_index files_completed media_dir use_parallel max_workers;
      let sets := mapping_statistics all_media_ids media_index in
      if (size all_media_ids =? 0)%nat then Raised
      else
        let pool := mp4s_without_ids all_mp4s (matched_ids sets) in
        mp4_matches ←
          match pool with
          | [] => Returned ∅
          | _ :: _ =>
              match_mp4_timestamps int_of_str parse_mp4_timestamp_ffprobe
                as_completed fuel pool messages timestamp_threshold use_parallel
                max_workers
          end;
        let stats :=
          Phase1Stats (total_ids extraction_stats) (size all_media_ids)
            (pipe_separated extraction_stats) n_media_files
            (size (matched_ids sets)) (size (unmatched_ids sets))
            (size (orphaned_files sets))
            (match pool with [] => 0%nat | _ :: _ => length pool end)
            (match pool with [] => 0%nat | _ :: _ => size mp4_matches end) in
        let mapping := MappingData media_index sets mp4_matches stats in
        _ ← save_mapping mapping;
        Returned (stats, Some mapping)
  end.

End Phase1.

(** * Specification vocabulary *)

(** Every character of [s] is in the class [[A-F0-9\-]]. *)
Fixpoint all_id (s : string) : bool :=
  match s with
  | EmptyString => true
  | String c s' => Regex.id_char c && all_id s'
  end.

(** [s] does not start with a class character: a run cannot be extended
    into [s]. *)
Definition run_stops (s : string) : bool :=
  match s with
  | EmptyString => true
  | String c _ => negb (Regex.id_char c)
  end.

(** [f] has the marker [lit] at offset [n], immediately followed by the
    non-empty run [run] of class characters. *)
Definition marker_run_at (lit f run : string) (n : nat) : Prop :=
  exists pre rest,
    f = pre +:+ lit +:+ run +:+ rest /\ String.length pre = n /\
    run <> "" /\ all_id run = true.

(** [run] is the whole run that follows the first occurrence of [lit]
    followed by a class character. *)
Definition first_marker_run (lit f run : string) : Prop :=
  exists pre rest,
    f = pre +:+ lit +:+ run +:+ rest /\
    run <> "" /\ all_id run = true /\ run_stops rest = true /\
    forall m run', marker_run_at lit f run' m -> (String.length pre <= m)%nat.

(** [s[n:]]. *)
Fixpoint skip (n : nat) (s : string) : string :=
  match n, s with
  | O, _ => s
  | S n', String _ s' => skip n' s'
  | S _, EmptyString => EmptyString
  end.

(** No offset below [n] carries the marker followed by a class character. *)
Definition no_marker_run_before (lit f : string) (n : nat) : bool :=
  forallb (fun m => bool_decide (Regex.match_here lit (skip m f) = None)) (seq 0 n).

(** [sub in s], declaratively. *)
Definition substring_of (sub s : string) : Prop :=
  exists pre suf, s = pre +:+ sub +:+ suf.

(** The index is sorted non-decreasing by [timestamp_ms]: every adjacent
    pair is in order. *)
Definition index_sorted (l : list index_entry) : Prop :=
  forall (i : nat) (e1 e2 : index_entry),
    l !! i = Some e1 -> l !! S i = Some e2 -> timestamp_ms e1 <= timestamp_ms e2.

(** The message that an index entry refers to is the [msg_idx]-th message
    of a conversation [conv_id] of the corpus. *)
Definition refers_to (messages : pydict) (e : index_entry) : Prop :=
  exists message_list : list pyval,
    (conv_id e, PyList message_list) ∈ messages /\
    message_list !! msg_idx e = Some (PyDict (message e)).

(** The candidate tuple built from an index entry for the query [t]: the
    signed difference is [t - timestamp_ms]. *)
Definition candidate_of (t : Z) (e : index_entry) : candidate :=
  Candidate (conv_id e) (msg_idx e) (message e) (t - timestamp_ms e).

(** A checkable form of [index_sorted]. *)
Fixpoint index_sortedb (l : list index_entry) : bool :=
  match l with
  | e1 :: (e2 :: _) as rest => (timestamp_ms e1 <=? timestamp_ms e2) && index_sortedb rest
  | _ => true
  end.

(** A small index for examples: one conversation, the messages in
    timestamp order. *)
Definition sample_index (stamps : list Z) : list index_entry :=
  imap (fun i ts => IndexEntry ts "conv" i [("Created(microseconds)", PyInt ts)]) stamps.

(** Big-endian encoding on [n] bytes, for building sample files. *)
Definition byte_of_Z (z : Z) : byte :=
  default Byte.x00 (Byte.of_N (Z.to_N (z mod 256))).

Definition be_bytes (n : nat) (z : Z) : list byte :=
  rev (map (fun k => byte_of_Z (z / 256 ^ Z.of_nat k)) (seq 0 n)).

(** An atom with a 32-bit size: size, type, payload. *)
Definition atom (type : string) (payload : list byte) : list byte :=
  be_bytes 4 (8 + Z.of_nat (length payload)) ++ Mp4.lit type ++ payload.

(** A minimal MP4 file: [ftyp], then [moov] whose first child is a
    version-0 [mvhd] with the given creation time (seconds since 1904). *)
Definition sample_mp4 (name : string) (creation_time : Z) : mp4_file :=
  Mp4File name
    (atom "ftyp" (Mp4.lit "isom") ++
     atom "moov" (atom "mvhd" (be_bytes 4 0 ++ be_bytes 4 creation_time ++ be_bytes 4 0))).

(** A corpus with one conversation of one unmatched message created at
    1000 ms. *)
Definition sample_messages : pydict :=
  [("conv", PyList [PyDict [("Created(microseconds)", PyInt 1000)]])].

(** A conversation with a message that already has media and one that
    has none. *)
Definition mixed_messages : pydict :=
  [("conv", PyList [PyDict [("Created(microseconds)", PyInt 2000);
                            ("matched_media_files", PyList [PyStr "a.jpg"])];
                    PyDict [("Created(microseconds)", PyInt 1000)]])].

(** No [ffprobe] result, [int] rejecting every string, completion in
    submission order: the parameters of the examples. *)
Definition no_ffprobe (f : mp4_file) : option Z := None.
Definition no_int_of_str (s : string) : option Z := None.
Definition in_order (l : list mp4_file) : list mp4_file := l.

(** The message is a dictionary whose timestamp field is an infinite
    [float]. *)
Definition infinite_timestamp (m : pyval) : bool :=
  match m with
  | PyDict d =>
      match dict_get "Created(microseconds)" d with
      | PyFloat (S754_infinity _) => true
      | _ => false
      end
  | _ => false
  end.

(** No message of a conversation list carries an infinite timestamp. *)
Definition finite_timestamps (messages : pydict) : Prop :=
  forall conv l m,
    (conv, PyList l) ∈ messages -> m ∈ l -> infinite_timestamp m = false.

(** A checkable form of [finite_timestamps]. *)
Definition finite_timestampsb (messages : pydict) : bool :=
  forallb (fun kv => match snd kv with
                     | PyList l => forallb (fun m => negb (infinite_timestamp m)) l
                     | _ => true
                     end) messages.

(** What it means for the batch to have assigned [v] to the name [k] on
    behalf of the file [f]: [f] has that name, its extracted timestamp is
    not zero, and [v] names an entry of the index within the threshold,
    with the signed difference to it. *)
Definition assigned_by (ffprobe : mp4_file -> option Z) (fuel : nat)
    (index : list index_entry) (threshold_ms : Z)
    (f : mp4_file) (k : string) (v : match_data) : Prop :=
  exists (ts : Z) (e : index_entry),
    file_name f = k /\
    Mp4.extract_mp4_timestamp ffprobe fuel f true = Returned (Some ts) /\
    ts <> 0 /\ e ∈ index /\ Z.abs (ts - timestamp_ms e) <= threshold_ms /\
    v = (conv_id e, msg_idx e, ts - timestamp_ms e).

(** [" | ".join(ids)]. *)
Fixpoint join_pipe (ids : list string) : string :=
  match ids with
  | [] => ""
  | [x] => x
  | x :: rest => x +:+ " | " +:+ join_pipe rest
  end.

(** An identifier as the export writes it: not empty, no white space at
    either end, no pipe character. *)
Definition clean_id (x : string) : Prop :=
  x <> "" /\ PyStr.strip x = x /\ PyStr.contains "|" x = false.

(** The number of messages a loop over the corpus visits. *)
Fixpoint count_messages (messages : pydict) : nat :=
  match messages with
  | [] => 0
  | (_, message_list) :: rest =>
      match py_iter message_list with
      | Returned items => length items + count_messages rest
      | _ => count_messages rest
      end
  end.

(** A message the collector can read: a [dict] whose ['Media IDs'] value is
    absent, falsy or a string. *)
Definition readable_message (m : pyval) : Prop :=
  exists d, m = PyDict d /\
    (truthy (dict_get_default "Media IDs" (PyStr "") d) = false \/
     exists ids, dict_get_default "Media IDs" (PyStr "") d = PyStr ids).

(** A corpus as [load_all_conversations] builds it from well-formed
    files: every conversation is a list of readable messages. *)
Definition readable_corpus (messages : pydict) : Prop :=
  Forall (fun kv => exists l, snd kv = PyList l /\ Forall readable_message l) messages.

(** What the collector keeps true of its identifier set and counters. *)
Definition collector_invariant (acc : gset string * extraction_stats) : Prop :=
  (pipe_separated (snd acc) <= messages_with_media (snd acc))%nat /\
  (messages_with_media (snd acc) <= total_messages (snd acc))%nat /\
  (size (fst acc) <= total_ids (snd acc))%nat /\
  (2 * pipe_separated (snd acc) <= total_ids (snd acc))%nat /\
  (forall id, id ∈ fst acc -> id <> "" /\ PyStr.strip id = id).

(** Completion in submission order, for the examples of the file index. *)
Definition names_in_order (l : list string) : list string := l.

(** No two names of the list yield the same identifier. *)
Definition distinct_ids (l : list string) : Prop :=
  forall f1 f2 id,
    f1 ∈ l -> f2 ∈ l ->
    extract_media_id_from_filename f1 = Some id ->
    extract_media_id_from_filename f2 = Some id -> f1 = f2.

(** Eleven sample files with distinct names and the same creation time,
    enough for the parallel branch of the batch matcher. *)
Definition eleven_files : list mp4_file :=
  map (fun name => sample_mp4 name 2082844801)
      ["a.mp4"; "b.mp4"; "c.mp4"; "d.mp4"; "e.mp4"; "f.mp4";
       "g.mp4"; "h.mp4"; "i.mp4"; "j.mp4"; "k.mp4"].

(** One pass of the atom loop at file position [pos]: the loop ends with
    a result, or goes on at a new position. *)
Inductive atom_step : Type :=
  | LoopEnds (found : option Z)
  | LoopContinues (pos : Z).

Definition moov_step (data : list byte) (pos : Z) : atom_step :=
  let atom_header := Mp4.read data pos Mp4.ATOM_HEADER_SIZE in
  if (length atom_header <? Mp4.ATOM_HEADER_SIZE)%nat then LoopEnds None
  else
    let pos := pos + Z.of_nat (length atom_header) in
    if bool_decide (Mp4.slice 4 8 atom_header = Mp4.lit "moov") then LoopEnds (Some pos)
    else
      match Mp4.unpack 4 (Mp4.slice 0 4 atom_header) with
      | None => LoopEnds None
      | Some atom_size =>
          if atom_size =? 0 then LoopEnds None
          else if atom_size =? 1 then
            match Mp4.unpack 8 (Mp4.read data pos 8) with
            | None => LoopEnds None
            | Some extended_size =>
                match Mp4.seek (pos + Z.of_nat (length (Mp4.read data pos 8)))
                               (extended_size - 16) with
                | None => LoopEnds None
                | Some pos => LoopContinues pos
                end
            end
          else
            match Mp4.seek pos (atom_size - 8) with
            | None => LoopEnds None
            | Some pos => LoopContinues pos
            end
      end.

(** A message from which the collector takes no identifier: its
    [Media IDs] field is missing or falsy, or holds only separators and
    white space. *)
Definition no_identifier (m : pyval) : Prop :=
  exists d, m = PyDict d /\
    (truthy (dict_get_default "Media IDs" (PyStr "") d) = false \/
     exists s, dict_get_default "Media IDs" (PyStr "") d = PyStr s /\
               split_pipe_separated_ids s = []).

Definition corpus_without_ids (messages : pydict) : Prop :=
  Forall (fun kv => exists l, snd kv = PyList l /\ Forall no_identifier l) messages.

(** A corpus with one message that names one media file, created at
    1000 ms. *)
Definition media_messages : pydict :=
  [("conv", PyList [PyDict [("Media IDs", PyStr "media~AB");
                            ("Created(microseconds)", PyInt 1000)]])].

Definition media_files : list mp4_file :=
  [sample_mp4 "2025-01-01_media~AB.mp4" 2082844801;
   sample_mp4 "a.mp4" 2082844801].

Definition media_entries : list dir_entry :=
  [DirEntry "2025-01-01_media~AB.mp4" true; DirEntry "a.mp4" true].

(** A file system that takes every write. *)
Definition always_written (mapping : mapping_data) : bool := true.

(** The message [m] names the identifier [id] in its [Media IDs]
    field. *)
Definition message_names (m : pyval) (id : string) : Prop :=
  exists d s, m = PyDict d /\
    dict_get_default "Media IDs" (PyStr "") d = PyStr s /\
    id ∈ split_pipe_separated_ids s.

(** Some message of some conversation names [id]. *)
Definition corpus_names (messages : pydict) (id : string) : Prop :=
  exists conv v l m,
    (conv, v) ∈ messages /\ py_iter v = Returned l /\ m ∈ l /\ message_names m id.

(** A file whose only atom has size 1 and extended size 0. *)
Definition looping_file : list byte :=
  be_bytes 4 1 ++ Mp4.lit "wide" ++ be_bytes 8 0.

(** A directory of 1001 files with distinct identifiers, enough for the
    parallel branch of the file index: [2025-07-27_media~0000.jpg] to
    [2025-07-27_media~03E8.jpg]. *)
Definition hex_digit (n : nat) : ascii :=
  nth n (list_ascii_of_string "0123456789ABCDEF") "0"%char.

Definition hex4 (n : nat) : string :=
  string_of_list_ascii
    [hex_digit (n / 4096 mod 16); hex_digit (n / 256 mod 16);
     hex_digit (n / 16 mod 16); hex_digit (n mod 16)].

Definition numbered_name (n : nat) : string :=
  "2025-07-27_media~" +:+ hex4 n +:+ ".jpg".

Definition many_entries : list dir_entry :=
  map (fun n => DirEntry (numbered_name n) true) (seq 0 1001).

(** The number a [media~XXXX] identifier was made from. *)
Definition hex_value (c : ascii) : nat :=
  let n := nat_of_ascii c in
  if (n <? 58)%nat then (n - 48)%nat else (n - 55)%nat.

Definition id_number (id : string) : nat :=
  foldl (fun acc c => (acc * 16 + hex_value c)%nat) 0%nat
        (drop 6 (list_ascii_of_string id)).

(** Every name of the list yields an identifier, from which [key] reads
    the position of the name. *)
Definition ids_keyed (key : string -> nat) (name : nat -> string) (n : nat) : bool :=
  forallb (fun i => match extract_media_id_from_filename (name i) with
                    | Some id => Nat.eqb (key id) i
                    | None => false
                    end) (seq 0 n).

(** * Theorems *)

(** ** Strings *)

#[local] Arguments String.append !_ _ / : simpl nomatch.

Lemma strip_prefix_app (p r : string) : PyStr.strip_prefix p (p +:+ r) = Some r.
Proof.
  induction p as [|a p IH]; simpl; [reflexivity|].
  rewrite Ascii.eqb_refl. exact IH.
Qed.

Lemma strip_prefix_Some (p s r : string) :
  PyStr.strip_prefix p s = Some r -> s = p +:+ r.
Proof.
  revert s. induction p as [|a p IH]; intros s H; simpl in *.
  - congruence.
  - destruct s as [|b s]; [discriminate|].
    destruct (Ascii.eqb a b) eqn:E; [|discriminate].
    apply Ascii.eqb_eq in E. subst b. f_equal. auto.
Qed.

Lemma contains_unfold (sub s : string) :
  PyStr.contains sub s =
  match PyStr.strip_prefix sub s with
  | Some _ => true
  | None => match s with
            | EmptyString => false
            | String _ s' => PyStr.contains sub s'
            end
  end.
Proof. destruct s; reflexivity. Qed.

Lemma search_unfold (m : string -> option string) (s : string) :
  Regex.search m s =
  match m s with
  | Some g => Some g
  | None => match s with
            | EmptyString => None
            | String _ s' => Regex.search m s'
            end
  end.
Proof. destruct s; reflexivity. Qed.

Lemma contains_true (sub s : string) :
  PyStr.contains sub s = true <-> substring_of sub s.
Proof.
  split.
  - induction s as [|c s IH]; simpl.
    + destruct (PyStr.strip_prefix sub "") eqn:E; [|discriminate].
      intros _. apply strip_prefix_Some in E. exists "", s. exact E.
    + destruct (PyStr.strip_prefix sub (String c s)) eqn:E.
      * intros _. apply strip_prefix_Some in E. exists "", s0. exact E.
      * intros H. destruct (IH H) as (pre & suf & ->).
        exists (String c pre), suf. reflexivity.
  - intros (pre & suf & ->). induction pre as [|c pre IH]; simpl.
    + rewrite contains_unfold, strip_prefix_app. reflexivity.
    + destruct (PyStr.strip_prefix sub _); [reflexivity | exact IH].
Qed.

Lemma contains_false (sub s : string) :
  PyStr.contains sub s = false <-> ~ substring_of sub s.
Proof.
  rewrite <- contains_true. destruct (PyStr.contains sub s); split; intros H; congruence.
Qed.

Lemma take_run_app (run rest : string) :
  all_id run = true -> run_stops rest = true ->
  Regex.take_run (run +:+ rest) = run.
Proof.
  intros Hrun Hrest. induction run as [|c run IH]; simpl in *.
  - destruct rest as [|c rest]; simpl in *; [reflexivity|].
    destruct (Regex.id_char c); [discriminate | reflexivity].
  - apply andb_prop in Hrun as [-> Hrun]. f_equal. auto.
Qed.

Lemma take_run_all_id (s : string) : all_id (Regex.take_run s) = true.
Proof.
  induction s as [|c s IH]; simpl; [reflexivity|].
  destruct (Regex.id_char c) eqn:E; simpl; [rewrite E; exact IH | reflexivity].
Qed.

Lemma take_run_split (s : string) :
  exists rest, s = Regex.take_run s +:+ rest /\ run_stops rest = true.
Proof.
  induction s as [|c s (rest & IH & Hstop)]; simpl.
  - exists "". auto.
  - destruct (Regex.id_char c) eqn:E.
    + exists rest. simpl. rewrite <- IH. auto.
    + exists (String c s). simpl. rewrite E. auto.
Qed.

(** A class character after the marker is enough for the anchored matcher
    to succeed. *)
Lemma match_here_starts (lit run rest : string) :
  run <> "" -> all_id run = true ->
  exists g, Regex.match_here lit (lit +:+ run +:+ rest) = Some g.
Proof.
  intros Hne Hid. unfold Regex.match_here. rewrite strip_prefix_app.
  destruct run as [|c run]; [contradiction|]. simpl in *.
  apply andb_prop in Hid as [-> _]. eauto.
Qed.

Lemma match_here_exact (lit run rest : string) :
  run <> "" -> all_id run = true -> run_stops rest = true ->
  Regex.match_here lit (lit +:+ run +:+ rest) = Some run.
Proof.
  intros Hne Hid Hstop. unfold Regex.match_here. rewrite strip_prefix_app.
  rewrite take_run_app by assumption.
  destruct run; [contradiction | reflexivity].
Qed.

Lemma match_here_Some (lit s g : string) :
  Regex.match_here lit s = Some g ->
  exists rest, s = lit +:+ g +:+ rest /\ g <> "" /\ all_id g = true /\
               run_stops rest = true.
Proof.
  unfold Regex.match_here. intros H.
  destruct (PyStr.strip_prefix lit s) as [r|] eqn:E; [|discriminate].
  apply strip_prefix_Some in E. subst s.
  destruct (take_run_split r) as (rest & Hr & Hstop).
  pose proof (take_run_all_id r) as Hall.
  destruct (Regex.take_run r) as [|c t] eqn:Et; [discriminate|].
  injection H as <-. exists rest. rewrite <- Hr. repeat split; auto.
Qed.

(** [re.search] finds the run after the first occurrence. *)
Lemma search_first_marker_run (lit f run : string) :
  first_marker_run lit f run ->
  Regex.search (Regex.match_here lit) f = Some run.
Proof.
  intros (pre & rest & -> & Hne & Hid & Hstop & Hfirst).
  induction pre as [|c pre IH].
  - simpl. rewrite search_unfold, match_here_exact by assumption. reflexivity.
  - simpl.
    destruct (Regex.match_here lit (String c (pre +:+ lit +:+ run +:+ rest)))
      as [g|] eqn:E.
    + apply match_here_Some in E as (rest' & E & Hg & Hidg & _).
      specialize (Hfirst 0%nat g). simpl in Hfirst.
      exfalso. assert (S (String.length pre) <= 0)%nat; [|lia].
      apply Hfirst. exists "", rest'. simpl. rewrite <- E. auto.
    + apply IH. intros m run' (pre' & rest' & E' & Hlen & Hne' & Hid').
      specialize (Hfirst (S m) run'). simpl in Hfirst.
      assert (S (String.length pre) <= S m)%nat; [|lia].
      apply Hfirst. exists (String c pre'), rest'. simpl. rewrite E'.
      simpl. auto.
Qed.

Lemma skip_app (pre s : string) : skip (String.length pre) (pre +:+ s) = s.
Proof. induction pre as [|c pre IH]; simpl; auto. Qed.

(** A checkable form of [first_marker_run]. *)
Lemma first_marker_run_check (lit pre run rest : string) :
  run <> "" -> all_id run = true -> run_stops rest = true ->
  no_marker_run_before lit (pre +:+ lit +:+ run +:+ rest) (String.length pre) = true ->
  first_marker_run lit (pre +:+ lit +:+ run +:+ rest) run.
Proof.
  intros Hne Hid Hstop Hchk. exists pre, rest. repeat split; auto.
  intros m run' (pre' & rest' & E & Hlen & Hne' & Hid').
  destruct (le_lt_dec (String.length pre) m) as [|Hlt]; [assumption|].
  unfold no_marker_run_before in Hchk. rewrite forallb_forall in Hchk.
  specialize (Hchk m). rewrite bool_decide_eq_true in Hchk.
  rewrite E, <- Hlen, skip_app in Hchk.
  destruct (match_here_starts lit run' rest' Hne' Hid') as [g Hg].
  rewrite Hchk in Hg; [discriminate|]. apply in_seq. lia.
Qed.

(** When the first alternative matches nowhere, the alternation searches
    for the second one. *)
Lemma search_alt_second (lit1 lit2 f : string) :
  Regex.search (Regex.match_here lit1) f = None ->
  Regex.search (Regex.match_alt lit1 lit2) f = Regex.search (Regex.match_here lit2) f.
Proof.
  induction f as [|c f IH]; simpl; unfold Regex.match_alt.
  - destruct (Regex.match_here lit1 ""); [discriminate | reflexivity].
  - destruct (Regex.match_here lit1 (String c f)); [discriminate|].
    intros H. rewrite <- (IH H). reflexivity.
Qed.

Lemma search_none_of_contains (lit f : string) :
  PyStr.contains lit f = false -> Regex.search (Regex.match_here lit) f = None.
Proof.
  induction f as [|c f IH]; simpl; unfold Regex.match_here;
    destruct (PyStr.strip_prefix lit _); try discriminate; auto.
Qed.

(** ** The file-name parser *)

(** File names without the thumbnail and blob markers skip the first two
    rules. *)
Lemma parser_past_blob (f : string) :
  ~ substring_of "thumbnail~" f -> ~ substring_of "b~" f ->
  extract_media_id_from_filename f =
  match zip_branch f with
  | Some r => Some r
  | None => generic_branch f
  end.
Proof.
  intros Ht Hb. apply contains_false in Ht, Hb.
  unfold extract_media_id_from_filename, blob_branch. rewrite Ht, Hb. reflexivity.
Qed.

(** The documented file-name patterns of the module. *)
Example parse_blob :
  extract_media_id_from_filename
    "2025-07-27_b~EiASFU8zdmJFSGUxRDR6MzV1VUJBelNRQTIBCEgCUARgAQ.jpeg"
  = Some "b~EiASFU8zdmJFSGUxRDR6MzV1VUJBelNRQTIBCEgCUARgAQ".
Proof. reflexivity. Qed.

Example parse_media :
  extract_media_id_from_filename
    "2025-07-27_media~28E0FFB8-5182-4D9D-92E1-DD941C881FC5.mp4"
  = Some "media~28E0FFB8-5182-4D9D-92E1-DD941C881FC5".
Proof. reflexivity. Qed.

Example parse_overlay :
  extract_media_id_from_filename
    "2025-07-27_overlay~7E80A0BA-875C-49B0-8F4A-865EB6F8EC21.webp"
  = Some "overlay~7E80A0BA-875C-49B0-8F4A-865EB6F8EC21".
Proof. reflexivity. Qed.

Example parse_zip :
  extract_media_id_from_filename
    "2025-07-30_media~zip-C63E6B4D-4DF6-4C2C-A331-A49E4F1C0109.mp4"
  = Some "media~zip-C63E6B4D-4DF6-4C2C-A331-A49E4F1C0109".
Proof. reflexivity. Qed.

Example parse_thumbnail :
  extract_media_id_from_filename "2025-07-27_thumbnail~something.jpeg" = None.
Proof. reflexivity. Qed.

Example parse_plain :
  extract_media_id_from_filename "regular_file.txt" = None.
Proof. reflexivity. Qed.

(** C7: a file name that contains [thumbnail~] anywhere yields no
    identifier, whatever else it contains. *)
Theorem thumbnail_excluded (f : string) :
  substring_of "thumbnail~" f -> extract_media_id_from_filename f = None.
Proof.
  intros H. apply contains_true in H.
  unfold extract_media_id_from_filename. rewrite H. reflexivity.
Qed.

Lemma thumbnail_excluded_witness :
  substring_of "thumbnail~" "2025-07-27_thumbnail~b~x_media~zip-AB_overlay~CD.jpeg" /\
  extract_media_id_from_filename
    "2025-07-27_thumbnail~b~x_media~zip-AB_overlay~CD.jpeg" = None.
Proof.
  assert (H : substring_of "thumbnail~"
                "2025-07-27_thumbnail~b~x_media~zip-AB_overlay~CD.jpeg")
    by (exists "2025-07-27_", "b~x_media~zip-AB_overlay~CD.jpeg"; reflexivity).
  split; [exact H | exact (thumbnail_excluded _ H)].
Defined.

(** C2, as stated, fails: the zip rule is guarded by the marker with a
    leading underscore, so a name that starts with [media~zip-] yields
    nothing. *)
Lemma zip_marker_without_underscore :
  ~ substring_of "thumbnail~" "media~zip-AB.mp4" /\
  ~ substring_of "b~" "media~zip-AB.mp4" /\
  first_marker_run "media~zip-" "media~zip-AB.mp4" "AB" /\
  extract_media_id_from_filename "media~zip-AB.mp4" = None /\
  extract_media_id_from_filename "media~zip-AB.mp4" <> Some ("media~zip-" +:+ "AB").
Proof.
  split; [apply contains_false; reflexivity|].
  split; [apply contains_false; reflexivity|].
  split; [|split; [reflexivity | discriminate]].
  apply (first_marker_run_check "media~zip-" "" "AB" ".mp4");
    [discriminate | reflexivity..].
Qed.

(** C2, amended: with the underscore before the marker, the zip rule
    returns [media~zip-] followed by the run of the first occurrence. *)
Theorem zip_marker_wins (f run : string) :
  ~ substring_of "thumbnail~" f -> ~ substring_of "b~" f ->
  substring_of "_media~zip-" f ->
  first_marker_run "media~zip-" f run ->
  extract_media_id_from_filename f = Some ("media~zip-" +:+ run).
Proof.
  intros Ht Hb Hz Hrun. rewrite parser_past_blob by assumption.
  apply contains_true in Hz. apply search_first_marker_run in Hrun.
  unfold zip_branch. rewrite Hz, Hrun. reflexivity.
Qed.

Lemma zip_marker_wins_witness :
  extract_media_id_from_filename "2025-07-30_media~zip-C63E6B4D-4DF6.mp4"
  = Some "media~zip-C63E6B4D-4DF6".
Proof.
  apply (zip_marker_wins "2025-07-30_media~zip-C63E6B4D-4DF6.mp4" "C63E6B4D-4DF6").
  - apply contains_false; reflexivity.
  - apply contains_false; reflexivity.
  - exists "2025-07-30", "C63E6B4D-4DF6.mp4"; reflexivity.
  - apply (first_marker_run_check "media~zip-" "2025-07-30_" "C63E6B4D-4DF6" ".mp4");
      [discriminate | reflexivity..].
Defined.

(** The generic rule tags correctly when [media~] does not occur at all. *)
Lemma overlay_tag_without_media_marker (f run : string) :
  ~ substring_of "thumbnail~" f -> ~ substring_of "b~" f ->
  ~ substring_of "media~" f ->
  first_marker_run "overlay~" f run ->
  extract_media_id_from_filename f = Some ("overlay~" +:+ run).
Proof.
  intros Ht Hb Hm Hrun. rewrite parser_past_blob by assumption.
  apply contains_false in Hm. apply search_first_marker_run in Hrun.
  assert (Hz : PyStr.contains "_media~zip-" f = false).
  { apply contains_false. intros (pre & suf & ->).
    apply contains_false in Hm. apply Hm.
    exists (pre +:+ "_"), ("zip-" +:+ suf).
    clear. induction pre; simpl; [reflexivity | f_equal; assumption]. }
  unfold zip_branch, generic_branch. rewrite Hz.
  rewrite search_alt_second by (apply search_none_of_contains; assumption).
  rewrite Hrun, Hm. reflexivity.
Qed.

(** The generic rule tags correctly when the first marker followed by a
    run is [media~]: no earlier offset carries either marker followed by a
    class character. *)
Lemma media_tag_when_media_first (pre run rest : string) :
  let f := pre +:+ "media~" +:+ run +:+ rest in
  ~ substring_of "thumbnail~" f -> ~ substring_of "b~" f ->
  ~ substring_of "_media~zip-" f ->
  run <> "" -> all_id run = true -> run_stops rest = true ->
  no_marker_run_before "media~" f (String.length pre) = true ->
  no_marker_run_before "overlay~" f (String.length pre) = true ->
  extract_media_id_from_filename f = Some ("media~" +:+ run).
Proof.
  intros f Ht Hb Hz Hne Hid Hstop Hm Ho.
  rewrite parser_past_blob by assumption.
  apply contains_false in Hz. unfold zip_branch, generic_branch. rewrite Hz.
  assert (Hc : PyStr.contains "media~" f = true)
    by (apply contains_true; exists pre, (run +:+ rest); reflexivity).
  rewrite Hc.
  assert (Hsearch : Regex.search (Regex.match_alt "media~" "overlay~") f = Some run);
    [|rewrite Hsearch; reflexivity].
  unfold no_marker_run_before in Hm, Ho. rewrite forallb_forall in Hm, Ho.
  assert (Hnone : forall k, (k < String.length pre)%nat ->
            Regex.match_alt "media~" "overlay~" (skip k f) = None).
  { intros k Hk. unfold Regex.match_alt.
    specialize (Hm k ltac:(apply in_seq; lia)).
    specialize (Ho k ltac:(apply in_seq; lia)).
    rewrite bool_decide_eq_true in Hm, Ho. rewrite Hm, Ho. reflexivity. }
  clear Hm Ho Hc Hz Ht Hb. subst f.
  induction pre as [|c pre IH].
  - change (Regex.search (Regex.match_alt "media~" "overlay~")
              ("media~" +:+ run +:+ rest) = Some run).
    rewrite search_unfold. unfold Regex.match_alt.
    rewrite match_here_exact by assumption. reflexivity.
  - change (Regex.search (Regex.match_alt "media~" "overlay~")
              (String c (pre +:+ "media~" +:+ run +:+ rest)) = Some run).
    rewrite search_unfold.
    rewrite (Hnone 0%nat ltac:(simpl; lia) : Regex.match_alt "media~" "overlay~"
               (String c (pre +:+ "media~" +:+ run +:+ rest)) = None).
    apply IH. intros k Hk. apply (Hnone (S k)). simpl. lia.
Qed.

(** C4 at the failing input: the only marker followed by a run is
    [overlay~], and the result is tagged [media]. *)
Theorem overlay_run_tagged_media :
  ~ substring_of "thumbnail~" "2025-07-27_media~_overlay~7E80A0BA.webp" /\
  ~ substring_of "b~" "2025-07-27_media~_overlay~7E80A0BA.webp" /\
  ~ substring_of "media~zip-" "2025-07-27_media~_overlay~7E80A0BA.webp" /\
  Regex.search (Regex.match_here "media~") "2025-07-27_media~_overlay~7E80A0BA.webp" = None /\
  first_marker_run "overlay~" "2025-07-27_media~_overlay~7E80A0BA.webp" "7E80A0BA" /\
  extract_media_id_from_filename "2025-07-27_media~_overlay~7E80A0BA.webp"
  = Some "media~7E80A0BA".
Proof.
  split; [apply contains_false; reflexivity|].
  split; [apply contains_false; reflexivity|].
  split; [apply contains_false; reflexivity|].
  split; [reflexivity|].
  split; [|reflexivity].
  apply (first_marker_run_check "overlay~" "2025-07-27_media~_" "7E80A0BA" ".webp");
    [discriminate | reflexivity..].
Qed.

(** ** The derived identifier sets *)

(** C8: the matched and unmatched identifiers partition the identifier
    set; matched identifiers are those with a file, unmatched those
    without, and orphaned files are indexed identifiers no message names. *)
Theorem mapping_sets_partition (all_media_ids : gset string)
    (media_index : gmap string string) :
  let s := mapping_statistics all_media_ids media_index in
  matched_ids s ∪ unmatched_ids s = all_media_ids /\
  matched_ids s ∩ unmatched_ids s = ∅ /\
  (forall x, x ∈ matched_ids s <-> x ∈ all_media_ids /\ is_Some (media_index !! x)) /\
  (forall x, x ∈ unmatched_ids s <-> x ∈ all_media_ids /\ media_index !! x = None) /\
  (forall x, x ∈ orphaned_files s <-> is_Some (media_index !! x) /\ x ∉ all_media_ids).
Proof.
  simpl. split; [|split; [|split; [|split]]].
  - apply set_eq. intros x.
    rewrite elem_of_union, elem_of_intersection, elem_of_difference.
    destruct (decide (x ∈ dom media_index)); tauto.
  - apply set_eq. intros x.
    rewrite !elem_of_intersection, elem_of_difference, elem_of_empty. tauto.
  - intros x. rewrite elem_of_intersection, elem_of_dom. reflexivity.
  - intros x. rewrite elem_of_difference, not_elem_of_dom. reflexivity.
  - intros x. rewrite elem_of_difference, elem_of_dom. reflexivity.
Qed.

(** ** The timestamp index *)

Section SortByKey.

Context {A : Type} (key : A -> Z).

Let key_le (a b : A) : Prop := key a <= key b.

Lemma insert_by_key_elem (x y : A) (l : list A) :
  y ∈ insert_by_key key x l <-> y = x \/ y ∈ l.
Proof.
  induction l as [|z l IH]; simpl.
  - rewrite list_elem_of_singleton, elem_of_nil. tauto.
  - destruct (key x <=? key z); rewrite !elem_of_cons; [tauto|].
    rewrite IH. tauto.
Qed.

Lemma sort_by_key_elem (y : A) (l : list A) : y ∈ sort_by_key key l <-> y ∈ l.
Proof.
  induction l as [|x l IH]; simpl; [reflexivity|].
  rewrite insert_by_key_elem, elem_of_cons, IH. reflexivity.
Qed.

Lemma insert_by_key_hd (x a : A) (l : list A) :
  key_le a x -> HdRel key_le a l -> HdRel key_le a (insert_by_key key x l).
Proof.
  intros Hax Hal. destruct l as [|z l]; simpl; [constructor; assumption|].
  destruct (key x <=? key z); constructor; [assumption|].
  inversion Hal; assumption.
Qed.

Lemma insert_by_key_sorted (x : A) (l : list A) :
  Sorted key_le l -> Sorted key_le (insert_by_key key x l).
Proof.
  induction 1 as [|z l Hs IH Hhd]; simpl.
  - repeat constructor.
  - destruct (key x <=? key z) eqn:E.
    + constructor; [constructor; assumption|]. constructor.
      apply Z.leb_le in E. exact E.
    + constructor; [assumption|]. apply insert_by_key_hd; [|assumption].
      apply Z.leb_gt in E. unfold key_le. lia.
Qed.

Lemma sort_by_key_sorted (l : list A) : Sorted key_le (sort_by_key key l).
Proof.
  induction l as [|x l IH]; simpl; [constructor|].
  apply insert_by_key_sorted. exact IH.
Qed.

Lemma sorted_adjacent (l : list A) :
  Sorted key_le l ->
  forall (i : nat) (a b : A), l !! i = Some a -> l !! S i = Some b -> key a <= key b.
Proof.
  induction 1 as [|z l Hs IH Hhd]; intros i a b Ha Hb; [discriminate|].
  destruct i as [|i]; simpl in *.
  - injection Ha as <-. destruct l as [|y l]; [discriminate|].
    simpl in Hb. injection Hb as <-. inversion Hhd; assumption.
  - eapply IH; eassumption.
Qed.

End SortByKey.

Section IndexFacts.

Variable int_of_str : string -> option Z.

Lemma index_message_unmatched (conv : string) (idx : nat) (m : pyval) (e : index_entry) :
  index_message int_of_str conv idx m = Returned (Some e) ->
  conv_id e = conv /\ msg_idx e = idx /\ m = PyDict (message e) /\
  truthy (dict_get "matched_media_files" (message e)) = false.
Proof.
  unfold index_message. destruct m as [| | | | | |d]; try discriminate.
  destruct (truthy (dict_get "matched_media_files" d)) eqn:Hm; [discriminate|].
  destruct (negb _); [discriminate|].
  destruct (py_int _ _) as [z|[| |]]; try discriminate.
  intros [= <-]. simpl. auto.
Qed.

Lemma index_messages_elem (conv : string) (message_list : list pyval) :
  forall (idx : nat) (entries : list index_entry) (e : index_entry),
    index_messages int_of_str conv idx message_list = Returned entries ->
    e ∈ entries ->
    conv_id e = conv /\ (idx <= msg_idx e)%nat /\
    message_list !! (msg_idx e - idx)%nat = Some (PyDict (message e)) /\
    truthy (dict_get "matched_media_files" (message e)) = false.
Proof.
  induction message_list as [|m rest IH]; intros idx entries e Hret; simpl in Hret.
  - injection Hret as <-. intros H. apply elem_of_nil in H. contradiction.
  - destruct (index_message int_of_str conv idx m) as [appended| |] eqn:E;
      simpl in Hret; try discriminate.
    destruct (index_messages int_of_str conv (S idx) rest) as [others| |] eqn:Er;
      simpl in Hret; try discriminate.
    injection Hret as <-.
    assert (Hrest : e ∈ others ->
      conv_id e = conv /\ (idx <= msg_idx e)%nat /\
      (m :: rest) !! (msg_idx e - idx)%nat = Some (PyDict (message e)) /\
      truthy (dict_get "matched_media_files" (message e)) = false).
    { intros H. apply (IH _ _ _ Er) in H as (Hc & Hle & Hl & Hm).
      repeat split; [assumption | lia | | assumption].
      replace (msg_idx e - idx)%nat with (S (msg_idx e - S idx)) by lia.
      exact Hl. }
    destruct appended as [e'|]; [|exact Hrest].
    rewrite elem_of_cons. intros [-> | H]; [|auto].
    apply index_message_unmatched in E as (Hc & Hi & Hm & Hu).
    repeat split; [assumption | lia | | assumption].
    rewrite Hi, Nat.sub_diag. simpl. congruence.
Qed.

Lemma index_conversations_elem (messages : pydict) :
  forall (entries : list index_entry) (e : index_entry),
    index_conversations int_of_str messages = Returned entries ->
    e ∈ entries ->
    refers_to messages e /\
    truthy (dict_get "matched_media_files" (message e)) = false.
Proof.
  induction messages as [|[conv v] rest IH]; intros entries e Hret; simpl in Hret.
  - injection Hret as <-. intros H. apply elem_of_nil in H. contradiction.
  - assert (Hrest : forall others, index_conversations int_of_str rest = Returned others ->
      e ∈ others ->
      refers_to ((conv, v) :: rest) e /\
      truthy (dict_get "matched_media_files" (message e)) = false).
    { intros others Ho H. apply (IH _ _ Ho) in H as ((ml & Hin & Hl) & Hm).
      split; [|assumption].
      exists ml. split; [apply elem_of_cons; right|]; assumption. }
    destruct v as [| | | | |message_list|]; try exact (Hrest _ Hret).
    destruct (index_messages int_of_str conv 0 message_list) as [mine| |] eqn:E;
      simpl in Hret; try discriminate.
    destruct (index_conversations int_of_str rest) as [others| |] eqn:Eo;
      simpl in Hret; try discriminate.
    injection Hret as <-.
    rewrite elem_of_app. intros [H | H]; [|exact (Hrest _ eq_refl H)].
    apply (index_messages_elem _ _ _ _ _ E) in H as (Hc & _ & Hl & Hm).
    split; [|assumption].
    exists message_list. rewrite Nat.sub_0_r in Hl. subst conv.
    split; [apply elem_of_cons; left; reflexivity | assumption].
Qed.

Lemma built_index_sorted (messages : pydict) (index : list index_entry) :
  build_millisecond_index int_of_str messages = Returned index ->
  index_sorted index.
Proof.
  unfold index_sorted, build_millisecond_index.
  destruct (index_conversations int_of_str messages) as [entries| |]; simpl;
    try discriminate.
  intros [= <-]. apply (sorted_adjacent timestamp_ms), sort_by_key_sorted.
Qed.

Lemma built_index_elem (messages : pydict) (index : list index_entry)
    (e : index_entry) :
  build_millisecond_index int_of_str messages = Returned index ->
  e ∈ index ->
  refers_to messages e /\
  truthy (dict_get "matched_media_files" (message e)) = false.
Proof.
  unfold build_millisecond_index.
  destruct (index_conversations int_of_str messages) as [entries| |] eqn:E; simpl;
    try discriminate.
  intros [= <-] He. apply sort_by_key_elem in He.
  exact (index_conversations_elem _ _ _ E He).
Qed.

(** The only exception that leaves the builder is the [OverflowError] of
    an infinite timestamp. *)
Lemma index_message_returns (conv : string) (idx : nat) (m : pyval) :
  infinite_timestamp m = false ->
  exists appended, index_message int_of_str conv idx m = Returned appended.
Proof.
  unfold infinite_timestamp, index_message.
  destruct m as [| | | | | |d]; eauto.
  destruct (truthy (dict_get "matched_media_files" d)); [eauto|].
  destruct (negb _); [eauto|].
  destruct (dict_get "Created(microseconds)" d) as [|b|z|x|str|l|d']; simpl; eauto.
  - destruct x as [sg|sg| |sg mant ex]; simpl; eauto. discriminate.
  - destruct (int_of_str str); eauto.
Qed.

Lemma index_messages_return (conv : string) (message_list : list pyval) :
  forall idx : nat,
    (forall m, m ∈ message_list -> infinite_timestamp m = false) ->
    exists entries, index_messages int_of_str conv idx message_list = Returned entries.
Proof.
  induction message_list as [|m rest IH]; intros idx Hfin; simpl; [eauto|].
  destruct (index_message_returns conv idx m) as [appended ->];
    [apply Hfin, elem_of_cons; auto|].
  destruct (IH (S idx)) as [entries ->];
    [intros m' Hm'; apply Hfin, elem_of_cons; auto|].
  simpl. eauto.
Qed.

Lemma built_index_returns (messages : pydict) :
  finite_timestamps messages ->
  exists index, build_millisecond_index int_of_str messages = Returned index.
Proof.
  intros Hfin. unfold build_millisecond_index.
  assert (H : exists entries, index_conversations int_of_str messages = Returned entries).
  { induction messages as [|[conv v] rest IH]; simpl; [eauto|].
    destruct IH as [others Ho].
    { intros c l m Hc Hm. apply (Hfin c l m); [apply elem_of_cons; auto | exact Hm]. }
    destruct v as [| | | | |message_list|]; eauto.
    destruct (index_messages_return conv message_list 0%nat) as [mine ->].
    { intros m Hm. apply (Hfin conv message_list m); [apply elem_of_cons; auto | exact Hm]. }
    rewrite Ho. simpl. eauto. }
  destruct H as [entries ->]. simpl. eauto.
Qed.

(** C6: a built index is sorted non-decreasing by timestamp, and no entry
    refers to a message whose [matched_media_files] marker is set.  The
    builder returns an index unless a message carries an infinite
    timestamp, the one value whose conversion is not caught. *)
Theorem built_index_sorted_unmatched (messages : pydict) :
  (forall index : list index_entry,
     build_millisecond_index int_of_str messages = Returned index ->
     index_sorted index /\
     (forall e : index_entry,
        e ∈ index ->
        refers_to messages e /\
        truthy (dict_get "matched_media_files" (message e)) = false)) /\
  (finite_timestamps messages ->
   exists index, build_millisecond_index int_of_str messages = Returned index).
Proof.
  split; [|apply built_index_returns].
  intros index Hbuilt. split; [exact (built_index_sorted _ _ Hbuilt)|].
  intros e He. exact (built_index_elem _ _ _ Hbuilt He).
Qed.

End IndexFacts.

Lemma finite_timestamps_check (messages : pydict) :
  finite_timestampsb messages = true -> finite_timestamps messages.
Proof.
  intros H conv l m Hin Hm. unfold finite_timestampsb in H.
  rewrite forallb_forall in H. apply list_elem_of_In in Hin.
  specialize (H _ Hin). simpl in H. rewrite forallb_forall in H.
  apply list_elem_of_In in Hm. specialize (H _ Hm).
  apply negb_true_iff in H. exact H.
Qed.

Lemma built_index_sorted_unmatched_witness :
  exists index : list index_entry,
    build_millisecond_index no_int_of_str mixed_messages = Returned index /\
    index_sorted index /\
    (forall e : index_entry,
       e ∈ index ->
       refers_to mixed_messages e /\
       truthy (dict_get "matched_media_files" (message e)) = false).
Proof.
  destruct (proj2 (built_index_sorted_unmatched no_int_of_str mixed_messages)
              (finite_timestamps_check mixed_messages eq_refl)) as [index Hbuilt].
  exists index. split; [exact Hbuilt|].
  exact (proj1 (built_index_sorted_unmatched no_int_of_str mixed_messages)
           index Hbuilt).
Defined.

(** What [int] makes of a [float] timestamp: 1500.75 is indexed at 1500,
    a NaN is skipped, an infinity ends the call. *)
Example float_timestamps :
  build_millisecond_index no_int_of_str
    [("conv", PyList [PyDict [("Created(microseconds)",
                               PyFloat (S754_finite false 6003 (-2)))];
                      PyDict [("Created(microseconds)", PyFloat S754_nan)]])]
  = Returned [IndexEntry 1500 "conv" 0
                [("Created(microseconds)", PyFloat (S754_finite false 6003 (-2)))]] /\
  build_millisecond_index no_int_of_str
    [("conv", PyList [PyDict [("Created(microseconds)",
                               PyFloat (S754_infinity false))]])]
  = Raised.
Proof. split; reflexivity. Qed.

(** ** The binary search *)

Lemma getitem_in_range {A : Type} (l : list A) (i : Z) :
  0 <= i < Z.of_nat (length l) ->
  exists x, getitem l i = Returned x /\ l !! Z.to_nat i = Some x.
Proof.
  intros Hi. unfold getitem.
  destruct (Z.ltb_spec i 0); [lia|].
  destruct (Z.leb_spec 0 i); [|lia].
  destruct (Z.ltb_spec i (Z.of_nat (length l))); [|lia]. simpl.
  destruct (lookup_lt_is_Some_2 l (Z.to_nat i)) as [x Hx]; [lia|].
  rewrite Hx. eauto.
Qed.

Lemma bisect_eq (index : list index_entry) (t lo hi : Z) :
  bisect index t lo hi =
  if Z_le_dec lo hi then
    e ← getitem index ((lo + hi) / 2);
    if timestamp_ms e <? t
    then bisect index t ((lo + hi) / 2 + 1) hi
    else bisect index t lo ((lo + hi) / 2 - 1)
  else Returned (lo, hi).
Proof.
  rewrite bisect_equation_1. destruct (Z_le_dec lo hi).
  - rewrite bisect_clause_1_equation_1. destruct (getitem index ((lo + hi) / 2)).
    + rewrite bisect_clause_1_clause_2_equation_1. reflexivity.
    + rewrite bisect_clause_1_clause_2_equation_2. reflexivity.
    + rewrite bisect_clause_1_clause_2_equation_3. reflexivity.
  - rewrite bisect_clause_1_equation_2. reflexivity.
Qed.

Lemma walk_left_eq (index : list index_entry) (t thr idx : Z) (acc : list candidate) :
  walk_left index t thr idx acc =
  if Z_le_dec 0 idx then
    e ← getitem index idx;
    if t - timestamp_ms e >? thr then Returned acc
    else walk_left index t thr (idx - 1)
           (acc ++ [Candidate (conv_id e) (msg_idx e) (message e) (t - timestamp_ms e)])
  else Returned acc.
Proof.
  rewrite walk_left_equation_1. destruct (Z_le_dec 0 idx).
  - rewrite walk_left_clause_1_equation_1. destruct (getitem index idx).
    + rewrite walk_left_clause_1_clause_2_equation_1. reflexivity.
    + rewrite walk_left_clause_1_clause_2_equation_2. reflexivity.
    + rewrite walk_left_clause_1_clause_2_equation_3. reflexivity.
  - rewrite walk_left_clause_1_equation_2. reflexivity.
Qed.

Lemma walk_right_eq (index : list index_entry) (t thr idx : Z) (acc : list candidate) :
  walk_right index t thr idx acc =
  if Z_lt_dec idx (Z.of_nat (length index)) then
    e ← getitem index idx;
    if timestamp_ms e - t >? thr then Returned acc
    else walk_right index t thr (idx + 1)
           (acc ++ [Candidate (conv_id e) (msg_idx e) (message e) (- (timestamp_ms e - t))])
  else Returned acc.
Proof.
  rewrite walk_right_equation_1. destruct (Z_lt_dec idx (Z.of_nat (length index))).
  - rewrite walk_right_clause_1_equation_1. destruct (getitem index idx).
    + rewrite walk_right_clause_1_clause_2_equation_1. reflexivity.
    + rewrite walk_right_clause_1_clause_2_equation_2. reflexivity.
    + rewrite walk_right_clause_1_clause_2_equation_3. reflexivity.
  - rewrite walk_right_clause_1_equation_2. reflexivity.
Qed.

Lemma index_sorted_le (index : list index_entry) :
  index_sorted index ->
  forall (i j : nat) (e1 e2 : index_entry),
    (i <= j)%nat -> index !! i = Some e1 -> index !! j = Some e2 ->
    timestamp_ms e1 <= timestamp_ms e2.
Proof.
  intros Hs i j. induction j as [|j IH]; intros e1 e2 Hij H1 H2.
  - assert (i = 0%nat) by lia. subst i. rewrite H1 in H2. injection H2 as <-. lia.
  - destruct (decide (i = S j)) as [->|Hne].
    + rewrite H1 in H2. injection H2 as <-. lia.
    + destruct (lookup_lt_is_Some_2 index j) as [e Hj].
      { apply lookup_lt_Some in H2. lia. }
      transitivity (timestamp_ms e); [apply IH; [lia | assumption..]|].
      eapply Hs; eassumption.
Qed.

Section Search.

Variable index : list index_entry.
Variables t thr : Z.

Local Abbreviation n := (Z.of_nat (length index)).

(** The loop exits with [right = left - 1]; the entry just below the final
    [left], if the loop ever moved [left], is earlier than the query, and
    the entry at the final [left], if the loop ever moved [right], is not. *)
Lemma bisect_spec (k : nat) :
  forall lo hi : Z,
    Z.to_nat (hi - lo + 1) = k -> 0 <= lo -> hi < n -> lo <= hi + 1 ->
    exists lo' : Z,
      bisect index t lo hi = Returned (lo', lo' - 1) /\ lo <= lo' <= hi + 1 /\
      (lo' = lo \/
       exists e, index !! Z.to_nat (lo' - 1) = Some e /\ timestamp_ms e < t) /\
      (lo' = hi + 1 \/
       exists e, index !! Z.to_nat lo' = Some e /\ t <= timestamp_ms e).
Proof.
  induction k as [k IH] using lt_wf_ind. intros lo hi Hk Hlo Hhi Hle.
  rewrite bisect_eq. destruct (Z_le_dec lo hi) as [Hlh|Hlh].
  - assert (Hmid : lo <= (lo + hi) / 2 <= hi)
      by (split; [apply Z.div_le_lower_bound | apply Z.div_le_upper_bound]; lia).
    destruct (getitem_in_range index ((lo + hi) / 2)) as (e & -> & He); [lia|].
    simpl. destruct (Z.ltb_spec (timestamp_ms e) t) as [Hlt|Hge].
    + destruct (IH (Z.to_nat (hi - ((lo + hi) / 2 + 1) + 1)) ltac:(lia)
                  ((lo + hi) / 2 + 1) hi eq_refl ltac:(lia) Hhi ltac:(lia))
        as (lo' & -> & Hb & Hl & Hr).
      exists lo'. split; [reflexivity|]. split; [lia|]. split; [|exact Hr].
      right. destruct Hl as [->|Hl]; [|exact Hl].
      exists e. replace ((lo + hi) / 2 + 1 - 1) with ((lo + hi) / 2) by lia. auto.
    + destruct (IH (Z.to_nat ((lo + hi) / 2 - 1 - lo + 1)) ltac:(lia)
                  lo ((lo + hi) / 2 - 1) eq_refl Hlo ltac:(lia) ltac:(lia))
        as (lo' & -> & Hb & Hl & Hr).
      exists lo'. split; [reflexivity|]. split; [lia|]. split; [exact Hl|].
      right. destruct Hr as [->|Hr]; [|exact Hr].
      exists e. replace ((lo + hi) / 2 - 1 + 1) with ((lo + hi) / 2) by lia. auto.
  - exists lo. replace hi with (lo - 1) by lia.
    split; [reflexivity|]. split; [lia|]. split; left; lia.
Qed.

Hypothesis index_is_sorted : index_sorted index.

(** The left walk collects exactly the entries at or below [idx] whose
    difference [t - timestamp_ms] is at most the threshold. *)
Lemma walk_left_spec (k : nat) :
  forall (idx : Z) (acc : list candidate),
    Z.to_nat (idx + 1) = k -> -1 <= idx < n ->
    exists cs : list candidate,
      walk_left index t thr idx acc = Returned (acc ++ cs) /\
      forall c, c ∈ cs <->
        exists (i : nat) (e : index_entry),
          Z.of_nat i <= idx /\ index !! i = Some e /\
          t - timestamp_ms e <= thr /\ c = candidate_of t e.
Proof.
  induction k as [|k IH]; intros idx acc Hk Hidx; rewrite walk_left_eq;
    destruct (Z_le_dec 0 idx) as [H0|H0]; try lia.
  - exists []. rewrite app_nil_r. split; [reflexivity|]. intros c. split.
    + intros H. apply elem_of_nil in H. contradiction.
    + intros (i & e & Hi & _). lia.
  - destruct (getitem_in_range index idx) as (e & -> & He); [lia|]. simpl.
    destruct (Z.gtb_spec (t - timestamp_ms e) thr) as [Hgt|Hle].
    + exists []. rewrite app_nil_r. split; [reflexivity|]. intros c. split.
      * intros H. apply elem_of_nil in H. contradiction.
      * intros (i & e' & Hi & He' & Hd & _).
        pose proof (index_sorted_le index index_is_sorted i (Z.to_nat idx) e' e
                      ltac:(lia) He' He). lia.
    + destruct (IH (idx - 1)
                  (acc ++ [Candidate (conv_id e) (msg_idx e) (message e) (t - timestamp_ms e)])
                  ltac:(lia) ltac:(lia)) as (cs & -> & Hcs).
      exists (candidate_of t e :: cs). split.
      { rewrite <- app_assoc. reflexivity. }
      intros c. rewrite elem_of_cons, Hcs. split.
      * intros [-> | (i & e' & Hi & He' & Hd & ->)].
        -- exists (Z.to_nat idx), e. repeat split; [lia | assumption..].
        -- exists i, e'. repeat split; [lia | assumption..].
      * intros (i & e' & Hi & He' & Hd & ->).
        destruct (decide (Z.of_nat i = idx)) as [Heq|Hne].
        -- left. replace i with (Z.to_nat idx) in He' by lia. congruence.
        -- right. exists i, e'. repeat split; [lia | assumption..].
Qed.

(** The right walk collects exactly the entries at or above [idx] whose
    difference [timestamp_ms - t] is at most the threshold. *)
Lemma walk_right_spec (k : nat) :
  forall (idx : Z) (acc : list candidate),
    Z.to_nat (n - idx) = k -> 0 <= idx <= n ->
    exists cs : list candidate,
      walk_right index t thr idx acc = Returned (acc ++ cs) /\
      forall c, c ∈ cs <->
        exists (i : nat) (e : index_entry),
          idx <= Z.of_nat i /\ index !! i = Some e /\
          timestamp_ms e - t <= thr /\ c = candidate_of t e.
Proof.
  induction k as [|k IH]; intros idx acc Hk Hidx; rewrite walk_right_eq;
    destruct (Z_lt_dec idx n) as [H0|H0]; try lia.
  - exists []. rewrite app_nil_r. split; [reflexivity|]. intros c. split.
    + intros H. apply elem_of_nil in H. contradiction.
    + intros (i & e & Hi & He & _). apply lookup_lt_Some in He. lia.
  - destruct (getitem_in_range index idx) as (e & -> & He); [lia|]. simpl.
    destruct (Z.gtb_spec (timestamp_ms e - t) thr) as [Hgt|Hle].
    + exists []. rewrite app_nil_r. split; [reflexivity|]. intros c. split.
      * intros H. apply elem_of_nil in H. contradiction.
      * intros (i & e' & Hi & He' & Hd & _).
        pose proof (index_sorted_le index index_is_sorted (Z.to_nat idx) i e e'
                      ltac:(lia) He He'). lia.
    + destruct (IH (idx + 1)
                  (acc ++ [Candidate (conv_id e) (msg_idx e) (message e) (- (timestamp_ms e - t))])
                  ltac:(lia) ltac:(lia)) as (cs & -> & Hcs).
      assert (Hc : Candidate (conv_id e) (msg_idx e) (message e) (- (timestamp_ms e - t))
                   = candidate_of t e) by (unfold candidate_of; f_equal; lia).
      rewrite Hc. exists (candidate_of t e :: cs). split.
      { rewrite <- app_assoc. reflexivity. }
      intros c. rewrite elem_of_cons, Hcs. split.
      * intros [-> | (i & e' & Hi & He' & Hd & ->)].
        -- exists (Z.to_nat idx), e. repeat split; [lia | assumption..].
        -- exists i, e'. repeat split; [lia | assumption..].
      * intros (i & e' & Hi & He' & Hd & ->).
        destruct (decide (Z.of_nat i = idx)) as [Heq|Hne].
        -- left. replace i with (Z.to_nat idx) in He' by lia. congruence.
        -- right. exists i, e'. repeat split; [lia | assumption..].
Qed.

End Search.

(** The candidates of a query are exactly the entries within the threshold
    (inclusive), and the result is the [min] over them. *)
Lemma find_closest_candidates (index : list index_entry) (t thr : Z) :
  index_sorted index ->
  exists cs : list candidate,
    find_closest_message_binary t index thr
    = Returned match cs with
               | [] => None
               | c :: cs' => Some (py_min (fun x => Z.abs (diff_ms x)) c cs')
               end /\
    forall c, c ∈ cs <->
      exists e, e ∈ index /\ Z.abs (t - timestamp_ms e) <= thr /\ c = candidate_of t e.
Proof.
  intros index_is_sorted. unfold find_closest_message_binary.
  destruct index as [|e0 rest] eqn:Hindex.
  { exists []. split; [reflexivity|]. intros c. split.
    - intros H. apply elem_of_nil in H. contradiction.
    - intros (e & He & _). apply elem_of_nil in He. contradiction. }
  rewrite <- Hindex in *.
  assert (Hn : 0 < Z.of_nat (length index)) by (rewrite Hindex; simpl; lia).
  set (n := Z.of_nat (length index)) in *.
  destruct (bisect_spec index t (Z.to_nat (n - 1 - 0 + 1)) 0 (n - 1) eq_refl
              ltac:(lia) ltac:(lia) ltac:(lia))
    as (lo & -> & Hb & Hl & Hr).
  simpl.
  destruct (walk_left_spec index t thr index_is_sorted
              (Z.to_nat (lo - 1 + 1)) (lo - 1) [] eq_refl ltac:(lia))
    as (cs1 & -> & Hcs1).
  simpl.
  destruct (walk_right_spec index t thr index_is_sorted
              (Z.to_nat (n - lo)) lo cs1 eq_refl ltac:(lia))
    as (cs2 & -> & Hcs2).
  simpl. exists (cs1 ++ cs2). split; [reflexivity|].
  intros c. rewrite elem_of_app, Hcs1, Hcs2. split.
  - intros [(i & e & Hi & He & Hd & ->) | (i & e & Hi & He & Hd & ->)];
      exists e; (split; [eapply list_elem_of_lookup_2; eassumption|]);
      (split; [|reflexivity]).
    + destruct Hl as [->|(e1 & He1 & Hlt)]; [lia|].
      pose proof (index_sorted_le index index_is_sorted i (Z.to_nat (lo - 1)) e e1
                    ltac:(lia) He He1). lia.
    + pose proof (lookup_lt_Some _ _ _ He) as Hlen.
      destruct Hr as [->|(e1 & He1 & Hge)]; [lia|].
      pose proof (index_sorted_le index index_is_sorted (Z.to_nat lo) i e1 e
                    ltac:(lia) He1 He). lia.
  - intros (e & He & Hd & ->). apply list_elem_of_lookup_1 in He as [i He].
    destruct (Z_le_dec (Z.of_nat i) (lo - 1)) as [Hi|Hi].
    + left. exists i, e. repeat split; [assumption | assumption | lia].
    + right. exists i, e. repeat split; [lia | assumption | lia].
Qed.


Lemma py_min_spec {A : Type} (key : A -> Z) (l : list A) :
  forall x : A,
    py_min key x l ∈ x :: l /\
    forall y, y ∈ x :: l -> key (py_min key x l) <= key y.
Proof.
  induction l as [|z l IH]; intros x; simpl.
  - split; [apply elem_of_cons; auto|].
    intros y Hy. apply list_elem_of_singleton in Hy. subst. lia.
  - destruct (IH (if key z <? key x then z else x)) as [Hin Hmin]. split.
    + apply elem_of_cons in Hin as [Hin|Hin]; [|rewrite !elem_of_cons; auto].
      rewrite Hin. destruct (key z <? key x); rewrite !elem_of_cons; auto.
    + intros y Hy.
      assert (Hm : key (py_min key (if key z <? key x then z else x) l)
                   <= key (if key z <? key x then z else x))
        by (apply Hmin, elem_of_cons; auto).
      rewrite !elem_of_cons in Hy. destruct Hy as [->|[->|Hy]].
      * destruct (Z.ltb_spec (key z) (key x)); lia.
      * destruct (Z.ltb_spec (key z) (key x)); lia.
      * apply Hmin, elem_of_cons. auto.
Qed.

Lemma index_sortedb_sound (l : list index_entry) :
  index_sortedb l = true -> index_sorted l.
Proof.
  induction l as [|e1 [|e2 rest] IH]; intros H i a b Ha Hb.
  - discriminate.
  - destruct i; discriminate.
  - simpl in H. apply andb_prop in H as [Hle Hrest]. apply Z.leb_le in Hle.
    destruct i as [|i]; simpl in Ha, Hb.
    + injection Ha as <-. injection Hb as <-. exact Hle.
    + exact (IH Hrest i a b Ha Hb).
Qed.

(** ** [find_closest_message_binary] *)

(** The result of a query on a sorted index: nothing when no entry is
    within the threshold, otherwise an entry within the threshold that is
    closest to the query over the whole index. *)
Lemma find_closest_result (index : list index_entry) (t thr : Z) :
  index_sorted index ->
  (find_closest_message_binary t index thr = Returned None /\
   forall e, e ∈ index -> thr < Z.abs (t - timestamp_ms e)) \/
  (exists e,
     e ∈ index /\ Z.abs (t - timestamp_ms e) <= thr /\
     find_closest_message_binary t index thr = Returned (Some (candidate_of t e)) /\
     forall e', e' ∈ index -> Z.abs (t - timestamp_ms e) <= Z.abs (t - timestamp_ms e')).
Proof.
  intros Hs. destruct (find_closest_candidates index t thr Hs) as (cs & -> & Hcs).
  destruct cs as [|c cs].
  - left. split; [reflexivity|]. intros e He.
    destruct (Z_lt_dec thr (Z.abs (t - timestamp_ms e))) as [|Hn]; [assumption|].
    exfalso. apply (elem_of_nil (candidate_of t e)). apply Hcs.
    exists e. repeat split; [assumption | lia].
  - right.
    destruct (py_min_spec (fun x => Z.abs (diff_ms x)) cs c) as [Hin Hmin].
    apply Hcs in Hin as (e & He & Hd & Hc). exists e.
    split; [assumption|]. split; [assumption|]. split; [rewrite Hc; reflexivity|].
    intros e' He'. rewrite Hc in Hmin.
    destruct (Z_le_dec (Z.abs (t - timestamp_ms e')) thr) as [Hin'|Hout]; [|lia].
    apply (Hmin (candidate_of t e')). apply Hcs. exists e'. auto.
Qed.

(** C1: on a sorted index with at least one entry within the threshold the
    search returns an entry whose absolute difference to the query is
    minimal over the whole index; when an entry has exactly the query's
    timestamp and the threshold is positive, the returned match is such
    an entry and its difference is 0. *)
Theorem closest_match_minimal (index : list index_entry) (t thr : Z) :
  index_sorted index ->
  ((exists e, e ∈ index /\ Z.abs (t - timestamp_ms e) <= thr) ->
   exists e,
     e ∈ index /\
     find_closest_message_binary t index thr = Returned (Some (candidate_of t e)) /\
     forall e', e' ∈ index -> Z.abs (t - timestamp_ms e) <= Z.abs (t - timestamp_ms e')) /\
  (0 < thr -> (exists e, e ∈ index /\ timestamp_ms e = t) ->
   exists e,
     e ∈ index /\ timestamp_ms e = t /\
     find_closest_message_binary t index thr = Returned (Some (candidate_of t e)) /\
     diff_ms (candidate_of t e) = 0).
Proof.
  intros Hs. split.
  - intros (e0 & He0 & Hd0).
    destruct (find_closest_result index t thr Hs)
      as [[_ Hfar] | (e & He & _ & Hres & Hmin)].
    + specialize (Hfar e0 He0). lia.
    + exists e. auto.
  - intros Hthr (e0 & He0 & Ht0).
    destruct (find_closest_result index t thr Hs)
      as [[_ Hfar] | (e & He & _ & Hres & Hmin)].
    + specialize (Hfar e0 He0). lia.
    + specialize (Hmin e0 He0). exists e. simpl.
      repeat split; [assumption | lia | assumption | lia].
Qed.

Lemma closest_match_minimal_witness :
  (exists e,
     e ∈ sample_index [100; 101; 104; 107; 120] /\
     find_closest_message_binary 105 (sample_index [100; 101; 104; 107; 120]) 3
     = Returned (Some (candidate_of 105 e)) /\
     forall e', e' ∈ sample_index [100; 101; 104; 107; 120] ->
                Z.abs (105 - timestamp_ms e) <= Z.abs (105 - timestamp_ms e')) /\
  (exists e,
     e ∈ sample_index [100; 101; 104; 107; 120] /\ timestamp_ms e = 104 /\
     find_closest_message_binary 104 (sample_index [100; 101; 104; 107; 120]) 3
     = Returned (Some (candidate_of 104 e)) /\
     diff_ms (candidate_of 104 e) = 0).
Proof.
  assert (Hs : index_sorted (sample_index [100; 101; 104; 107; 120]))
    by (apply index_sortedb_sound; reflexivity).
  split.
  - apply (closest_match_minimal _ 105 3 Hs).
    exists (IndexEntry 104 "conv" 2 [("Created(microseconds)", PyInt 104)]).
    split; [|simpl; lia]. apply (list_elem_of_lookup_2 _ 2%nat). reflexivity.
  - apply (closest_match_minimal _ 104 3 Hs); [lia|].
    exists (IndexEntry 104 "conv" 2 [("Created(microseconds)", PyInt 104)]).
    split; [|reflexivity]. apply (list_elem_of_lookup_2 _ 2%nat). reflexivity.
Defined.

(** C5: on a sorted index (the empty one included), a query that is more
    than the threshold away from every entry has no match. *)
Theorem no_match_beyond_threshold (index : list index_entry) (t thr : Z) :
  index_sorted index ->
  (forall e, e ∈ index -> thr < Z.abs (t - timestamp_ms e)) ->
  find_closest_message_binary t index thr = Returned None.
Proof.
  intros Hs Hfar.
  destruct (find_closest_result index t thr Hs)
    as [[Hres _] | (e & He & Hd & _)]; [assumption|].
  specialize (Hfar e He). lia.
Qed.

Lemma no_match_beyond_threshold_witness :
  find_closest_message_binary 110 (sample_index [100; 101; 104; 107; 120]) 2
  = Returned None /\
  find_closest_message_binary 110 (sample_index []) 2 = Returned None.
Proof.
  split.
  - apply no_match_beyond_threshold; [apply index_sortedb_sound; reflexivity|].
    intros e He. unfold sample_index in He. simpl in He.
    repeat (apply elem_of_cons in He as [->|He]; [simpl; lia|]).
    apply elem_of_nil in He. contradiction.
  - apply no_match_beyond_threshold; [apply index_sortedb_sound; reflexivity|].
    intros e He. apply elem_of_nil in He. contradiction.
Defined.

(** C9: the threshold test is inclusive.  An entry whose absolute
    difference is exactly the threshold makes the search return a match;
    when no entry is closer, the returned match is at exactly that
    distance. *)
Theorem threshold_inclusive (index : list index_entry) (t thr : Z) (e : index_entry) :
  index_sorted index -> e ∈ index -> Z.abs (t - timestamp_ms e) = thr ->
  exists e1,
    e1 ∈ index /\
    find_closest_message_binary t index thr = Returned (Some (candidate_of t e1)) /\
    Z.abs (diff_ms (candidate_of t e1)) <= thr /\
    ((forall e', e' ∈ index -> thr <= Z.abs (t - timestamp_ms e')) ->
     Z.abs (diff_ms (candidate_of t e1)) = thr).
Proof.
  intros Hs He Hd.
  destruct (find_closest_result index t thr Hs)
    as [[_ Hfar] | (e1 & He1 & Hd1 & Hres & Hmin)].
  - specialize (Hfar e He). lia.
  - exists e1. simpl. repeat split; [assumption.. |].
    intros Hclosest. specialize (Hclosest e1 He1). lia.
Qed.

Lemma threshold_inclusive_witness :
  exists e1,
    e1 ∈ sample_index [100; 101; 120] /\
    find_closest_message_binary 104 (sample_index [100; 101; 120]) 3
    = Returned (Some (candidate_of 104 e1)) /\
    Z.abs (diff_ms (candidate_of 104 e1)) <= 3 /\
    ((forall e', e' ∈ sample_index [100; 101; 120] ->
                 3 <= Z.abs (104 - timestamp_ms e')) ->
     Z.abs (diff_ms (candidate_of 104 e1)) = 3).
Proof.
  apply (threshold_inclusive _ 104 3
           (IndexEntry 101 "conv" 1 [("Created(microseconds)", PyInt 101)])).
  - apply index_sortedb_sound; reflexivity.
  - apply (list_elem_of_lookup_2 _ 1%nat). reflexivity.
  - reflexivity.
Defined.

Example inclusive_left :
  find_closest_message_binary 104 (sample_index [100; 101; 120]) 3
  = Returned (Some (Candidate "conv" 1 [("Created(microseconds)", PyInt 101)] 3)).
Proof. reflexivity. Qed.

Example inclusive_right :
  find_closest_message_binary 117 (sample_index [100; 101; 120]) 3
  = Returned (Some (Candidate "conv" 2 [("Created(microseconds)", PyInt 120)] (-3))).
Proof. reflexivity. Qed.

Example exclusive_beyond :
  find_closest_message_binary 116 (sample_index [100; 101; 120]) 3 = Returned None.
Proof. reflexivity. Qed.

(** ** The MP4 creation time *)

Lemma unix_ms_zero (creation_time : Z) :
  Mp4.unix_ms creation_time = Some 0 <-> creation_time = Mp4.QUICKTIME_EPOCH_ADJUSTER.
Proof.
  unfold Mp4.unix_ms, Mp4.QUICKTIME_EPOCH_ADJUSTER.
  destruct (Z.gtb_spec creation_time 0) as [Hpos|Hneg]; split; intros Heq;
    try discriminate; try lia.
  - injection Heq as Heq. lia.
  - subst. reflexivity.
Qed.

(** The binary parser yields 0 ms exactly when the creation-time field
    holds the epoch adjuster. *)
Lemma binary_zero_iff_adjuster (fuel : nat) (data : list byte) :
  Mp4.parse_mp4_timestamp_binary fuel data = Returned (Some 0) <->
  Mp4.creation_time fuel data = Returned (Some Mp4.QUICKTIME_EPOCH_ADJUSTER).
Proof.
  unfold Mp4.parse_mp4_timestamp_binary.
  destruct (Mp4.creation_time fuel data) as [[ct|]| |]; simpl;
    split; intros H; try discriminate.
  - injection H as H'. apply unix_ms_zero in H'. congruence.
  - injection H as H'. apply unix_ms_zero in H'. congruence.
Qed.

(** Why the atom loop is run with fuel: an atom of size 1 whose extended
    size is 0 seeks back to its own start, and the loop never exits. *)
Lemma zero_extended_size_loops (fuel : nat) :
  Mp4.find_moov fuel (be_bytes 4 1 ++ Mp4.lit "wide" ++ be_bytes 8 0) 0 = OutOfFuel.
Proof.
  induction fuel as [|fuel IH]; [reflexivity|].
  change (Mp4.find_moov (S fuel) (be_bytes 4 1 ++ Mp4.lit "wide" ++ be_bytes 8 0) 0)
    with (Mp4.find_moov fuel (be_bytes 4 1 ++ Mp4.lit "wide" ++ be_bytes 8 0) 0).
  exact IH.
Qed.

(** ** The batch matcher *)

Section MatcherFacts.

Variable int_of_str : string -> option Z.
Variable parse_mp4_timestamp_ffprobe : mp4_file -> option Z.
Variable as_completed : list mp4_file -> list mp4_file.

(** [as_completed] yields every submitted future exactly once. *)
Hypothesis as_completed_perm : forall l, as_completed l ≡ₚ l.

Variable fuel : nat.
Variable index : list index_entry.
Variable threshold_ms : Z.
Hypothesis index_is_sorted : index_sorted index.

Local Abbreviation extract :=
  (fun f => Mp4.extract_mp4_timestamp parse_mp4_timestamp_ffprobe fuel f true).
Local Abbreviation worker :=
  (process_mp4 parse_mp4_timestamp_ffprobe fuel index threshold_ms).
Local Abbreviation seq_loop :=
  (sequential_loop parse_mp4_timestamp_ffprobe fuel index threshold_ms).
Local Abbreviation par_loop :=
  (parallel_loop parse_mp4_timestamp_ffprobe fuel index threshold_ms).

Lemma worker_skips (f : mp4_file) (ts : option Z) :
  extract f = Returned ts -> no_timestamp ts = true -> worker f = Returned None.
Proof.
  intros He Hn. unfold process_mp4. rewrite He. simpl. rewrite Hn. reflexivity.
Qed.

(** A worker whose extraction returns also returns: nothing, or the
    closest entry within the threshold. *)
Lemma worker_result (f : mp4_file) (r : option Z) :
  extract f = Returned r ->
  worker f = Returned None \/
  exists v, worker f = Returned (Some (file_name f, v)) /\
            assigned_by parse_mp4_timestamp_ffprobe fuel index threshold_ms
              f (file_name f) v.
Proof.
  intros He. destruct (no_timestamp r) eqn:Hn.
  - left. eapply worker_skips; eassumption.
  - unfold process_mp4. rewrite He. simpl. rewrite Hn.
    destruct r as [ts|]; [|discriminate]. simpl in *.
    destruct (find_closest_result index ts threshold_ms index_is_sorted)
      as [[-> _] | (e & Hin & Hd & -> & _)]; simpl; [left; reflexivity|].
    right. eexists. split; [reflexivity|].
    exists ts, e. repeat split; try assumption.
    intros ->. discriminate.
Qed.

Lemma worker_returned (f : mp4_file) (x : option (string * match_data)) :
  worker f = Returned x -> exists r, extract f = Returned r.
Proof.
  unfold process_mp4.
  destruct (Mp4.extract_mp4_timestamp _ fuel f true) as [r| |]; simpl;
    [eauto | discriminate..].
Qed.

(** The merge loop returns when every extraction does. *)
Lemma par_loop_returns (l : list mp4_file) :
  forall m0 : gmap string match_data,
    (forall f, f ∈ l -> exists r, extract f = Returned r) ->
    exists m, par_loop l m0 = Returned m.
Proof.
  induction l as [|f l IH]; intros m0 Hret; simpl; [eauto|].
  destruct (Hret f) as [r Hr]; [apply elem_of_cons; auto|].
  assert (Hret' : forall g, g ∈ l -> exists r, extract g = Returned r)
    by (intros g Hg; apply Hret, elem_of_cons; auto).
  destruct (worker_result f r Hr) as [-> | (v & -> & _)]; simpl; apply IH, Hret'.
Qed.

(** Every binding of the merged result was there before or was assigned
    on behalf of a file of the list. *)
Lemma par_loop_bindings (l : list mp4_file) :
  forall m0 m : gmap string match_data,
    par_loop l m0 = Returned m ->
    forall k v, m !! k = Some v ->
      m0 !! k = Some v \/
      exists f, f ∈ l /\
        assigned_by parse_mp4_timestamp_ffprobe fuel index threshold_ms f k v.
Proof.
  induction l as [|f l IH]; intros m0 m Hloop k w Hk; simpl in Hloop.
  - injection Hloop as <-. auto.
  - destruct (worker f) as [x| |] eqn:Hw; simpl in Hloop; try discriminate.
    destruct (worker_returned f x Hw) as [r Hr].
    destruct (worker_result f r Hr) as [Hnone | (v & Hsome & Hv)];
      rewrite Hw in *.
    + injection Hnone as ->.
      destruct (IH m0 m Hloop k w Hk) as [|(g & Hg & Ha)]; [auto|].
      right. exists g. split; [apply elem_of_cons; auto | assumption].
    + injection Hsome as ->.
      destruct (IH _ m Hloop k w Hk) as [Hins|(g & Hg & Ha)].
      * destruct (decide (file_name f = k)) as [<-|Hne].
        -- rewrite lookup_insert_eq in Hins. injection Hins as <-.
           right. exists f. split; [apply elem_of_cons; auto | assumption].
        -- rewrite lookup_insert_ne in Hins by assumption. auto.
      * right. exists g. split; [apply elem_of_cons; auto | assumption].
Qed.

(** A file without a usable timestamp leaves the merge loop unchanged. *)
Lemma par_loop_skip (pre post : list mp4_file) (f : mp4_file) (ts : option Z) :
  extract f = Returned ts -> no_timestamp ts = true ->
  forall m, par_loop (pre ++ f :: post) m = par_loop (pre ++ post) m.
Proof.
  intros He Hn. induction pre as [|g pre IH]; intros m; simpl.
  - rewrite (worker_skips f ts He Hn). reflexivity.
  - destruct (worker g) as [[[k v]|]| |]; simpl; auto.
Qed.

Lemma seq_loop_skip (pre post : list mp4_file) (f : mp4_file) (ts : option Z) :
  extract f = Returned ts -> no_timestamp ts = true ->
  forall m, seq_loop (pre ++ f :: post) m = seq_loop (pre ++ post) m.
Proof.
  intros He Hn. induction pre as [|g pre IH]; intros m; simpl.
  - rewrite He. simpl. rewrite Hn. reflexivity.
  - destruct (Mp4.extract_mp4_timestamp _ fuel g true) as [r| |]; simpl;
      try reflexivity.
    destruct (no_timestamp r); [apply IH|].
    destruct (find_closest_message_binary _ index threshold_ms) as [[c|]| |];
      simpl; auto.
    destruct (seconds_for_log (diff_ms c)); simpl; auto.
Qed.

(** The body of the sequential loop is the worker of the parallel branch
    followed by the merge and the debug line: where the sequential loop
    returns, the merge loop returns the same mapping. *)
Lemma sequential_refines_parallel (l : list mp4_file) :
  forall m r, seq_loop l m = Returned r -> par_loop l m = Returned r.
Proof.
  induction l as [|f l IH]; intros m r; simpl; [auto|].
  unfold process_mp4.
  destruct (Mp4.extract_mp4_timestamp _ fuel f true) as [ts| |]; simpl;
    try discriminate.
  destruct (no_timestamp ts); simpl; [apply IH|].
  destruct (find_closest_message_binary _ index threshold_ms) as [[c|]| |];
    simpl; try discriminate; [|apply IH].
  destruct (seconds_for_log (diff_ms c)); simpl; try discriminate. apply IH.
Qed.

(** The debug line formats a difference within the threshold. *)
Lemma seconds_for_log_returns (d : Z) :
  Z.abs d <= threshold_ms -> threshold_ms < 1000 * float_limit ->
  seconds_for_log d = Returned tt.
Proof.
  intros Hd Hthr. unfold seconds_for_log.
  destruct (Z.leb_spec (1000 * float_limit) (Z.abs d)); [lia | reflexivity].
Qed.

(** Below the float limit the two loops are the same function. *)
Lemma sequential_is_parallel (l : list mp4_file) :
  threshold_ms < 1000 * float_limit ->
  forall m, seq_loop l m = par_loop l m.
Proof.
  intros Hthr. induction l as [|f l IH]; intros m; simpl; [reflexivity|].
  unfold process_mp4.
  destruct (Mp4.extract_mp4_timestamp _ fuel f true) as [ts| |]; simpl; try reflexivity.
  destruct (no_timestamp ts) eqn:Hn; simpl; [apply IH|].
  destruct ts as [ts|]; [|discriminate]. simpl.
  destruct (find_closest_result index ts threshold_ms index_is_sorted)
    as [[-> _] | (e & Hin & Hd & -> & _)]; simpl; [apply IH|].
  rewrite seconds_for_log_returns by assumption. simpl. apply IH.
Qed.

End MatcherFacts.

Section Batch.

Variable int_of_str : string -> option Z.
Variable parse_mp4_timestamp_ffprobe : mp4_file -> option Z.
Variable as_completed : list mp4_file -> list mp4_file.

Local Abbreviation batch :=
  (match_mp4_timestamps int_of_str parse_mp4_timestamp_ffprobe as_completed).

(** The bindings of a returned batch, whichever branch ran. *)
Lemma batch_bindings (fuel : nat) (files : list mp4_file) (messages : pydict)
    (threshold_seconds : Z) (use_parallel : bool) (max_workers : Z)
    (matches : gmap string match_data) :
  (forall l, as_completed l ≡ₚ l) ->
  batch fuel files messages threshold_seconds use_parallel max_workers
  = Returned matches ->
  exists index,
    build_millisecond_index int_of_str messages = Returned index /\
    forall k v, matches !! k = Some v ->
      exists f, f ∈ files /\
        assigned_by parse_mp4_timestamp_ffprobe fuel index
          (threshold_seconds * 1000) f k v.
Proof.
  intros Hperm Hbatch. unfold match_mp4_timestamps in Hbatch.
  destruct (build_millisecond_index int_of_str messages) as [index| |] eqn:Hindex;
    simpl in Hbatch; try discriminate.
  pose proof (built_index_sorted int_of_str messages index Hindex) as Hs.
  exists index. split; [reflexivity|]. intros k v Hk.
  destruct index as [|e0 rest].
  { injection Hbatch as <-. rewrite lookup_empty in Hk. discriminate. }
  destruct (use_parallel && (10 <? length files)%nat).
  - destruct (thread_pool max_workers); simpl in Hbatch; try discriminate.
    destruct (par_loop_bindings _ _ _ _ Hs _ _ _ Hbatch k v Hk)
      as [He|(f & Hf & Ha)]; [rewrite lookup_empty in He; discriminate|].
    exists f. split; [|assumption]. rewrite <- (Hperm files). exact Hf.
  - apply sequential_refines_parallel in Hbatch.
    destruct (par_loop_bindings _ _ _ _ Hs _ _ _ Hbatch k v Hk)
      as [He|(f & Hf & Ha)]; [rewrite lookup_empty in He; discriminate|].
    exists f. auto.
Qed.

(** When the batch returns: the index is built, the thread pool is
    created, every extraction returns and the debug line can format every
    difference. *)
Lemma batch_returns_mapping (fuel : nat) (files : list mp4_file) (messages : pydict)
    (threshold_seconds : Z) (use_parallel : bool) (max_workers : Z) :
  (forall l, as_completed l ≡ₚ l) ->
  finite_timestamps messages -> 0 < max_workers ->
  threshold_seconds < float_limit ->
  (forall f, f ∈ files ->
     exists r, Mp4.extract_mp4_timestamp parse_mp4_timestamp_ffprobe fuel f true
               = Returned r) ->
  exists matches,
    batch fuel files messages threshold_seconds use_parallel max_workers
    = Returned matches.
Proof.
  intros Hperm Hfin Hworkers Hthr Hret. unfold match_mp4_timestamps.
  destruct (built_index_returns int_of_str messages Hfin) as [index Hindex].
  pose proof (built_index_sorted int_of_str messages index Hindex) as Hs.
  rewrite Hindex. simpl. destruct index as [|e0 rest]; [eauto|].
  destruct (use_parallel && (10 <? length files)%nat).
  - unfold thread_pool. destruct (Z.leb_spec max_workers 0); [lia|]. simpl.
    apply par_loop_returns; [assumption|].
    intros f Hf. apply Hret. rewrite <- (Hperm files). exact Hf.
  - rewrite sequential_is_parallel by (assumption || lia).
    apply par_loop_returns; assumption.
Qed.

(** C3, amended: every assignment [(conv_id, msg_idx, diff_ms)] of a
    returned batch belongs to a file of the batch with a non-zero
    timestamp and names an entry of the index built at the start of the
    call, whose message had no [matched_media_files] marker and lies
    within the threshold of the file's timestamp.  The index is not
    updated during the batch.  The batch returns when no message carries
    an infinite timestamp, [max_workers] is positive, the threshold is
    below the float limit and every extraction returns. *)
Theorem batch_assignments_from_index (fuel : nat) (files : list mp4_file)
    (messages : pydict) (threshold_seconds : Z) (use_parallel : bool)
    (max_workers : Z) :
  (forall l, as_completed l ≡ₚ l) ->
  (forall matches : gmap string match_data,
     batch fuel files messages threshold_seconds use_parallel max_workers
     = Returned matches ->
     exists index : list index_entry,
       build_millisecond_index int_of_str messages = Returned index /\
       forall (k c : string) (i : nat) (d : Z),
         matches !! k = Some (c, i, d) ->
         exists (f : mp4_file) (e : index_entry) (ts : Z),
           f ∈ files /\ file_name f = k /\
           Mp4.extract_mp4_timestamp parse_mp4_timestamp_ffprobe fuel f true
           = Returned (Some ts) /\ ts <> 0 /\
           e ∈ index /\
           conv_id e = c /\ msg_idx e = i /\ d = ts - timestamp_ms e /\
           Z.abs d <= threshold_seconds * 1000 /\
           refers_to messages e /\
           truthy (dict_get "matched_media_files" (message e)) = false) /\
  (finite_timestamps messages -> 0 < max_workers ->
   threshold_seconds < float_limit ->
   (forall f, f ∈ files ->
      exists r, Mp4.extract_mp4_timestamp parse_mp4_timestamp_ffprobe fuel f true
                = Returned r) ->
   exists matches : gmap string match_data,
     batch fuel files messages threshold_seconds use_parallel max_workers
     = Returned matches).
Proof.
  intros Hperm. split; [|apply batch_returns_mapping; exact Hperm].
  intros matches Hbatch.
  destruct (batch_bindings _ _ _ _ _ _ _ Hperm Hbatch) as (index & Hindex & Hbind).
  exists index. split; [exact Hindex|].
  intros k c i d Hk.
  destruct (Hbind k _ Hk) as (f & Hf & ts & e & Hname & Hts & Hnz & He & Hd & Hv).
  injection Hv as -> -> ->. exists f, e, ts.
  destruct (built_index_elem int_of_str messages index e Hindex He) as [Hrefers Hunmatched].
  repeat split; try assumption; try reflexivity.
Qed.

(** C10: a file whose extracted timestamp is 0 ms is skipped like a file
    without a timestamp.  The binary parser yields 0 exactly when the
    creation-time field is the epoch adjuster, and then the fallback is not
    consulted; the worker yields nothing for the file; the sequential loop
    and the merge loop of the parallel branch run as if the file were not
    in the list; and the file's name is not in the result unless another
    file of the batch carries it. *)
Theorem zero_timestamp_skipped (fuel : nat) (f : mp4_file) :
  (forall l, as_completed l ≡ₚ l) ->
  Mp4.extract_mp4_timestamp parse_mp4_timestamp_ffprobe fuel f true
  = Returned (Some 0) ->
  (forall (fuel' : nat) (data : list byte),
     Mp4.parse_mp4_timestamp_binary fuel' data = Returned (Some 0) <->
     Mp4.creation_time fuel' data = Returned (Some 2082844800)) /\
  (forall (fuel' : nat) (g : mp4_file),
     Mp4.parse_mp4_timestamp_binary fuel' (file_bytes g) = Returned (Some 0) ->
     Mp4.extract_mp4_timestamp parse_mp4_timestamp_ffprobe fuel' g true
     = Returned (Some 0)) /\
  (forall (index : list index_entry) (threshold_ms : Z),
     process_mp4 parse_mp4_timestamp_ffprobe fuel index threshold_ms f
     = Returned None) /\
  (forall (index : list index_entry) (threshold_ms : Z)
          (pre post : list mp4_file) (m : gmap string match_data),
     sequential_loop parse_mp4_timestamp_ffprobe fuel index threshold_ms
       (pre ++ f :: post) m
     = sequential_loop parse_mp4_timestamp_ffprobe fuel index threshold_ms
         (pre ++ post) m) /\
  (forall (index : list index_entry) (threshold_ms : Z)
          (pre post : list mp4_file) (m : gmap string match_data),
     parallel_loop parse_mp4_timestamp_ffprobe fuel index threshold_ms
       (pre ++ f :: post) m
     = parallel_loop parse_mp4_timestamp_ffprobe fuel index threshold_ms
         (pre ++ post) m) /\
  (forall (files : list mp4_file) (messages : pydict) (threshold_seconds : Z)
          (use_parallel : bool) (max_workers : Z)
          (matches : gmap string match_data),
     (forall g, g ∈ files -> file_name g = file_name f -> g = f) ->
     batch fuel files messages threshold_seconds use_parallel max_workers
     = Returned matches ->
     matches !! file_name f = None).
Proof.
  intros Hperm Hzero. split; [|split; [|split; [|split; [|split]]]].
  - intros fuel' data. apply binary_zero_iff_adjuster.
  - intros fuel' g Hbin. unfold Mp4.extract_mp4_timestamp. rewrite Hbin. reflexivity.
  - intros index threshold_ms.
    apply (worker_skips _ _ _ _ f (Some 0)); [assumption | reflexivity].
  - intros index threshold_ms pre post m.
    apply (seq_loop_skip _ _ _ _ pre post f (Some 0)); [assumption | reflexivity].
  - intros index threshold_ms pre post m.
    apply (par_loop_skip _ _ _ _ pre post f (Some 0)); [assumption | reflexivity].
  - intros files messages threshold_seconds use_parallel max_workers matches
      Huniq Hbatch.
    destruct (matches !! file_name f) as [v|] eqn:Hk; [exfalso | reflexivity].
    destruct (batch_bindings _ _ _ _ _ _ _ Hperm Hbatch) as (index & _ & Hbind).
    destruct (Hbind _ _ Hk) as (g & Hg & ts & e & Hname & Hts & Hnz & _).
    rewrite (Huniq g Hg Hname) in Hts. congruence.
Qed.

End Batch.

(** ** The batch matcher on sample files *)

Lemma in_order_perm (l : list mp4_file) : in_order l ≡ₚ l.
Proof. reflexivity. Qed.

Example sample_timestamp :
  Mp4.extract_mp4_timestamp no_ffprobe 10 (sample_mp4 "a.mp4" 2082844801) true
  = Returned (Some 1000).
Proof. vm_compute. reflexivity. Qed.

Example sample_timestamp_zero :
  Mp4.extract_mp4_timestamp no_ffprobe 10 (sample_mp4 "c.mp4" 2082844800) true
  = Returned (Some 0).
Proof. vm_compute. reflexivity. Qed.

(** C3, as stated, fails: two files with the same creation time are both
    assigned the one message of the corpus. *)
Lemma one_message_two_files :
  exists matches : gmap string match_data,
    match_mp4_timestamps no_int_of_str no_ffprobe in_order 10
      [sample_mp4 "a.mp4" 2082844801; sample_mp4 "b.mp4" 2082844801]
      sample_messages 10 false 4
    = Returned matches /\
    matches !! "a.mp4" = Some ("conv", 0%nat, 0) /\
    matches !! "b.mp4" = Some ("conv", 0%nat, 0) /\
    "a.mp4" <> "b.mp4".
Proof.
  eexists. split; [vm_compute; reflexivity|].
  split; [vm_compute; reflexivity|].
  split; [vm_compute; reflexivity | discriminate].
Qed.

Lemma batch_assignments_from_index_witness :
  exists (matches : gmap string match_data) (index : list index_entry),
    match_mp4_timestamps no_int_of_str no_ffprobe in_order 10
      [sample_mp4 "a.mp4" 2082844801; sample_mp4 "b.mp4" 2082844801]
      sample_messages 10 false 4
    = Returned matches /\
    build_millisecond_index no_int_of_str sample_messages = Returned index /\
    forall (k c : string) (i : nat) (d : Z),
      matches !! k = Some (c, i, d) ->
      exists (f : mp4_file) (e : index_entry) (ts : Z),
        f ∈ [sample_mp4 "a.mp4" 2082844801; sample_mp4 "b.mp4" 2082844801] /\
        file_name f = k /\
        Mp4.extract_mp4_timestamp no_ffprobe 10 f true = Returned (Some ts) /\
        ts <> 0 /\
        e ∈ index /\
        conv_id e = c /\ msg_idx e = i /\ d = ts - timestamp_ms e /\
        Z.abs d <= 10 * 1000 /\
        refers_to sample_messages e /\
        truthy (dict_get "matched_media_files" (message e)) = false.
Proof.
  pose proof (batch_assignments_from_index no_int_of_str no_ffprobe in_order 10
                [sample_mp4 "a.mp4" 2082844801; sample_mp4 "b.mp4" 2082844801]
                sample_messages 10 false 4 in_order_perm) as [Hcontent Hreturns].
  destruct Hreturns as [matches Hbatch].
  - apply finite_timestamps_check. reflexivity.
  - lia.
  - vm_compute. reflexivity.
  - intros f Hf.
    repeat (apply elem_of_cons in Hf as [->|Hf]; [eexists; vm_compute; reflexivity|]).
    apply elem_of_nil in Hf. contradiction.
  - destruct (Hcontent matches Hbatch) as (index & Hindex & Hall).
    exists matches, index. split; [exact Hbatch | split; [exact Hindex | exact Hall]].
Defined.

Lemma zero_timestamp_skipped_witness :
  exists matches : gmap string match_data,
    match_mp4_timestamps no_int_of_str no_ffprobe in_order 10
      [sample_mp4 "a.mp4" 2082844801; sample_mp4 "c.mp4" 2082844800]
      sample_messages 10 false 4
    = Returned matches /\
    matches !! "a.mp4" = Some ("conv", 0%nat, 0) /\
    matches !! file_name (sample_mp4 "c.mp4" 2082844800) = None.
Proof.
  eexists. split; [vm_compute; reflexivity|].
  split; [vm_compute; reflexivity|].
  refine (proj2 (proj2 (proj2 (proj2 (proj2
            (zero_timestamp_skipped no_int_of_str no_ffprobe in_order 10
               (sample_mp4 "c.mp4" 2082844800) in_order_perm _)))))
            [sample_mp4 "a.mp4" 2082844801; sample_mp4 "c.mp4" 2082844800]
            sample_messages 10 false 4 _ _ _).
  - vm_compute. reflexivity.
  - intros g Hg Hname.
    apply elem_of_cons in Hg as [->|Hg]; [discriminate Hname|].
    apply list_elem_of_singleton in Hg. exact Hg.
  - vm_compute. reflexivity.
Defined.

(** ** Pipe-separated identifiers *)

Lemma split_eq (a : ascii) (sep' s : string) :
  PyStr.split a sep' s =
  match PyStr.strip_prefix (String a sep') s with
  | Some rest => "" :: PyStr.split a sep' rest
  | None =>
      match s with
      | EmptyString => [""]
      | String c s' =>
          match PyStr.split a sep' s' with
          | h :: t => String c h :: t
          | [] => [String c ""]
          end
      end
  end.
Proof.
  funelim (PyStr.split a sep' s); try rewrite <- Heqcall; clear Heqcall;
    try match goal with H : PyStr.strip_prefix _ _ = _ |- _ => rewrite H end;
    try reflexivity; rewrite Heq; reflexivity.
Qed.

Lemma rstrip_idem (s : string) : PyStr.rstrip (PyStr.rstrip s) = PyStr.rstrip s.
Proof.
  induction s as [|c s IH]; simpl; [reflexivity|].
  destruct (PyStr.rstrip s) as [|d t] eqn:E.
  - destruct (PyStr.is_space c) eqn:Hc; simpl; [reflexivity|]. rewrite Hc. reflexivity.
  - simpl. simpl in IH. rewrite IH. reflexivity.
Qed.

Lemma lstrip_first (s : string) :
  PyStr.lstrip s = "" \/
  exists c t, PyStr.lstrip s = String c t /\ PyStr.is_space c = false.
Proof.
  induction s as [|c s IH]; simpl; [auto|].
  destruct (PyStr.is_space c) eqn:Hc; [exact IH | right; eauto].
Qed.

Lemma rstrip_keeps_first (c : ascii) (t : string) :
  PyStr.is_space c = false -> exists t', PyStr.rstrip (String c t) = String c t'.
Proof.
  intros Hc. simpl. destruct (PyStr.rstrip t); [rewrite Hc|]; eauto.
Qed.

Lemma strip_idem (s : string) : PyStr.strip (PyStr.strip s) = PyStr.strip s.
Proof.
  unfold PyStr.strip. destruct (lstrip_first s) as [->|(c & t & -> & Hc)];
    [reflexivity|].
  destruct (rstrip_keeps_first c t Hc) as [t' E].
  assert (Hl : PyStr.lstrip (PyStr.rstrip (String c t)) = PyStr.rstrip (String c t)).
  { rewrite E. simpl. rewrite Hc. reflexivity. }
  rewrite Hl. apply rstrip_idem.
Qed.

(** X1: whatever the field holds, the identifiers split out of it are not
    empty and carry no white space at either end. *)
Theorem pipe_ids_trimmed (media_ids_str : string) :
  Forall (fun id => id <> "" /\ PyStr.strip id = id)
         (split_pipe_separated_ids media_ids_str).
Proof.
  unfold split_pipe_separated_ids.
  destruct (String.eqb media_ids_str ""); [constructor|].
  induction (PyStr.split " " "| " media_ids_str) as [|piece pieces IH];
    simpl; [constructor|].
  destruct (String.eqb (PyStr.strip piece) "") eqn:E; simpl; [exact IH|].
  constructor; [|exact IH]. split.
  - intros Heq. rewrite Heq in E. discriminate.
  - apply strip_idem.
Qed.

Lemma strip_prefix_pipe_none (c d : ascii) (s : string) :
  d <> "|"%char -> PyStr.strip_prefix " | " (String c (String d s)) = None.
Proof.
  intros Hd.
  change (PyStr.strip_prefix " | " (String c (String d s)))
    with (if Ascii.eqb " " c
          then if Ascii.eqb "|" d then PyStr.strip_prefix " " s else None
          else None).
  destruct (Ascii.eqb " " c); [|reflexivity].
  destruct (Ascii.eqb "|" d) eqn:E; [|reflexivity].
  apply Ascii.eqb_eq in E. congruence.
Qed.

Lemma strip_prefix_pipe_short (c : ascii) :
  PyStr.strip_prefix " | " (String c "") = None.
Proof.
  change (PyStr.strip_prefix " | " (String c ""))
    with (if Ascii.eqb " " c then @None string else None).
  destruct (Ascii.eqb " " c); reflexivity.
Qed.

Lemma contains_bar_cons (c : ascii) (x : string) :
  PyStr.contains "|" (String c x) = false ->
  c <> "|"%char /\ PyStr.contains "|" x = false.
Proof.
  change (PyStr.contains "|" (String c x))
    with (match (if Ascii.eqb "|" c then Some x else None) with
          | Some _ => true
          | None => PyStr.contains "|" x
          end).
  destruct (Ascii.eqb "|" c) eqn:E; [discriminate|].
  intros H. split; [|exact H]. intros ->. discriminate.
Qed.

(** A piece without a pipe character is split off whole. *)
Lemma split_piece (x s : string) :
  PyStr.contains "|" x = false ->
  PyStr.split " " "| " (x +:+ " | " +:+ s) = x :: PyStr.split " " "| " s.
Proof.
  intros Hx. induction x as [|c x IH].
  - change ("" +:+ " | " +:+ s) with (" | " +:+ s).
    rewrite split_eq, strip_prefix_app. reflexivity.
  - apply contains_bar_cons in Hx as [Hc Hx].
    change (String c x +:+ " | " +:+ s) with (String c (x +:+ " | " +:+ s)).
    rewrite split_eq, (IH Hx).
    destruct x as [|d x].
    + change ("" +:+ " | " +:+ s) with (String " " ("| " +:+ s)).
      rewrite strip_prefix_pipe_none by discriminate. reflexivity.
    + apply contains_bar_cons in Hx as [Hd _].
      change (String d x +:+ " | " +:+ s) with (String d (x +:+ " | " +:+ s)).
      rewrite strip_prefix_pipe_none by assumption. reflexivity.
Qed.

Lemma split_last_piece (x : string) :
  PyStr.contains "|" x = false -> PyStr.split " " "| " x = [x].
Proof.
  intros Hx. induction x as [|c x IH]; [reflexivity|].
  apply contains_bar_cons in Hx as [Hc Hx].
  rewrite split_eq, (IH Hx).
  destruct x as [|d x].
  - rewrite strip_prefix_pipe_short. reflexivity.
  - apply contains_bar_cons in Hx as [Hd _].
    rewrite strip_prefix_pipe_none by assumption. reflexivity.
Qed.

Lemma split_join_pipe (ids : list string) :
  ids <> [] -> Forall clean_id ids ->
  PyStr.split " " "| " (join_pipe ids) = ids.
Proof.
  induction ids as [|x [|y rest] IH]; intros Hne Hclean; [contradiction| |].
  - simpl. apply split_last_piece. inversion Hclean as [|? ? (_ & _ & Hx) _]. exact Hx.
  - change (join_pipe (x :: y :: rest)) with (x +:+ " | " +:+ join_pipe (y :: rest)).
    inversion Hclean as [|? ? (_ & _ & Hx) Hrest]. subst.
    rewrite split_piece by assumption. f_equal. apply IH; [discriminate | assumption].
Qed.

Lemma join_pipe_nonempty (ids : list string) :
  ids <> [] -> Forall clean_id ids -> join_pipe ids <> "".
Proof.
  destruct ids as [|x [|y rest]]; intros Hne Hclean; [contradiction| |];
    inversion Hclean as [|? ? (Hx & _) _]; subst.
  - exact Hx.
  - change (join_pipe (x :: y :: rest)) with (x +:+ " | " +:+ join_pipe (y :: rest)).
    destruct x; [contradiction | discriminate].
Qed.

(** X2: writing clean identifiers with the separator and splitting the
    field again gives the identifiers back, in order. *)
Theorem split_join_round_trip (ids : list string) :
  Forall clean_id ids -> split_pipe_separated_ids (join_pipe ids) = ids.
Proof.
  intros Hclean. destruct ids as [|x rest] eqn:Hids; [reflexivity|].
  rewrite <- Hids in *. assert (Hne : ids <> []) by (rewrite Hids; discriminate).
  unfold split_pipe_separated_ids.
  destruct (String.eqb_spec (join_pipe ids) "") as [Hj|_].
  { exfalso. exact (join_pipe_nonempty ids Hne Hclean Hj). }
  rewrite split_join_pipe by assumption.
  clear Hne Hids. induction Hclean as [|y l (Hy & Hs & _) _ IH]; [reflexivity|].
  simpl. rewrite Hs. destruct (String.eqb_spec y "") as [->|_]; [contradiction|].
  simpl. f_equal. exact IH.
Qed.

Lemma split_join_round_trip_witness :
  split_pipe_separated_ids (join_pipe ["b~EiASFU8z"; "media~28E0-FFB8"; "id3"])
  = ["b~EiASFU8z"; "media~28E0-FFB8"; "id3"].
Proof.
  apply split_join_round_trip.
  repeat (constructor; [repeat split; [discriminate | reflexivity..]|]).
  constructor.
Defined.

Example split_docstring :
  split_pipe_separated_ids "id1 | id2 | id3" = ["id1"; "id2"; "id3"] /\
  split_pipe_separated_ids "single_id" = ["single_id"] /\
  split_pipe_separated_ids "" = [] /\
  split_pipe_separated_ids " a |  | b|c | " = ["a"; "b|c"].
Proof. repeat split; reflexivity. Qed.

(** ** More on the file-name parser *)

Lemma search_Some (m : string -> option string) (s g : string) :
  Regex.search m s = Some g -> exists pre suf, s = pre +:+ suf /\ m suf = Some g.
Proof.
  induction s as [|c s IH]; simpl.
  - destruct (m "") eqn:E; [|discriminate]. intros [= <-]. exists "", "". auto.
  - destruct (m (String c s)) eqn:E.
    + intros [= <-]. exists "", (String c s). auto.
    + intros H. destruct (IH H) as (pre & suf & -> & Hm).
      exists (String c pre), suf. auto.
Qed.

Lemma append_assoc (a b c : string) : (a +:+ b) +:+ c = a +:+ b +:+ c.
Proof. induction a as [|x a IH]; simpl; [reflexivity | f_equal; exact IH]. Qed.

(** A successful search for [lit(run)] shows [lit] followed by the run in
    the text. *)
Lemma search_here_substring (lit s g : string) :
  Regex.search (Regex.match_here lit) s = Some g ->
  g <> "" /\ all_id g = true /\ substring_of (lit +:+ g) s.
Proof.
  intros H. apply search_Some in H as (pre & suf & -> & Hm).
  apply match_here_Some in Hm as (rest & -> & Hne & Hid & _).
  repeat split; try assumption. exists pre, rest.
  rewrite append_assoc. reflexivity.
Qed.

Lemma split1_found (sep pre rest : string) (c : ascii) (sep' : string) :
  sep = String c sep' ->
  (forall k, (k < String.length pre)%nat ->
             PyStr.strip_prefix sep (skip k (pre +:+ sep +:+ rest)) = None) ->
  PyStr.split1 sep (pre +:+ sep +:+ rest) = [pre; rest].
Proof.
  intros Hsep Hnone. induction pre as [|d pre IH].
  - change ("" +:+ sep +:+ rest) with (sep +:+ rest).
    assert (E : PyStr.split1 sep (sep +:+ rest)
                = match PyStr.strip_prefix sep (sep +:+ rest) with
                  | Some r => [""; r]
                  | None => PyStr.split1 sep (sep +:+ rest)
                  end).
    { destruct (sep +:+ rest) eqn:E'; simpl;
        destruct (PyStr.strip_prefix sep _); reflexivity. }
    rewrite E, strip_prefix_app. reflexivity.
  - change (String d pre +:+ sep +:+ rest) with (String d (pre +:+ sep +:+ rest)).
    simpl PyStr.split1.
    rewrite (Hnone 0%nat ltac:(simpl; lia) :
               PyStr.strip_prefix sep (String d (pre +:+ sep +:+ rest)) = None).
    rewrite IH; [reflexivity|].
    intros k Hk. apply (Hnone (S k)). simpl. lia.
Qed.

Lemma blob_marker_not_early (pre rest : string) :
  PyStr.contains "b~" pre = false ->
  forall k, (k < String.length pre)%nat ->
    PyStr.strip_prefix "b~" (skip k (pre +:+ "b~" +:+ rest)) = None.
Proof.
  induction pre as [|c pre IH]; intros Hpre k Hk; [simpl in Hk; lia|].
  rewrite contains_unfold in Hpre.
  destruct (PyStr.strip_prefix "b~" (String c pre)) eqn:E; [discriminate|].
  destruct k as [|k].
  - change (skip 0 (String c pre +:+ "b~" +:+ rest))
      with (String c (pre +:+ "b~" +:+ rest)).
    destruct pre as [|d pre].
    + change (PyStr.strip_prefix "b~" (String c ("" +:+ "b~" +:+ rest)))
        with (if Ascii.eqb "b" c
              then if Ascii.eqb "~" "b" then Some ("~" +:+ rest) else None
              else None).
      destruct (Ascii.eqb "b" c); reflexivity.
    + change (PyStr.strip_prefix "b~" (String c (String d pre)))
        with (if Ascii.eqb "b" c
              then if Ascii.eqb "~" d then Some pre else None
              else None) in E.
      change (PyStr.strip_prefix "b~" (String c (String d pre +:+ "b~" +:+ rest)))
        with (if Ascii.eqb "b" c
              then if Ascii.eqb "~" d then Some (pre +:+ "b~" +:+ rest) else None
              else None).
      destruct (Ascii.eqb "b" c); [|reflexivity].
      destruct (Ascii.eqb "~" d); [discriminate | reflexivity].
  - change (skip (S k) (String c pre +:+ "b~" +:+ rest))
      with (skip k (pre +:+ "b~" +:+ rest)).
    apply IH; [exact Hpre | simpl in Hk; lia].
Qed.

Lemma rsplit1_cons (c a : ascii) (s : string) :
  PyStr.rsplit1 c (String a s) =
  match PyStr.rsplit1 c s with
  | [t] => if Ascii.eqb a c then [""; t] else [String a t]
  | h :: t => String a h :: t
  | [] => [String a ""]
  end.
Proof. reflexivity. Qed.

Lemma rsplit1_no_dot (s : string) :
  PyStr.contains "." s = false -> PyStr.rsplit1 "." s = [s].
Proof.
  induction s as [|c s IH]; intros H; [reflexivity|].
  rewrite contains_unfold in H.
  change (PyStr.strip_prefix "." (String c s))
    with (if Ascii.eqb "." c then Some s else None) in H.
  destruct (Ascii.eqb "." c) eqn:E; [discriminate|].
  rewrite rsplit1_cons, (IH H), Ascii.eqb_sym, E. reflexivity.
Qed.

Lemma rsplit1_last_dot (body ext : string) :
  PyStr.contains "." ext = false ->
  PyStr.rsplit1 "." (body +:+ "." +:+ ext) = [body; ext].
Proof.
  intros H. induction body as [|c body IH].
  - change ("" +:+ "." +:+ ext) with (String "." ext).
    rewrite rsplit1_cons, (rsplit1_no_dot ext H). reflexivity.
  - change (String c body +:+ "." +:+ ext) with (String c (body +:+ "." +:+ ext)).
    rewrite rsplit1_cons, IH. reflexivity.
Qed.

(** X3: the blob rule.  In a name without the thumbnail marker, the
    identifier is [b~] followed by the text between the first [b~] and the
    last dot; nothing else in the name matters. *)
Theorem blob_identifier (pre body ext : string) :
  let f := pre +:+ "b~" +:+ body +:+ "." +:+ ext in
  ~ substring_of "thumbnail~" f ->
  PyStr.contains "b~" pre = false ->
  PyStr.contains "." ext = false ->
  extract_media_id_from_filename f = Some ("b~" +:+ body).
Proof.
  intros f Ht Hpre Hext. apply contains_false in Ht.
  unfold extract_media_id_from_filename. rewrite Ht.
  assert (Hb : PyStr.contains "b~" f = true)
    by (apply contains_true; exists pre, (body +:+ "." +:+ ext); reflexivity).
  unfold blob_branch. rewrite Hb. unfold f.
  rewrite (split1_found "b~" pre (body +:+ "." +:+ ext) "b" "~" eq_refl
             (blob_marker_not_early pre _ Hpre)).
  cbv beta zeta iota delta [PyStr.item nth length Nat.ltb Nat.leb].
  rewrite rsplit1_last_dot by assumption. reflexivity.
Qed.

Lemma blob_identifier_witness :
  extract_media_id_from_filename
    ("2025-07-27_" +:+ "b~" +:+ "EiASFU8z_media~AB.v2" +:+ "." +:+ "jpeg")
  = Some ("b~" +:+ "EiASFU8z_media~AB.v2").
Proof.
  apply (blob_identifier "2025-07-27_" "EiASFU8z_media~AB.v2" "jpeg").
  - apply contains_false. reflexivity.
  - reflexivity.
  - reflexivity.
Defined.

Lemma split1_spec (sep f : string) :
  PyStr.contains sep f = true ->
  exists pre rest, PyStr.split1 sep f = [pre; rest] /\ f = pre +:+ sep +:+ rest.
Proof.
  induction f as [|c f IH]; intros H; rewrite contains_unfold in H.
  - destruct (PyStr.strip_prefix sep "") as [r|] eqn:E; [|discriminate].
    exists "", r. split; [simpl; rewrite E; reflexivity|].
    apply strip_prefix_Some in E. exact E.
  - simpl PyStr.split1.
    destruct (PyStr.strip_prefix sep (String c f)) as [r|] eqn:E.
    + exists "", r. split; [reflexivity|]. apply strip_prefix_Some in E. exact E.
    + destruct (IH H) as (pre & rest & -> & ->).
      exists (String c pre), rest. split; reflexivity.
Qed.

Lemma rsplit1_spec (c : ascii) (s : string) :
  PyStr.rsplit1 c s = [s] \/
  exists b e, PyStr.rsplit1 c s = [b; e] /\ s = b +:+ String c e.
Proof.
  induction s as [|a s IH]; [left; reflexivity|].
  rewrite rsplit1_cons. destruct IH as [->|(b & e & -> & ->)].
  - destruct (Ascii.eqb_spec a c) as [->|Hne].
    + right. exists "", s. split; reflexivity.
    + left. reflexivity.
  - right. exists (String a b), e. split; reflexivity.
Qed.

Lemma append_nil_r (x : string) : x +:+ "" = x.
Proof. induction x as [|c x IH]; simpl; [|rewrite IH]; reflexivity. Qed.

(** The shape of every identifier the parser returns. *)
Lemma identifier_cases (f id : string) :
  extract_media_id_from_filename f = Some id ->
  (exists body, id = "b~" +:+ body /\ substring_of id f) \/
  (exists g, g <> "" /\ all_id g = true /\
     ((id = "media~zip-" +:+ g /\ substring_of id f) \/
      (id = "overlay~" +:+ g /\ substring_of id f) \/
      (id = "media~" +:+ g /\
       (substring_of ("media~" +:+ g) f \/ substring_of ("overlay~" +:+ g) f)))).
Proof.
  unfold extract_media_id_from_filename.
  destruct (PyStr.contains "thumbnail~" f); [discriminate|].
  destruct (blob_branch f) as [r|] eqn:Hblob.
  { intros [= <-]. left. unfold blob_branch in Hblob.
    destruct (PyStr.contains "b~" f) eqn:Hb; [|discriminate].
    destruct (split1_spec "b~" f Hb) as (pre & rest & Hsplit & ->).
    rewrite Hsplit in Hblob.
    cbv beta zeta iota delta [PyStr.item nth length Nat.ltb Nat.leb] in Hblob.
    destruct (rsplit1_spec "." rest) as [E|(b & e & E & ->)];
      rewrite E in Hblob; injection Hblob as <-.
    - exists rest. split; [reflexivity|]. exists pre, "".
      rewrite append_nil_r. reflexivity.
    - exists b. split; [reflexivity|]. exists pre, (String "." e).
      f_equal. }
  destruct (zip_branch f) as [r|] eqn:Hzip.
  { intros [= <-]. right. unfold zip_branch in Hzip.
    destruct (PyStr.contains "_media~zip-" f); [|discriminate].
    destruct (Regex.search (Regex.match_here "media~zip-") f) as [g|] eqn:Hs;
      [|discriminate].
    injection Hzip as <-. apply search_here_substring in Hs as (Hne & Hid & Hsub).
    exists g. auto. }
  unfold generic_branch.
  destruct (Regex.search (Regex.match_alt "media~" "overlay~") f) as [g|] eqn:Hs;
    [|discriminate].
  intros [= <-]. right. apply search_Some in Hs as (pre & suf & Hf & Hm).
  unfold Regex.match_alt in Hm.
  assert (Hcase :
    (PyStr.contains "media~" f = true /\ g <> "" /\ all_id g = true /\
     substring_of ("media~" +:+ g) f) \/
    (g <> "" /\ all_id g = true /\ substring_of ("overlay~" +:+ g) f)).
  { destruct (Regex.match_here "media~" suf) as [g'|] eqn:Hm1.
    - injection Hm as ->. apply match_here_Some in Hm1 as (rest & -> & Hne & Hid & _).
      assert (Hsub : substring_of ("media~" +:+ g) f)
        by (exists pre, rest; rewrite Hf, append_assoc; reflexivity).
      left. repeat split; try assumption.
      apply contains_true. destruct Hsub as (p1 & p2 & ->).
      exists p1, (g +:+ p2). rewrite append_assoc. reflexivity.
    - apply match_here_Some in Hm as (rest & -> & Hne & Hid & _).
      right. repeat split; try assumption.
      exists pre, rest. rewrite Hf, append_assoc. reflexivity. }
  exists g. destruct Hcase as [(Hc & Hne & Hid & Hsub) | (Hne & Hid & Hsub)].
  - rewrite Hc. repeat split; try assumption. right. right. auto.
  - repeat split; try assumption.
    destruct (PyStr.contains "media~" f); [right; right | right; left]; auto.
Qed.

Lemma identifier_nonempty (f id : string) :
  extract_media_id_from_filename f = Some id -> id <> "".
Proof.
  intros H. apply identifier_cases in H
    as [(body & -> & _) | (g & _ & _ & [[-> _] | [[-> _] | [-> _]]])];
    discriminate.
Qed.

(** X4: every identifier starts with one of the four markers.  A blob, zip
    or overlay identifier occurs verbatim in the file name; after [media~]
    or [overlay~] comes a non-empty run of [[A-F0-9-]] that follows one of
    these two markers in the name. *)
Theorem identifier_shape (f id : string) :
  extract_media_id_from_filename f = Some id ->
  id <> "" /\
  ((exists body, id = "b~" +:+ body /\ substring_of id f) \/
   (exists g, g <> "" /\ all_id g = true /\
      ((id = "media~zip-" +:+ g /\ substring_of id f) \/
       (id = "overlay~" +:+ g /\ substring_of id f) \/
       (id = "media~" +:+ g /\
        (substring_of ("media~" +:+ g) f \/ substring_of ("overlay~" +:+ g) f))))).
Proof.
  intros H. split; [eapply identifier_nonempty; eassumption|].
  apply identifier_cases. exact H.
Qed.

Lemma identifier_shape_witness :
  "media~28E0FFB8-5182" <> "" /\
  ((exists body, "media~28E0FFB8-5182" = "b~" +:+ body /\
                 substring_of "media~28E0FFB8-5182" "2025-07-27_media~28E0FFB8-5182.mp4") \/
   (exists g, g <> "" /\ all_id g = true /\
      (("media~28E0FFB8-5182" = "media~zip-" +:+ g /\
        substring_of "media~28E0FFB8-5182" "2025-07-27_media~28E0FFB8-5182.mp4") \/
       ("media~28E0FFB8-5182" = "overlay~" +:+ g /\
        substring_of "media~28E0FFB8-5182" "2025-07-27_media~28E0FFB8-5182.mp4") \/
       ("media~28E0FFB8-5182" = "media~" +:+ g /\
        (substring_of ("media~" +:+ g) "2025-07-27_media~28E0FFB8-5182.mp4" \/
         substring_of ("overlay~" +:+ g) "2025-07-27_media~28E0FFB8-5182.mp4"))))).
Proof.
  apply (identifier_shape "2025-07-27_media~28E0FFB8-5182.mp4"). reflexivity.
Defined.

(** ** The identifier collector *)

Lemma size_union_le (X Y : gset string) : (size (X ∪ Y) <= size X + size Y)%nat.
Proof.
  rewrite size_union_alt.
  assert (size (Y ∖ X) <= size Y)%nat.
  { apply subseteq_size. intros x Hx. apply elem_of_difference in Hx. tauto. }
  lia.
Qed.

Lemma size_list_to_set_le (l : list string) :
  (size (list_to_set l : gset string) <= length l)%nat.
Proof.
  induction l as [|x l IH].
  - vm_compute. lia.
  - change (list_to_set (x :: l) : gset string) with ({[x]} ∪ list_to_set l : gset string).
    pose proof (size_union_le {[x]} (list_to_set l)) as H.
    rewrite size_singleton in H. simpl length. lia.
Qed.

Lemma pipe_ids_elem (media_ids_str id : string) :
  id ∈ split_pipe_separated_ids media_ids_str -> id <> "" /\ PyStr.strip id = id.
Proof.
  intros H.
  assert (HF : Forall (fun id => id <> "" /\ PyStr.strip id = id)
                 (split_pipe_separated_ids media_ids_str)).
  { unfold split_pipe_separated_ids.
    destruct (String.eqb media_ids_str ""); [constructor|].
    induction (PyStr.split " " "| " media_ids_str) as [|piece pieces IH];
      simpl; [constructor|].
    destruct (String.eqb (PyStr.strip piece) "") eqn:E; simpl; [exact IH|].
    constructor; [|exact IH]. split; [|apply strip_idem].
    intros Heq. rewrite Heq in E. discriminate. }
  rewrite Forall_forall in HF. apply HF. exact H.
Qed.

Lemma collect_message_step (acc acc' : gset string * extraction_stats) (m : pyval) :
  collect_message acc m = Returned acc' ->
  collector_invariant acc ->
  collector_invariant acc' /\ total_messages (snd acc') = S (total_messages (snd acc)).
Proof.
  destruct acc as [ids st]. unfold collect_message.
  destruct m as [| | | | | |d]; try discriminate.
  intros H (Hp & Hm & Hs & Ht & Hc). simpl in *.
  destruct (truthy (dict_get_default "Media IDs" (PyStr "") d)).
  - destruct (dict_get_default "Media IDs" (PyStr "") d) as [| | | |field| |];
      try discriminate.
    injection H as <-. simpl. split; [|reflexivity].
    pose proof (size_union_le ids (list_to_set (split_pipe_separated_ids field))).
    pose proof (size_list_to_set_le (split_pipe_separated_ids field)).
    assert (Hc' : forall x, x ∈ ids ∪ list_to_set (split_pipe_separated_ids field) ->
                            x <> "" /\ PyStr.strip x = x).
    { intros x Hx. apply elem_of_union in Hx as [Hx|Hx]; [apply Hc; exact Hx|].
      apply elem_of_list_to_set in Hx. eapply pipe_ids_elem; eassumption. }
    unfold collector_invariant. simpl.
    destruct (Nat.ltb_spec 1 (length (split_pipe_separated_ids field)));
      (split; [lia | split; [lia | split; [lia | split; [lia | exact Hc']]]]).
  - injection H as <-. simpl. split; [|reflexivity].
    unfold collector_invariant. simpl.
    split; [lia | split; [lia | split; [lia | split; [lia | exact Hc]]]].
Qed.

Lemma collect_messages_steps (l : list pyval) :
  forall acc acc' : gset string * extraction_stats,
    collect_messages acc l = Returned acc' ->
    collector_invariant acc ->
    collector_invariant acc' /\
    total_messages (snd acc') = (total_messages (snd acc) + length l)%nat.
Proof.
  induction l as [|m l IH]; intros acc acc' H Hinv; simpl in H.
  - injection H as <-. split; [assumption | simpl; lia].
  - destruct (collect_message acc m) as [acc1| |] eqn:E; simpl in H; try discriminate.
    destruct (collect_message_step acc acc1 m E Hinv) as [Hinv1 Ht1].
    destruct (IH acc1 acc' H Hinv1) as [Hinv' Ht']. split; [assumption|].
    rewrite Ht', Ht1. simpl. lia.
Qed.

Lemma collect_conversations_steps (messages : pydict) :
  forall acc acc' : gset string * extraction_stats,
    collect_conversations acc messages = Returned acc' ->
    collector_invariant acc ->
    collector_invariant acc' /\
    total_messages (snd acc') = (total_messages (snd acc) + count_messages messages)%nat.
Proof.
  induction messages as [|[conv v] rest IH]; intros acc acc' H Hinv; simpl in H.
  - injection H as <-. split; [assumption | simpl; lia].
  - simpl. destruct (py_iter v) as [items| |]; simpl in H; try discriminate.
    destruct (collect_messages acc items) as [acc1| |] eqn:E; simpl in H;
      try discriminate.
    destruct (collect_messages_steps items acc acc1 E Hinv) as [Hinv1 Ht1].
    destruct (IH acc1 acc' H Hinv1) as [Hinv' Ht']. split; [assumption|].
    rewrite Ht', Ht1. lia.
Qed.

Lemma collector_invariant_start :
  collector_invariant (∅, ExtractionStats 0 0 0 0).
Proof.
  unfold collector_invariant. simpl.
  split; [lia | split; [lia | split; [vm_compute; lia | split; [lia|]]]].
  intros x Hx. apply elem_of_empty in Hx. contradiction.
Qed.

Lemma collector_result (messages : pydict) (ids : gset string) (st : extraction_stats) :
  extract_media_ids_from_messages messages = Returned (ids, st) ->
  collector_invariant (ids, st) /\ total_messages st = count_messages messages.
Proof.
  intros H.
  destruct (collect_conversations_steps messages _ _ H collector_invariant_start)
    as [Hinv Ht].
  split; [exact Hinv | exact Ht].
Qed.

(** X5: when the collector returns, its counters are consistent: every
    message was counted, messages with several identifiers are among the
    messages with media, these among all messages, the set holds no more
    identifiers than were counted, and each message with several
    identifiers counted at least two; every collected identifier is
    non-empty and trimmed. *)
Theorem collector_counters_consistent (messages : pydict) (ids : gset string)
    (st : extraction_stats) :
  extract_media_ids_from_messages messages = Returned (ids, st) ->
  total_messages st = count_messages messages /\
  (pipe_separated st <= messages_with_media st <= total_messages st)%nat /\
  (size ids <= total_ids st)%nat /\
  (2 * pipe_separated st <= total_ids st)%nat /\
  (forall id, id ∈ ids -> id <> "" /\ PyStr.strip id = id).
Proof.
  intros H. destruct (collector_result messages ids st H)
    as [(Hp & Hm & Hs & Ht & Hc) Hcount]. simpl in *.
  split; [assumption | split; [lia | split; [assumption | split; assumption]]].
Qed.

Lemma collector_counters_consistent_witness :
  total_messages (ExtractionStats 3 2 1 3) =
    count_messages
      [("conv", PyList [PyDict [("Media IDs", PyStr "id1 | id2")];
                        PyDict [("Media IDs", PyStr "id1")];
                        PyDict [("Content", PyStr "hello")]])] /\
  (pipe_separated (ExtractionStats 3 2 1 3)
   <= messages_with_media (ExtractionStats 3 2 1 3)
   <= total_messages (ExtractionStats 3 2 1 3))%nat /\
  (size ({["id1"; "id2"]} : gset string) <= total_ids (ExtractionStats 3 2 1 3))%nat /\
  (2 * pipe_separated (ExtractionStats 3 2 1 3) <= total_ids (ExtractionStats 3 2 1 3))%nat /\
  (forall id, id ∈ ({["id1"; "id2"]} : gset string) -> id <> "" /\ PyStr.strip id = id).
Proof.
  apply (collector_counters_consistent
           [("conv", PyList [PyDict [("Media IDs", PyStr "id1 | id2")];
                             PyDict [("Media IDs", PyStr "id1")];
                             PyDict [("Content", PyStr "hello")]])]).
  vm_compute. reflexivity.
Defined.

Lemma collect_message_readable (acc : gset string * extraction_stats) (m : pyval) :
  readable_message m -> exists acc', collect_message acc m = Returned acc'.
Proof.
  intros (d & -> & Hfield). destruct acc as [ids st]. simpl.
  destruct Hfield as [-> | [field ->]]; [eauto|].
  destruct (truthy (PyStr field)); eauto.
Qed.

Lemma collect_message_unreadable (acc : gset string * extraction_stats) (m : pyval) :
  ~ readable_message m -> collect_message acc m = Raised.
Proof.
  intros Hm. destruct acc as [ids st]. unfold collect_message.
  destruct m as [| | | | | |d]; try reflexivity.
  destruct (truthy (dict_get_default "Media IDs" (PyStr "") d)) eqn:Ht.
  - destruct (dict_get_default "Media IDs" (PyStr "") d) as [| | | |field| |] eqn:Hf;
      try reflexivity.
    exfalso. apply Hm. exists d. split; [reflexivity|]. right. exists field. exact Hf.
  - exfalso. apply Hm. exists d. split; [reflexivity|]. left. exact Ht.
Qed.

Lemma collect_message_outcome (acc : gset string * extraction_stats) (m : pyval) :
  collect_message acc m <> OutOfFuel.
Proof.
  destruct acc as [ids st]. unfold collect_message.
  destruct m as [| | | | | |d]; try discriminate.
  destruct (truthy _); [|discriminate].
  destruct (dict_get_default "Media IDs" (PyStr "") d); discriminate.
Qed.

Lemma collect_messages_outcome (l : list pyval) :
  forall acc, collect_messages acc l <> OutOfFuel.
Proof.
  induction l as [|m l IH]; intros acc; simpl; [discriminate|].
  pose proof (collect_message_outcome acc m).
  destruct (collect_message acc m); simpl; [apply IH | discriminate | contradiction].
Qed.

Lemma collect_messages_readable (l : list pyval) :
  Forall readable_message l ->
  forall acc, exists acc', collect_messages acc l = Returned acc'.
Proof.
  induction 1 as [|m l Hm _ IH]; intros acc; simpl; [eauto|].
  destruct (collect_message_readable acc m Hm) as [acc1 ->]. simpl. apply IH.
Qed.

Lemma collect_messages_unreadable (l : list pyval) (m : pyval) :
  m ∈ l -> ~ readable_message m ->
  forall acc, collect_messages acc l = Raised.
Proof.
  intros Hin Hm. induction l as [|m0 l IH]; intros acc.
  - apply elem_of_nil in Hin. contradiction.
  - simpl. pose proof (collect_message_outcome acc m0) as Ho.
    destruct (collect_message acc m0) as [acc1| |] eqn:E; simpl;
      [|reflexivity | contradiction].
    apply elem_of_cons in Hin as [->|Hin].
    + rewrite (collect_message_unreadable acc m0 Hm) in E. discriminate.
    + apply IH. exact Hin.
Qed.

Lemma collect_conversations_readable (messages : pydict) :
  readable_corpus messages ->
  forall acc, exists acc', collect_conversations acc messages = Returned acc'.
Proof.
  induction 1 as [|[conv v] rest (l & Hv & Hl) _ IH]; intros acc; simpl; [eauto|].
  simpl in Hv. subst v. simpl.
  destruct (collect_messages_readable l Hl acc) as [acc1 ->]. simpl. apply IH.
Qed.

Lemma collect_conversations_unreadable (messages : pydict) (conv : string)
    (l : list pyval) (m : pyval) :
  (conv, PyList l) ∈ messages -> m ∈ l -> ~ readable_message m ->
  forall acc, collect_conversations acc messages = Raised.
Proof.
  intros Hin Hm Hbad. induction messages as [|[conv0 v] rest IH]; intros acc.
  - apply elem_of_nil in Hin. contradiction.
  - simpl. destruct (py_iter v) as [items| |] eqn:Hiter; simpl; [|reflexivity|].
    + pose proof (collect_messages_outcome items acc) as Ho.
      destruct (collect_messages acc items) as [acc1| |] eqn:E; simpl;
        [|reflexivity | contradiction].
      apply elem_of_cons in Hin as [Heq|Hin].
      * injection Heq as <- <-. simpl in Hiter. injection Hiter as <-.
        rewrite (collect_messages_unreadable l m Hm Hbad acc) in E. discriminate.
      * apply IH. exact Hin.
    + destruct v; discriminate.
Qed.

(** X6: the collector has no type guards.  It returns on a corpus whose
    conversations are lists of dictionaries with an absent, falsy or
    string ['Media IDs'] value; one message of another kind in a
    conversation list makes the whole call raise. *)
Theorem collector_needs_readable_messages (messages : pydict) :
  (readable_corpus messages ->
   exists ids st, extract_media_ids_from_messages messages = Returned (ids, st)) /\
  (forall (conv : string) (l : list pyval) (m : pyval),
     (conv, PyList l) ∈ messages -> m ∈ l -> ~ readable_message m ->
     extract_media_ids_from_messages messages = Raised).
Proof.
  split.
  - intros H. destruct (collect_conversations_readable messages H
                          (∅, ExtractionStats 0 0 0 0)) as [[ids st] E].
    exists ids, st. exact E.
  - intros conv l m Hin Hm Hbad.
    eapply collect_conversations_unreadable; eassumption.
Qed.

Example collector_skips_nothing :
  extract_media_ids_from_messages
    [("conv", PyList [PyDict [("Media IDs", PyStr "id1")]; PyStr "note"])] = Raised /\
  extract_media_ids_from_messages
    [("conv", PyList [PyDict [("Media IDs", PyInt 7)]])] = Raised /\
  build_millisecond_index no_int_of_str
    [("conv", PyList [PyDict [("Created(microseconds)", PyInt 5)]; PyStr "note"])]
  = Returned [IndexEntry 5 "conv" 0 [("Created(microseconds)", PyInt 5)]].
Proof. repeat split; reflexivity. Qed.

(** ** The media file index *)

Lemma process_file_Some (filename id fn : string) :
  process_file filename = Some (id, fn) <->
  extract_media_id_from_filename filename = Some id /\ fn = filename.
Proof.
  unfold process_file.
  destruct (extract_media_id_from_filename filename) as [r|] eqn:E; simpl.
  - pose proof (identifier_nonempty filename r E) as Hne.
    destruct (String.eqb_spec r "") as [->|_]; [contradiction|]. simpl.
    split; [intros [= <- <-]; auto | intros [[= <-] ->]; reflexivity].
  - split; [discriminate | intros [? _]; discriminate].
Qed.

Lemma process_file_None (filename : string) :
  process_file filename = None <-> extract_media_id_from_filename filename = None.
Proof.
  unfold process_file.
  destruct (extract_media_id_from_filename filename) as [r|] eqn:E; simpl.
  - pose proof (identifier_nonempty filename r E) as Hne.
    destruct (String.eqb_spec r "") as [->|_]; [contradiction|]. simpl.
    split; discriminate.
  - split; reflexivity.
Qed.

(** The sequential loop is the merge of the worker's results. *)
Lemma scan_is_merge (l : list string) :
  forall m, scan_files l m = merge_files l m.
Proof.
  induction l as [|f l IH]; intros m; simpl; [reflexivity|].
  unfold process_file. destruct (has_id (extract_media_id_from_filename f)); apply IH.
Qed.

Lemma merge_files_cons (f : string) (l : list string) (m : gmap string string) :
  merge_files (f :: l) m =
  match extract_media_id_from_filename f with
  | Some id => merge_files l (<[id := f]> m)
  | None => merge_files l m
  end.
Proof.
  simpl. destruct (extract_media_id_from_filename f) as [id|] eqn:E.
  - rewrite (proj2 (process_file_Some f id f) (conj E eq_refl)). reflexivity.
  - rewrite (proj2 (process_file_None f) E). reflexivity.
Qed.

Lemma merge_files_lookup (l : list string) :
  forall (m : gmap string string) (id fn : string),
    merge_files l m !! id = Some fn ->
    m !! id = Some fn \/ (fn ∈ l /\ extract_media_id_from_filename fn = Some id).
Proof.
  induction l as [|f l IH]; intros m id fn H; [left; exact H|].
  rewrite merge_files_cons in H.
  destruct (extract_media_id_from_filename f) as [id'|] eqn:E.
  - destruct (IH _ _ _ H) as [Hm|[Hin Hx]].
    + destruct (decide (id' = id)) as [->|Hne].
      * rewrite lookup_insert_eq in Hm. injection Hm as <-.
        right. split; [apply elem_of_cons; auto | exact E].
      * rewrite lookup_insert_ne in Hm by assumption. auto.
    + right. split; [apply elem_of_cons; auto | exact Hx].
  - destruct (IH _ _ _ H) as [Hm|[Hin Hx]]; [auto|].
    right. split; [apply elem_of_cons; auto | exact Hx].
Qed.

Lemma merge_files_keeps (l : list string) :
  forall (m : gmap string string) (id : string),
    is_Some (m !! id) -> is_Some (merge_files l m !! id).
Proof.
  induction l as [|f l IH]; intros m id H; [exact H|].
  rewrite merge_files_cons.
  destruct (extract_media_id_from_filename f) as [id'|]; apply IH; [|exact H].
  destruct (decide (id' = id)) as [->|Hne].
  - rewrite lookup_insert_eq. eauto.
  - rewrite lookup_insert_ne by assumption. exact H.
Qed.

Lemma merge_files_indexes (l : list string) :
  forall (m : gmap string string) (id fn : string),
    fn ∈ l -> extract_media_id_from_filename fn = Some id ->
    is_Some (merge_files l m !! id).
Proof.
  induction l as [|f l IH]; intros m id fn Hin Hx.
  - apply elem_of_nil in Hin. contradiction.
  - rewrite merge_files_cons. apply elem_of_cons in Hin as [->|Hin].
    + rewrite Hx. apply merge_files_keeps. rewrite lookup_insert_eq. eauto.
    + destruct (extract_media_id_from_filename f); eapply IH; eassumption.
Qed.

(** The last file of the list that yields an identifier owns it. *)
Lemma merge_files_last (l1 l2 : list string) (f id : string) :
  extract_media_id_from_filename f = Some id ->
  (forall g, g ∈ l2 -> extract_media_id_from_filename g <> Some id) ->
  forall m, merge_files (l1 ++ f :: l2) m !! id = Some f.
Proof.
  intros Hf Hl2. induction l1 as [|g l1 IH]; intros m.
  - simpl app. rewrite merge_files_cons, Hf.
    destruct (merge_files l2 (<[id := f]> m) !! id) as [fn|] eqn:E.
    + apply merge_files_lookup in E as [Hm|[Hin Hx]].
      * rewrite lookup_insert_eq in Hm. congruence.
      * exfalso. exact (Hl2 fn Hin Hx).
    + pose proof (merge_files_keeps l2 (<[id := f]> m) id) as Hk.
      rewrite lookup_insert_eq in Hk. destruct (Hk ltac:(eauto)) as [x Hx].
      congruence.
  - change ((g :: l1) ++ f :: l2) with (g :: (l1 ++ f :: l2)).
    rewrite merge_files_cons. destruct (extract_media_id_from_filename g); apply IH.
Qed.

Lemma visible_files_elem (entries : list dir_entry) (name : string) :
  name ∈ visible_files entries <->
  DirEntry name true ∈ entries /\ hidden name = false.
Proof.
  induction entries as [|[n b] entries IH].
  - simpl. split; [intros H | intros [H _]]; apply elem_of_nil in H; contradiction.
  - simpl. destruct b; simpl; [destruct (hidden n) eqn:Hn; simpl|].
    + split.
      * intros H. apply IH in H as [H Hh]. split; [apply elem_of_cons; auto | exact Hh].
      * intros [H Hh]. apply elem_of_cons in H as [[= ->]|H]; [congruence|].
        apply IH. auto.
    + split.
      * intros H. apply elem_of_cons in H as [->|H].
        -- split; [apply elem_of_cons; auto | exact Hn].
        -- apply IH in H as [H Hh]. split; [apply elem_of_cons; auto | exact Hh].
      * intros [H Hh]. apply elem_of_cons in H as [[= ->]|H].
        -- apply elem_of_cons. auto.
        -- apply elem_of_cons. right. apply IH. auto.
    + split.
      * intros H. apply IH in H as [H Hh]. split; [apply elem_of_cons; auto | exact Hh].
      * intros [H Hh]. apply elem_of_cons in H as [[=]|H]. apply IH. auto.
Qed.

Section MediaIndexFacts.

Variable files_completed : list string -> list string.
Hypothesis files_completed_perm : forall l, files_completed l ≡ₚ l.

Lemma media_index_is_merge (entries : list dir_entry) (use_parallel : bool)
    (max_workers : Z) (media_map : gmap string string) :
  create_media_index files_completed (Some entries) use_parallel max_workers
  = Returned media_map ->
  exists l, l ≡ₚ visible_files entries /\ media_map = merge_files l ∅.
Proof.
  unfold create_media_index.
  destruct (use_parallel && (1000 <? length (visible_files entries))%nat).
  - destruct (thread_pool max_workers); simpl; try discriminate.
    intros [= <-]. exists (files_completed (visible_files entries)). auto.
  - intros [= <-]. exists (visible_files entries).
    split; [reflexivity | apply scan_is_merge].
Qed.

Lemma media_index_returns (media_dir : option (list dir_entry)) (use_parallel : bool)
    (max_workers : Z) :
  0 < max_workers \/ use_parallel = false ->
  exists media_map,
    create_media_index files_completed media_dir use_parallel max_workers
    = Returned media_map.
Proof.
  intros Hw. unfold create_media_index. destruct media_dir as [entries|]; [|eauto].
  destruct Hw as [Hw | ->]; [|simpl; eauto].
  destruct (use_parallel && _); [|eauto].
  unfold thread_pool. destruct (Z.leb_spec max_workers 0); [lia|]. simpl. eauto.
Qed.

(** X7: a returned index maps an identifier only to a non-hidden regular
    file of the directory whose name yields that identifier, and every
    identifier that such a file yields is a key, in both branches; a
    missing directory gives the empty index; the index is returned unless
    the parallel branch is asked for with no worker. *)
Theorem media_index_sound_complete (media_dir : option (list dir_entry))
    (use_parallel : bool) (max_workers : Z) :
  (forall media_map,
     create_media_index files_completed media_dir use_parallel max_workers
     = Returned media_map ->
     (forall id filename,
        media_map !! id = Some filename ->
        exists entries,
          media_dir = Some entries /\ DirEntry filename true ∈ entries /\
          hidden filename = false /\
          extract_media_id_from_filename filename = Some id) /\
     (forall entries id filename,
        media_dir = Some entries -> DirEntry filename true ∈ entries ->
        hidden filename = false ->
        extract_media_id_from_filename filename = Some id ->
        is_Some (media_map !! id))) /\
  (media_dir = None ->
   create_media_index files_completed media_dir use_parallel max_workers
   = Returned ∅) /\
  (0 < max_workers \/ use_parallel = false ->
   exists media_map,
     create_media_index files_completed media_dir use_parallel max_workers
     = Returned media_map).
Proof.
  split; [|split; [|apply media_index_returns]].
  - intros media_map Hret. split.
    + intros id filename H. destruct media_dir as [entries|];
        [|injection Hret as <-; rewrite lookup_empty in H; discriminate].
      destruct (media_index_is_merge _ _ _ _ Hret) as (l & Hl & ->).
      apply merge_files_lookup in H as [H|[Hin Hx]];
        [rewrite lookup_empty in H; discriminate|].
      rewrite Hl in Hin. apply visible_files_elem in Hin as [Hin Hh].
      exists entries. auto.
    + intros entries id filename -> Hin Hh Hx.
      destruct (media_index_is_merge _ _ _ _ Hret) as (l & Hl & ->).
      apply (merge_files_indexes l ∅ id filename); [|exact Hx].
      rewrite Hl. apply visible_files_elem. auto.
  - intros ->. reflexivity.
Qed.

End MediaIndexFacts.

Lemma names_in_order_perm (l : list string) : names_in_order l ≡ₚ l.
Proof. reflexivity. Qed.

Lemma media_index_sound_complete_witness :
  (forall media_map,
     create_media_index names_in_order
       (Some [DirEntry "2025-07-27_media~28E0.mp4" true; DirEntry ".DS_Store" true;
              DirEntry "2025-07-27_thumbnail~28E0.jpg" true]) false 4
     = Returned media_map ->
     (forall id filename,
        media_map !! id = Some filename ->
        exists entries,
          Some [DirEntry "2025-07-27_media~28E0.mp4" true; DirEntry ".DS_Store" true;
                DirEntry "2025-07-27_thumbnail~28E0.jpg" true] = Some entries /\
          DirEntry filename true ∈ entries /\ hidden filename = false /\
          extract_media_id_from_filename filename = Some id) /\
     (forall entries id filename,
        Some [DirEntry "2025-07-27_media~28E0.mp4" true; DirEntry ".DS_Store" true;
              DirEntry "2025-07-27_thumbnail~28E0.jpg" true] = Some entries ->
        DirEntry filename true ∈ entries ->
        hidden filename = false ->
        extract_media_id_from_filename filename = Some id ->
        is_Some (media_map !! id))) /\
  create_media_index names_in_order
    (Some [DirEntry "2025-07-27_media~28E0.mp4" true; DirEntry ".DS_Store" true;
           DirEntry "2025-07-27_thumbnail~28E0.jpg" true]) false 4
  = Returned {["media~28E0" := "2025-07-27_media~28E0.mp4"]}.
Proof.
  split; [|vm_compute; reflexivity].
  exact (proj1 (media_index_sound_complete names_in_order names_in_order_perm _ false 4)).
Defined.

(** X8: in the sequential branch the last file in directory order that
    yields an identifier is the one the index keeps for it. *)
Theorem media_index_last_wins (before after : list dir_entry) (filename id : string) :
  hidden filename = false ->
  extract_media_id_from_filename filename = Some id ->
  (forall g, g ∈ visible_files after -> extract_media_id_from_filename g <> Some id) ->
  forall files_completed max_workers,
  exists media_map,
    create_media_index files_completed
      (Some (before ++ DirEntry filename true :: after)) false max_workers
    = Returned media_map /\
    media_map !! id = Some filename.
Proof.
  intros Hh Hx Hafter files_completed max_workers. unfold create_media_index. simpl.
  eexists. split; [reflexivity|].
  rewrite scan_is_merge.
  assert (Hv : visible_files (before ++ DirEntry filename true :: after)
               = visible_files before ++ filename :: visible_files after).
  { induction before as [|e before IH]; simpl; [rewrite Hh; reflexivity|].
    rewrite IH. destruct (entry_is_file e && negb (hidden (entry_name e))); reflexivity. }
  rewrite Hv. apply merge_files_last; assumption.
Qed.

Lemma media_index_last_wins_witness :
  exists media_map,
    create_media_index names_in_order
      (Some ([DirEntry "2025-07-27_media~28E0.mp4" true]
             ++ DirEntry "2025-07-28_media~28E0.mov" true
             :: [DirEntry "2025-07-29_overlay~77AA.webp" true])) false 4
    = Returned media_map /\
    media_map !! "media~28E0" = Some "2025-07-28_media~28E0.mov".
Proof.
  apply (media_index_last_wins [DirEntry "2025-07-27_media~28E0.mp4" true]
           [DirEntry "2025-07-29_overlay~77AA.webp" true]
           "2025-07-28_media~28E0.mov" "media~28E0").
  - reflexivity.
  - reflexivity.
  - intros g Hg. apply list_elem_of_singleton in Hg. subst g. discriminate.
Defined.

Lemma distinct_ids_perm (l l' : list string) :
  l ≡ₚ l' -> distinct_ids l -> distinct_ids l'.
Proof.
  intros Hp Hd f1 f2 id H1 H2. rewrite <- Hp in H1, H2. apply Hd; assumption.
Qed.

Lemma distinct_ids_tail (x : string) (l : list string) :
  distinct_ids (x :: l) -> distinct_ids l.
Proof.
  intros Hd f1 f2 id H1 H2. apply Hd; apply elem_of_cons; auto.
Qed.

(** With distinct identifiers the merge does not depend on the order. *)
Lemma merge_files_perm (l l' : list string) :
  l ≡ₚ l' -> distinct_ids l ->
  forall m, merge_files l m = merge_files l' m.
Proof.
  induction 1 as [|x l l' Hp IH|x y l|l l' l'' Hp1 IH1 Hp2 IH2]; intros Hd m.
  - reflexivity.
  - rewrite !merge_files_cons. apply distinct_ids_tail in Hd.
    destruct (extract_media_id_from_filename x); apply IH; assumption.
  - rewrite (merge_files_cons y), (merge_files_cons x).
    destruct (extract_media_id_from_filename x) as [idx|] eqn:Ex;
      destruct (extract_media_id_from_filename y) as [idy|] eqn:Ey;
      repeat (rewrite merge_files_cons || rewrite Ex || rewrite Ey);
      try reflexivity.
    destruct (decide (idx = idy)) as [->|Hne].
    + assert (x = y) as ->; [|reflexivity].
      apply (Hd x y idy); try assumption; rewrite !elem_of_cons; auto.
    + f_equal. apply insert_insert_ne. congruence.
  - rewrite IH1 by assumption. apply IH2. eapply distinct_ids_perm; eassumption.
Qed.

Section MediaIndexOrder.

Variable files_completed : list string -> list string.
Hypothesis files_completed_perm : forall l, files_completed l ≡ₚ l.

(** X9: when no two files of the directory yield the same identifier and
    the pool has at least one worker, the parallel branch returns the same
    index as the sequential one, whatever the completion order, and every
    file that yields an identifier is the value of that identifier. *)
Theorem media_index_order_independent (entries : list dir_entry) (max_workers : Z) :
  distinct_ids (visible_files entries) -> 0 < max_workers ->
  create_media_index files_completed (Some entries) true max_workers
  = create_media_index files_completed (Some entries) false max_workers /\
  exists media_map,
    create_media_index files_completed (Some entries) true max_workers
    = Returned media_map /\
    forall (filename id : string),
      filename ∈ visible_files entries ->
      extract_media_id_from_filename filename = Some id ->
      media_map !! id = Some filename.
Proof.
  intros Hd Hworkers.
  assert (Heq : forall use_parallel,
            create_media_index files_completed (Some entries) use_parallel max_workers
            = Returned (merge_files (visible_files entries) ∅)).
  { intros use_parallel. unfold create_media_index.
    destruct (use_parallel && (1000 <? length (visible_files entries))%nat).
    - unfold thread_pool. destruct (Z.leb_spec max_workers 0); [lia|]. simpl.
      f_equal. symmetry.
      apply merge_files_perm; [symmetry; apply files_completed_perm | exact Hd].
    - f_equal. apply scan_is_merge. }
  split; [rewrite !Heq; reflexivity|].
  eexists. split; [apply Heq|].
  intros filename id Hin Hx.
  destruct (merge_files_indexes (visible_files entries) ∅ id filename Hin Hx)
    as [fn Hfn].
  rewrite Hfn. f_equal.
  apply merge_files_lookup in Hfn as [Hfn|[Hin' Hx']];
    [rewrite lookup_empty in Hfn; discriminate|].
  apply (Hd fn filename id); assumption.
Qed.

End MediaIndexOrder.

(** Names whose identifiers tell their positions have distinct
    identifiers. *)
Lemma distinct_ids_keyed (key : string -> nat) (name : nat -> string) (n : nat) :
  ids_keyed key name n = true -> distinct_ids (map name (seq 0 n)).
Proof.
  intros Hkeyed. unfold ids_keyed in Hkeyed. rewrite forallb_forall in Hkeyed.
  assert (Hpos : forall f id, f ∈ map name (seq 0 n) ->
            extract_media_id_from_filename f = Some id -> f = name (key id)).
  { intros f id Hf Hid. apply list_elem_of_fmap in Hf as (i & -> & Hi).
    apply list_elem_of_In in Hi. specialize (Hkeyed i Hi). rewrite Hid in Hkeyed.
    apply Nat.eqb_eq in Hkeyed. rewrite Hkeyed. reflexivity. }
  intros f1 f2 id H1 H2 E1 E2.
  rewrite (Hpos f1 id H1 E1), (Hpos f2 id H2 E2). reflexivity.
Qed.

Lemma visible_numbered (l : list nat) :
  visible_files (map (fun n => DirEntry (numbered_name n) true) l)
  = map numbered_name l.
Proof.
  induction l as [|n l IH]; [reflexivity|].
  cbn [map visible_files entry_is_file entry_name]. rewrite IH. reflexivity.
Qed.

Example many_entries_parallel :
  (1000 <? length (visible_files many_entries))%nat = true /\
  many_entries !! 700%nat = Some (DirEntry "2025-07-27_media~02BC.jpg" true) /\
  extract_media_id_from_filename "2025-07-27_media~02BC.jpg" = Some "media~02BC".
Proof. vm_compute. auto. Qed.

Lemma media_index_order_independent_witness :
  create_media_index (fun l => rev l) (Some many_entries) true 4
  = create_media_index (fun l => rev l) (Some many_entries) false 4 /\
  exists media_map,
    create_media_index (fun l => rev l) (Some many_entries) true 4
    = Returned media_map /\
    forall (filename id : string),
      filename ∈ visible_files many_entries ->
      extract_media_id_from_filename filename = Some id ->
      media_map !! id = Some filename.
Proof.
  apply (media_index_order_independent (fun l => rev l)
           (fun l => Permutation_sym (Permutation_rev l))).
  - unfold many_entries. rewrite visible_numbered.
    apply (distinct_ids_keyed id_number). vm_compute. reflexivity.
  - lia.
Defined.

(** ** More on the timestamp index and the search *)

Section IndexComplete.

Variable int_of_str : string -> option Z.

Lemma index_messages_complete (conv : string) (l : list pyval) :
  forall (idx i : nat) (m : pyval) (e : index_entry) (entries : list index_entry),
    l !! i = Some m ->
    index_message int_of_str conv (idx + i) m = Returned (Some e) ->
    index_messages int_of_str conv idx l = Returned entries ->
    e ∈ entries.
Proof.
  induction l as [|m0 l IH]; intros idx i m e entries Hl He Hret; [discriminate|].
  simpl in Hret.
  destruct (index_message int_of_str conv idx m0) as [appended| |] eqn:E0;
    simpl in Hret; try discriminate.
  destruct (index_messages int_of_str conv (S idx) l) as [others| |] eqn:Er;
    simpl in Hret; try discriminate.
  injection Hret as <-.
  destruct i as [|i]; simpl in Hl.
  - injection Hl as ->. rewrite Nat.add_0_r in He. rewrite He in E0.
    injection E0 as <-. apply elem_of_cons. auto.
  - assert (Hin : e ∈ others).
    { apply (IH (S idx) i m e others Hl); [|exact Er].
      replace (S idx + i)%nat with (idx + S i)%nat by lia. exact He. }
    destruct appended; [apply elem_of_cons|]; auto.
Qed.

Lemma index_conversations_complete (messages : pydict) (conv : string)
    (l : list pyval) (i : nat) (m : pyval) (e : index_entry) :
  (conv, PyList l) ∈ messages -> l !! i = Some m ->
  index_message int_of_str conv i m = Returned (Some e) ->
  forall entries,
    index_conversations int_of_str messages = Returned entries -> e ∈ entries.
Proof.
  intros Hin Hl He. induction messages as [|[conv0 v] rest IH]; intros entries Hret.
  - apply elem_of_nil in Hin. contradiction.
  - simpl in Hret. apply elem_of_cons in Hin as [Heq|Hin].
    + injection Heq as <- <-.
      destruct (index_messages int_of_str conv 0 l) as [mine| |] eqn:E;
        simpl in Hret; try discriminate.
      destruct (index_conversations int_of_str rest) as [others| |];
        simpl in Hret; try discriminate.
      injection Hret as <-. apply elem_of_app. left.
      exact (index_messages_complete conv l 0 i m e mine Hl He E).
    + specialize (IH Hin).
      destruct v as [| | | | |l0|]; try exact (IH _ Hret).
      destruct (index_messages int_of_str conv0 0 l0) as [mine| |];
        simpl in Hret; try discriminate.
      destruct (index_conversations int_of_str rest) as [others| |];
        simpl in Hret; try discriminate.
      injection Hret as <-. apply elem_of_app. right. apply IH. reflexivity.
Qed.

(** X10: every eligible message is indexed.  A dictionary in a
    conversation list, without a truthy [matched_media_files] and with a
    truthy timestamp that [int] accepts, has an entry with its
    conversation, position and timestamp in the index that is built. *)
Theorem eligible_message_indexed (messages : pydict) (conv : string)
    (l : list pyval) (i : nat) (d : pydict) (z : Z) (index : list index_entry) :
  (conv, PyList l) ∈ messages -> l !! i = Some (PyDict d) ->
  truthy (dict_get "matched_media_files" d) = false ->
  truthy (dict_get "Created(microseconds)" d) = true ->
  py_int int_of_str (dict_get "Created(microseconds)" d) = inl z ->
  build_millisecond_index int_of_str messages = Returned index ->
  IndexEntry z conv i d ∈ index.
Proof.
  intros Hin Hl Hm Ht Hz. unfold build_millisecond_index.
  destruct (index_conversations int_of_str messages) as [entries| |] eqn:E; simpl;
    try discriminate.
  intros [= <-]. apply sort_by_key_elem.
  apply (index_conversations_complete messages conv l i (PyDict d) _ Hin Hl);
    [|exact E].
  unfold index_message. rewrite Hm, Ht, Hz. reflexivity.
Qed.

End IndexComplete.

Lemma eligible_message_indexed_witness :
  exists index,
    build_millisecond_index no_int_of_str
      [("conv", PyList [PyDict [("Created(microseconds)", PyInt 2000);
                                ("matched_media_files", PyList [PyStr "a.jpg"])];
                        PyDict [("Created(microseconds)", PyInt 1000)]])]
    = Returned index /\
    IndexEntry 1000 "conv" 1 [("Created(microseconds)", PyInt 1000)] ∈ index.
Proof.
  eexists. split; [vm_compute; reflexivity|].
  apply (eligible_message_indexed no_int_of_str
           [("conv", PyList [PyDict [("Created(microseconds)", PyInt 2000);
                                     ("matched_media_files", PyList [PyStr "a.jpg"])];
                             PyDict [("Created(microseconds)", PyInt 1000)]])]
           "conv"
           [PyDict [("Created(microseconds)", PyInt 2000);
                    ("matched_media_files", PyList [PyStr "a.jpg"])];
            PyDict [("Created(microseconds)", PyInt 1000)]] 1
           [("Created(microseconds)", PyInt 1000)] 1000).
  - apply elem_of_cons. left. reflexivity.
  - reflexivity.
  - reflexivity.
  - reflexivity.
  - reflexivity.
  - vm_compute. reflexivity.
Defined.

Section SearchAnyIndex.

Variable index : list index_entry.
Variables t thr : Z.

Lemma walk_left_any (k : nat) :
  forall (idx : Z) (acc : list candidate),
    Z.to_nat (idx + 1) = k -> -1 <= idx < Z.of_nat (length index) ->
    exists cs : list candidate,
      walk_left index t thr idx acc = Returned (acc ++ cs) /\
      forall c, c ∈ cs -> exists e, e ∈ index /\ c = candidate_of t e.
Proof.
  induction k as [|k IH]; intros idx acc Hk Hidx; rewrite walk_left_eq;
    destruct (Z_le_dec 0 idx) as [H0|H0]; try lia.
  - exists []. rewrite app_nil_r. split; [reflexivity|].
    intros c Hc. apply elem_of_nil in Hc. contradiction.
  - destruct (getitem_in_range index idx) as (e & -> & He); [lia|]. simpl.
    destruct (t - timestamp_ms e >? thr).
    + exists []. rewrite app_nil_r. split; [reflexivity|].
      intros c Hc. apply elem_of_nil in Hc. contradiction.
    + destruct (IH (idx - 1)
                  (acc ++ [Candidate (conv_id e) (msg_idx e) (message e) (t - timestamp_ms e)])
                  ltac:(lia) ltac:(lia)) as (cs & -> & Hcs).
      exists (candidate_of t e :: cs). split; [rewrite <- app_assoc; reflexivity|].
      intros c Hc. apply elem_of_cons in Hc as [->|Hc]; [|auto].
      exists e. split; [eapply list_elem_of_lookup_2; eassumption | reflexivity].
Qed.

Lemma walk_right_any (k : nat) :
  forall (idx : Z) (acc : list candidate),
    Z.to_nat (Z.of_nat (length index) - idx) = k ->
    0 <= idx <= Z.of_nat (length index) ->
    exists cs : list candidate,
      walk_right index t thr idx acc = Returned (acc ++ cs) /\
      forall c, c ∈ cs -> exists e, e ∈ index /\ c = candidate_of t e.
Proof.
  induction k as [|k IH]; intros idx acc Hk Hidx; rewrite walk_right_eq;
    destruct (Z_lt_dec idx (Z.of_nat (length index))) as [H0|H0]; try lia.
  - exists []. rewrite app_nil_r. split; [reflexivity|].
    intros c Hc. apply elem_of_nil in Hc. contradiction.
  - destruct (getitem_in_range index idx) as (e & -> & He); [lia|]. simpl.
    destruct (timestamp_ms e - t >? thr).
    + exists []. rewrite app_nil_r. split; [reflexivity|].
      intros c Hc. apply elem_of_nil in Hc. contradiction.
    + destruct (IH (idx + 1)
                  (acc ++ [Candidate (conv_id e) (msg_idx e) (message e) (- (timestamp_ms e - t))])
                  ltac:(lia) ltac:(lia)) as (cs & -> & Hcs).
      assert (Hc : Candidate (conv_id e) (msg_idx e) (message e) (- (timestamp_ms e - t))
                   = candidate_of t e) by (unfold candidate_of; f_equal; lia).
      rewrite Hc. exists (candidate_of t e :: cs).
      split; [rewrite <- app_assoc; reflexivity|].
      intros c Hc'. apply elem_of_cons in Hc' as [->|Hc']; [|auto].
      exists e. split; [eapply list_elem_of_lookup_2; eassumption | reflexivity].
Qed.

(** X11: the search never raises.  On any index, sorted or not, every
    subscript is in range: the call returns, and a match it returns is
    built from an entry of the index with the signed difference to it. *)
Theorem search_never_raises :
  exists r : option candidate,
    find_closest_message_binary t index thr = Returned r /\
    forall c, r = Some c ->
      exists e, e ∈ index /\ c = candidate_of t e /\
                diff_ms c = t - timestamp_ms e.
Proof.
  unfold find_closest_message_binary.
  destruct (decide (index = [])) as [Hnil|Hne].
  { rewrite Hnil. exists None. split; [reflexivity | discriminate]. }
  assert (Hn : 0 < Z.of_nat (length index)) by (destruct index; [contradiction | simpl; lia]).
  assert (Hcons : forall A (a b : A),
            match index with [] => a | _ :: _ => b end = b)
    by (intros; destruct index; [contradiction | reflexivity]).
  rewrite Hcons.
  destruct (bisect_spec index t (Z.to_nat (Z.of_nat (length index) - 1 - 0 + 1)) 0
              (Z.of_nat (length index) - 1) eq_refl ltac:(lia) ltac:(lia) ltac:(lia))
    as (lo & -> & Hb & _).
  simpl.
  destruct (walk_left_any (Z.to_nat (lo - 1 + 1)) (lo - 1) [] eq_refl ltac:(lia))
    as (cs1 & -> & Hcs1).
  simpl.
  destruct (walk_right_any (Z.to_nat (Z.of_nat (length index) - lo)) lo cs1 eq_refl ltac:(lia))
    as (cs2 & -> & Hcs2).
  simpl. eexists. split; [reflexivity|].
  intros c Hc. destruct (cs1 ++ cs2) as [|c0 cs] eqn:Hcs; [discriminate|].
  injection Hc as <-.
  destruct (py_min_spec (fun x => Z.abs (diff_ms x)) cs c0) as [Hin _].
  rewrite <- Hcs in Hin. apply elem_of_app in Hin as [Hin|Hin];
    [apply Hcs1 in Hin | apply Hcs2 in Hin];
    destruct Hin as (e & He & Heq); exists e; rewrite Heq; auto.
Qed.

End SearchAnyIndex.

Example search_unsorted_index :
  find_closest_message_binary 105 (sample_index [120; 100; 107; 101; 104]) 3
  = Returned None /\
  find_closest_message_binary 99 (sample_index [100; 120; 107; 101; 104]) 3
  = Returned (Some (candidate_of 99
                      (IndexEntry 100 "conv" 0 [("Created(microseconds)", PyInt 100)]))).
Proof. split; reflexivity. Qed.

(** The candidates in the order the walks collect them: the earlier
    messages within the threshold first, then the later ones. *)
Lemma find_closest_sides (index : list index_entry) (t thr : Z) :
  index_sorted index ->
  exists earlier later : list candidate,
    find_closest_message_binary t index thr
    = Returned match earlier ++ later with
               | [] => None
               | c :: cs => Some (py_min (fun x => Z.abs (diff_ms x)) c cs)
               end /\
    (forall c, c ∈ earlier <->
       exists e, e ∈ index /\ timestamp_ms e < t /\ t - timestamp_ms e <= thr /\
                 c = candidate_of t e) /\
    (forall c, c ∈ later <->
       exists e, e ∈ index /\ t <= timestamp_ms e /\ timestamp_ms e - t <= thr /\
                 c = candidate_of t e).
Proof.
  intros Hs. unfold find_closest_message_binary.
  destruct index as [|e0 rest] eqn:Hindex.
  { exists [], []. split; [reflexivity|]. split; intros c; split;
      try (intros H; apply elem_of_nil in H; contradiction);
      intros (e & He & _); apply elem_of_nil in He; contradiction. }
  rewrite <- Hindex in *.
  assert (Hn : 0 < Z.of_nat (length index)) by (rewrite Hindex; simpl; lia).
  set (n := Z.of_nat (length index)) in *.
  destruct (bisect_spec index t (Z.to_nat (n - 1 - 0 + 1)) 0 (n - 1) eq_refl
              ltac:(lia) ltac:(lia) ltac:(lia))
    as (lo & -> & Hb & Hl & Hr).
  simpl.
  destruct (walk_left_spec index t thr Hs
              (Z.to_nat (lo - 1 + 1)) (lo - 1) [] eq_refl ltac:(lia))
    as (cs1 & -> & Hcs1).
  simpl.
  destruct (walk_right_spec index t thr Hs
              (Z.to_nat (n - lo)) lo cs1 eq_refl ltac:(lia))
    as (cs2 & -> & Hcs2).
  simpl. exists cs1, cs2. split; [reflexivity|].
  assert (Hbelow : forall i e, Z.of_nat i <= lo - 1 -> index !! i = Some e ->
                               timestamp_ms e < t).
  { intros i e Hi He. destruct Hl as [->|(e1 & He1 & Hlt)]; [lia|].
    pose proof (index_sorted_le index Hs i (Z.to_nat (lo - 1)) e e1
                  ltac:(lia) He He1). lia. }
  assert (Habove : forall i e, lo <= Z.of_nat i -> index !! i = Some e ->
                               t <= timestamp_ms e).
  { intros i e Hi He. pose proof (lookup_lt_Some _ _ _ He) as Hlen.
    destruct Hr as [->|(e1 & He1 & Hge)]; [lia|].
    pose proof (index_sorted_le index Hs (Z.to_nat lo) i e1 e
                  ltac:(lia) He1 He). lia. }
  split; intros c; [rewrite Hcs1 | rewrite Hcs2]; split.
  - intros (i & e & Hi & He & Hd & ->). exists e.
    split; [eapply list_elem_of_lookup_2; eassumption|].
    split; [eapply Hbelow; eassumption | auto].
  - intros (e & He & Hlt & Hd & ->). apply list_elem_of_lookup_1 in He as [i He].
    exists i, e. repeat split; try assumption.
    destruct (Z_le_dec (Z.of_nat i) (lo - 1)) as [|Hi]; [assumption|].
    pose proof (Habove i e ltac:(lia) He). lia.
  - intros (i & e & Hi & He & Hd & ->). exists e.
    split; [eapply list_elem_of_lookup_2; eassumption|].
    split; [eapply Habove; eassumption | auto].
  - intros (e & He & Hge & Hd & ->). apply list_elem_of_lookup_1 in He as [i He].
    exists i, e. repeat split; try assumption.
    destruct (Z_le_dec lo (Z.of_nat i)) as [|Hi]; [assumption|].
    pose proof (Hbelow i e ltac:(lia) He). lia.
Qed.

Lemma py_min_app {A : Type} (key : A -> Z) (l1 l2 : list A) :
  forall x, py_min key x (l1 ++ l2) = py_min key (py_min key x l1) l2.
Proof.
  induction l1 as [|y l1 IH]; intros x; simpl; [reflexivity | apply IH].
Qed.

(** [min] replaces its current best only by a strictly smaller key. *)
Lemma py_min_keeps {A : Type} (key : A -> Z) (l : list A) :
  forall b, py_min key b l = b \/
            (py_min key b l ∈ l /\ key (py_min key b l) < key b).
Proof.
  induction l as [|y l IH]; intros b; simpl; [auto|].
  destruct (Z.ltb_spec (key y) (key b)) as [Hlt|Hge].
  - destruct (IH y) as [->|[Hin Hk]].
    + right. split; [apply elem_of_cons; auto | exact Hlt].
    + right. split; [apply elem_of_cons; auto | lia].
  - destruct (IH b) as [->|[Hin Hk]]; [auto|].
    right. split; [apply elem_of_cons; auto | exact Hk].
Qed.

(** X12: ties go to the earlier message.  On a sorted index, when an entry
    strictly before the query is within the threshold and no entry is
    closer than it, the match is a message before the query: its
    difference is positive, even if a later message is equally close. *)
Theorem tie_goes_to_earlier_message (index : list index_entry) (t thr : Z)
    (e : index_entry) :
  index_sorted index -> e ∈ index -> timestamp_ms e < t ->
  t - timestamp_ms e <= thr ->
  (forall e', e' ∈ index -> t - timestamp_ms e <= Z.abs (t - timestamp_ms e')) ->
  exists e1,
    e1 ∈ index /\ timestamp_ms e1 < t /\
    find_closest_message_binary t index thr = Returned (Some (candidate_of t e1)) /\
    diff_ms (candidate_of t e1) = t - timestamp_ms e.
Proof.
  intros Hs He Hlt Hthr Hmin.
  destruct (find_closest_sides index t thr Hs) as (cs1 & cs2 & -> & H1 & H2).
  assert (Hin : candidate_of t e ∈ cs1) by (apply H1; exists e; auto).
  destruct cs1 as [|c cs1']; [apply elem_of_nil in Hin; contradiction|].
  change ((c :: cs1') ++ cs2) with (c :: (cs1' ++ cs2)). cbv beta iota.
  rewrite py_min_app.
  set (key := fun x : candidate => Z.abs (diff_ms x)) in *.
  destruct (py_min_spec key cs1' c) as [Hb Hbmin].
  set (b := py_min key c cs1') in *.
  assert (Hkb : key b <= t - timestamp_ms e).
  { specialize (Hbmin _ Hin). unfold key in Hbmin at 2. simpl in Hbmin. lia. }
  assert (Hres : py_min key b cs2 = b).
  { destruct (py_min_keeps key cs2 b) as [Heq|[Hin2 Hk]]; [exact Heq|].
    exfalso. apply H2 in Hin2 as (e2 & He2 & _ & _ & Heq2).
    rewrite Heq2 in Hk. unfold key in Hk at 1. simpl in Hk.
    specialize (Hmin e2 He2). lia. }
  rewrite Hres. apply H1 in Hb as (e1 & He1 & Hlt1 & Hd1 & Hb).
  exists e1. split; [assumption|]. split; [assumption|].
  split; [rewrite Hb; reflexivity|].
  rewrite Hb in Hkb. unfold key in Hkb. simpl in Hkb |- *.
  specialize (Hmin e1 He1). lia.
Qed.

Lemma tie_goes_to_earlier_message_witness :
  exists e1,
    e1 ∈ sample_index [100; 102; 106; 120] /\ timestamp_ms e1 < 104 /\
    find_closest_message_binary 104 (sample_index [100; 102; 106; 120]) 5
    = Returned (Some (candidate_of 104 e1)) /\
    diff_ms (candidate_of 104 e1)
    = 104 - timestamp_ms (IndexEntry 102 "conv" 1 [("Created(microseconds)", PyInt 102)]).
Proof.
  apply (tie_goes_to_earlier_message (sample_index [100; 102; 106; 120]) 104 5
           (IndexEntry 102 "conv" 1 [("Created(microseconds)", PyInt 102)])).
  - apply index_sortedb_sound. reflexivity.
  - apply (list_elem_of_lookup_2 _ 1%nat). reflexivity.
  - simpl. lia.
  - simpl. lia.
  - intros e' He'. unfold sample_index in He'. simpl in He'.
    repeat (apply elem_of_cons in He' as [->|He']; [simpl; lia|]).
    apply elem_of_nil in He'. contradiction.
Defined.

(** ** The batch matcher under scheduling *)

Section BatchOrder.

Variable parse_mp4_timestamp_ffprobe : mp4_file -> option Z.
Variable fuel : nat.
Variable index : list index_entry.
Variable threshold_ms : Z.
Hypothesis index_is_sorted : index_sorted index.

Local Abbreviation extract :=
  (fun f => Mp4.extract_mp4_timestamp parse_mp4_timestamp_ffprobe fuel f true).
Local Abbreviation worker :=
  (process_mp4 parse_mp4_timestamp_ffprobe fuel index threshold_ms).
Local Abbreviation par_loop :=
  (parallel_loop parse_mp4_timestamp_ffprobe fuel index threshold_ms).

Lemma worker_cases (f : mp4_file) :
  (exists r, extract f = Returned r) ->
  worker f = Returned None \/ exists v, worker f = Returned (Some (file_name f, v)).
Proof.
  intros [r Hr].
  destruct (worker_result parse_mp4_timestamp_ffprobe fuel index threshold_ms
              index_is_sorted f r Hr) as [H | (v & H & _)]; eauto.
Qed.

Lemma par_loop_perm (l l' : list mp4_file) :
  l ≡ₚ l' -> NoDup (map file_name l) ->
  (forall f, f ∈ l -> exists r, extract f = Returned r) ->
  forall m, par_loop l m = par_loop l' m.
Proof.
  induction 1 as [|x l l' Hp IH|x y l|l l' l'' Hp1 IH1 Hp2 IH2]; intros Hnd Hret m.
  - reflexivity.
  - simpl in Hnd. apply NoDup_cons in Hnd as [_ Hnd]. simpl.
    assert (Hret' : forall f, f ∈ l -> exists r, extract f = Returned r)
      by (intros f Hf; apply Hret, elem_of_cons; auto).
    destruct (worker x) as [[[k v]|]| |]; simpl; auto.
  - simpl in Hnd. apply NoDup_cons in Hnd as [Hyx Hnd].
    assert (Hne : file_name y <> file_name x).
    { intros Heq. apply Hyx. rewrite Heq. apply elem_of_cons. auto. }
    simpl.
    destruct (worker_cases x ltac:(apply Hret; rewrite !elem_of_cons; auto))
      as [-> | (vx & ->)];
      destruct (worker_cases y ltac:(apply Hret; rewrite !elem_of_cons; auto))
        as [-> | (vy & ->)]; simpl; try reflexivity.
    f_equal. apply insert_insert_ne. congruence.
  - rewrite IH1 by assumption. apply IH2.
    + pose proof (Permutation_map file_name Hp1) as Hpm. rewrite <- Hpm. exact Hnd.
    + intros f Hf. apply Hret. rewrite Hp1. exact Hf.
Qed.

End BatchOrder.

(** X13: the result of a batch does not depend on the scheduling.  When
    the files have distinct names, every extraction returns, the pool has
    at least one worker and the threshold is below the float limit, the
    parallel branch ends as the sequential branch does, with the same
    mapping, whatever order the workers complete in. *)
Theorem batch_order_independent (int_of_str : string -> option Z)
    (parse_mp4_timestamp_ffprobe : mp4_file -> option Z)
    (as_completed : list mp4_file -> list mp4_file)
    (fuel : nat) (files : list mp4_file) (messages : pydict)
    (threshold_seconds max_workers : Z) :
  (forall l, as_completed l ≡ₚ l) ->
  NoDup (map file_name files) ->
  (forall f, f ∈ files ->
     exists r, Mp4.extract_mp4_timestamp parse_mp4_timestamp_ffprobe fuel f true
               = Returned r) ->
  0 < max_workers -> threshold_seconds < float_limit ->
  match_mp4_timestamps int_of_str parse_mp4_timestamp_ffprobe as_completed
    fuel files messages threshold_seconds true max_workers
  = match_mp4_timestamps int_of_str parse_mp4_timestamp_ffprobe as_completed
      fuel files messages threshold_seconds false max_workers.
Proof.
  intros Hperm Hnd Hret Hworkers Hthr. unfold match_mp4_timestamps.
  destruct (build_millisecond_index int_of_str messages) as [index| |] eqn:Hindex;
    simpl; try reflexivity.
  pose proof (built_index_sorted int_of_str messages index Hindex) as Hs.
  destruct index as [|e0 rest]; [reflexivity|].
  destruct (10 <? length files)%nat; [|reflexivity].
  unfold thread_pool. destruct (Z.leb_spec max_workers 0); [lia|]. simpl.
  rewrite sequential_is_parallel by (assumption || lia). symmetry.
  apply par_loop_perm; try assumption. symmetry. apply Hperm.
Qed.

Lemma batch_order_independent_witness :
  match_mp4_timestamps no_int_of_str no_ffprobe (fun l => rev l)
    10 eleven_files sample_messages 10 true 4
  = match_mp4_timestamps no_int_of_str no_ffprobe (fun l => rev l)
      10 eleven_files sample_messages 10 false 4.
Proof.
  apply batch_order_independent.
  - intros l. symmetry. apply Permutation_rev.
  - apply (bool_decide_unpack (NoDup (map file_name eleven_files))).
    vm_compute. reflexivity.
  - intros f Hf. unfold eleven_files in Hf. simpl in Hf.
    repeat (apply elem_of_cons in Hf as [->|Hf]; [eexists; vm_compute; reflexivity|]).
    apply elem_of_nil in Hf. contradiction.
  - lia.
  - vm_compute. reflexivity.
Defined.

Example eleven_files_parallel :
  (10 <? length eleven_files)%nat = true /\
  match_mp4_timestamps no_int_of_str no_ffprobe (fun l => rev l)
    10 eleven_files sample_messages 10 true 0 = Raised /\
  exists matches,
    match_mp4_timestamps no_int_of_str no_ffprobe (fun l => rev l)
      10 eleven_files sample_messages 10 false 0 = Returned matches.
Proof.
  split; [reflexivity|]. split; [vm_compute; reflexivity|].
  eexists. vm_compute. reflexivity.
Qed.

(** ** The atom loop of the MP4 parser *)

Lemma find_moov_S (fuel : nat) (data : list byte) (pos : Z) :
  Mp4.find_moov (S fuel) data pos =
  match moov_step data pos with
  | LoopEnds found => Returned found
  | LoopContinues pos' => Mp4.find_moov fuel data pos'
  end.
Proof.
  unfold moov_step. cbn [Mp4.find_moov].
  destruct (length (Mp4.read data pos Mp4.ATOM_HEADER_SIZE) <? Mp4.ATOM_HEADER_SIZE)%nat;
    [reflexivity|].
  destruct (bool_decide _); [reflexivity|].
  destruct (Mp4.unpack 4 _) as [atom_size|]; [|reflexivity].
  destruct (atom_size =? 0); [reflexivity|].
  destruct (atom_size =? 1).
  - destruct (Mp4.unpack 8 _) as [extended_size|]; [|reflexivity].
    destruct (Mp4.seek _ _); reflexivity.
  - destruct (Mp4.seek _ _); reflexivity.
Qed.

Lemma be_uint_bound (bs : list byte) :
  0 <= Mp4.be_uint bs < 256 ^ Z.of_nat (length bs).
Proof.
  unfold Mp4.be_uint.
  assert (H : forall acc, 0 <= acc ->
            acc * 256 ^ Z.of_nat (length bs)
            <= foldl (fun acc b => acc * 256 + Z.of_N (Byte.to_N b)) acc bs
            < (acc + 1) * 256 ^ Z.of_nat (length bs)).
  { induction bs as [|b bs IH]; intros acc Hacc.
    - simpl. lia.
    - cbn [foldl length]. pose proof (Byte.to_N_bounded b) as Hb.
      assert (Hb' : 0 <= Z.of_N (Byte.to_N b) <= 255) by lia.
      specialize (IH (acc * 256 + Z.of_N (Byte.to_N b)) ltac:(lia)).
      rewrite Nat2Z.inj_succ, Z.pow_succ_r by lia.
      assert (Hpow : 0 < 256 ^ Z.of_nat (length bs)) by (apply Z.pow_pos_nonneg; lia).
      nia. }
  specialize (H 0 ltac:(lia)). lia.
Qed.

Lemma unpack_bound (n : nat) (bs : list byte) (v : Z) :
  Mp4.unpack n bs = Some v -> 0 <= v < 256 ^ Z.of_nat n.
Proof.
  unfold Mp4.unpack. destruct (Nat.eqb_spec (length bs) n) as [<-|]; [|discriminate].
  intros [= <-]. apply be_uint_bound.
Qed.

Lemma read_length (data : list byte) (pos : Z) (n : nat) :
  0 <= pos -> (0 < n)%nat -> length (Mp4.read data pos n) = n ->
  pos + Z.of_nat n <= Z.of_nat (length data).
Proof.
  unfold Mp4.read. intros Hpos Hn H.
  rewrite length_take, length_drop in H. lia.
Qed.

(** A pass that goes on has read a whole header and does not move the
    file backwards. *)
Lemma moov_step_continues (data : list byte) (pos pos' : Z) :
  0 <= pos -> moov_step data pos = LoopContinues pos' ->
  pos + 8 <= Z.of_nat (length data) /\ pos <= pos'.
Proof.
  intros Hpos. unfold moov_step.
  destruct (Nat.ltb_spec (length (Mp4.read data pos Mp4.ATOM_HEADER_SIZE))
              Mp4.ATOM_HEADER_SIZE) as [|Hlen]; [discriminate|].
  assert (Hl : length (Mp4.read data pos Mp4.ATOM_HEADER_SIZE) = 8%nat).
  { unfold Mp4.read, Mp4.ATOM_HEADER_SIZE in *. rewrite length_take in *. lia. }
  rewrite Hl. pose proof (read_length data pos 8 Hpos ltac:(lia) Hl) as Hfit.
  destruct (bool_decide _); [discriminate|].
  destruct (Mp4.unpack 4 _) as [atom_size|] eqn:Hsize; [|discriminate].
  apply unpack_bound in Hsize.
  destruct (Z.eqb_spec atom_size 0); [discriminate|].
  destruct (Z.eqb_spec atom_size 1).
  - destruct (Mp4.unpack 8 _) as [extended_size|] eqn:Hext; [|discriminate].
    pose proof Hext as Hext'. apply unpack_bound in Hext'.
    unfold Mp4.unpack in Hext.
    destruct (Nat.eqb_spec (length (Mp4.read data (pos + Z.of_nat 8) 8)) 8) as [He|];
      [|discriminate].
    rewrite He. unfold Mp4.seek.
    destruct (_ && _); [|discriminate]. intros [= <-]. lia.
  - unfold Mp4.seek. destruct (_ && _); [|discriminate]. intros [= <-]. lia.
Qed.

Lemma find_moov_more_fuel (k : nat) (data : list byte) :
  forall (fuel : nat) (pos : Z) (r : option Z),
    Mp4.find_moov fuel data pos = Returned r ->
    Mp4.find_moov (fuel + k) data pos = Returned r.
Proof.
  induction fuel as [|fuel IH]; intros pos r H; [discriminate|].
  change (S fuel + k)%nat with (S (fuel + k)).
  rewrite find_moov_S in *. destruct (moov_step data pos); [exact H | auto].
Qed.

Lemma find_moov_outcome (data : list byte) :
  forall (fuel : nat) (pos : Z), Mp4.find_moov fuel data pos <> Raised.
Proof.
  induction fuel as [|fuel IH]; intros pos; [discriminate|].
  rewrite find_moov_S. destruct (moov_step data pos); [discriminate | apply IH].
Qed.

(** Running out of fuel near the end of the file means the loop does not
    end at all. *)
Lemma find_moov_stuck (data : list byte) :
  forall (fuel : nat) (pos : Z),
    0 <= pos -> Z.of_nat (length data) < pos + 8 + Z.of_nat fuel ->
    Mp4.find_moov (S fuel) data pos = OutOfFuel ->
    forall fuel', Mp4.find_moov fuel' data pos = OutOfFuel.
Proof.
  induction fuel as [|fuel IH]; intros pos Hpos Hlen H; rewrite find_moov_S in H;
    destruct (moov_step data pos) as [found|pos'] eqn:Hstep; try discriminate;
    destruct (moov_step_continues data pos pos' Hpos Hstep) as [Hfit Hle].
  - lia.
  - destruct (Z.eq_dec pos' pos) as [->|Hne].
    + intros fuel'. induction fuel' as [|fuel' IH']; [reflexivity|].
      rewrite find_moov_S, Hstep. exact IH'.
    + assert (Hall : forall fuel', Mp4.find_moov fuel' data pos' = OutOfFuel)
        by (apply IH; [lia | lia | exact H]).
      intros [|fuel']; [reflexivity|]. rewrite find_moov_S, Hstep. apply Hall.
Qed.

Lemma parse_binary_of_find_moov (fuel : nat) (data : list byte) :
  Mp4.parse_mp4_timestamp_binary fuel data =
  match Mp4.find_moov fuel data 0 with
  | Returned found =>
      Returned ((found ≫= Mp4.mvhd_creation_time data) ≫= Mp4.unix_ms)
  | Raised => Raised
  | OutOfFuel => OutOfFuel
  end.
Proof.
  unfold Mp4.parse_mp4_timestamp_binary, Mp4.creation_time.
  destruct (Mp4.find_moov fuel data 0); reflexivity.
Qed.

(** X14: the atom loop ends within [len(data) + 1] passes or never.  A
    result obtained with any fuel is the result with fuel
    [length data + 1]; if that fuel runs out, every fuel does. *)
Theorem binary_parser_fuel_bound (data : list byte) :
  (forall fuel r,
     Mp4.parse_mp4_timestamp_binary fuel data = Returned r ->
     Mp4.parse_mp4_timestamp_binary (S (length data)) data = Returned r) /\
  (Mp4.parse_mp4_timestamp_binary (S (length data)) data = OutOfFuel ->
   forall fuel, Mp4.parse_mp4_timestamp_binary fuel data = OutOfFuel).
Proof.
  assert (Hstuck : Mp4.find_moov (S (length data)) data 0 = OutOfFuel ->
                   forall fuel, Mp4.find_moov fuel data 0 = OutOfFuel)
    by (apply find_moov_stuck; lia).
  split.
  - intros fuel r H. rewrite parse_binary_of_find_moov in *.
    destruct (Mp4.find_moov fuel data 0) as [found| |] eqn:E; try discriminate.
    destruct (Mp4.find_moov (S (length data)) data 0) as [found'| |] eqn:E'.
    + apply (find_moov_more_fuel (S (length data))) in E.
      apply (find_moov_more_fuel fuel) in E'.
      rewrite Nat.add_comm in E'. rewrite E in E'. injection E' as <-. exact H.
    + exfalso. exact (find_moov_outcome data _ _ E').
    + rewrite (Hstuck eq_refl fuel) in E. discriminate.
  - intros H fuel. rewrite parse_binary_of_find_moov in *.
    destruct (Mp4.find_moov (S (length data)) data 0) eqn:E; try discriminate.
    rewrite (Hstuck eq_refl fuel). reflexivity.
Qed.

Example fuel_bound_on_sample :
  Mp4.parse_mp4_timestamp_binary
    (S (length (file_bytes (sample_mp4 "a.mp4" 2082844801))))
    (file_bytes (sample_mp4 "a.mp4" 2082844801)) = Returned (Some 1000).
Proof. vm_compute. reflexivity. Qed.

(** ** What the binary parser returns *)

(** X15: a timestamp returned by the binary parser is the creation time
    of the [mvhd] box, a positive number of seconds below [2^64], moved to
    the Unix epoch and multiplied by 1000: a whole number of seconds,
    later than 1904-01-01 00:00:00 UTC. *)
Theorem binary_timestamp_whole_seconds (fuel : nat) (data : list byte) (t : Z) :
  Mp4.parse_mp4_timestamp_binary fuel data = Returned (Some t) ->
  exists creation_time,
    Mp4.creation_time fuel data = Returned (Some creation_time) /\
    0 < creation_time < 2 ^ 64 /\
    t = (creation_time - 2082844800) * 1000 /\
    t mod 1000 = 0 /\ - 2082844800000 < t.
Proof.
  unfold Mp4.parse_mp4_timestamp_binary. intros H.
  destruct (Mp4.creation_time fuel data) as [[ct|]| |] eqn:Hct; try discriminate.
  simpl in H. unfold Mp4.unix_ms in H.
  destruct (Z.gtb_spec ct 0) as [Hpos|]; [|discriminate].
  injection H as <-. exists ct. split; [reflexivity|].
  assert (Hbound : 0 <= ct < 2 ^ 64).
  { unfold Mp4.creation_time in Hct.
    destruct (Mp4.find_moov fuel data 0) as [[p|]| |]; try discriminate.
    simpl in Hct. injection Hct as Hct. unfold Mp4.mvhd_creation_time in Hct.
    destruct (bool_decide _); [discriminate|].
    destruct (negb _); [discriminate|].
    destruct (Mp4.read data _ 1) as [|version rest]; [discriminate|].
    destruct (Mp4.seek _ 3) as [p'|]; [|discriminate]. simpl in Hct.
    destruct (_ =? 0); apply unpack_bound in Hct.
    - change (256 ^ Z.of_nat 4) with (2 ^ 32) in Hct. lia.
    - exact Hct. }
  unfold Mp4.QUICKTIME_EPOCH_ADJUSTER.
  split; [lia | split; [reflexivity | split; [apply Z_mod_mult | lia]]].
Qed.

Lemma binary_timestamp_whole_seconds_witness :
  exists creation_time,
    Mp4.creation_time 3 (file_bytes (sample_mp4 "a.mp4" 2082844801))
      = Returned (Some creation_time) /\
    0 < creation_time < 2 ^ 64 /\
    1000 = (creation_time - 2082844800) * 1000 /\
    1000 mod 1000 = 0 /\ - 2082844800000 < 1000.
Proof.
  apply (binary_timestamp_whole_seconds 3 (file_bytes (sample_mp4 "a.mp4" 2082844801))).
  vm_compute. reflexivity.
Defined.

(** ** Atoms before [moov] *)

Lemma read_shift (pre data : list byte) (pos : Z) (n : nat) :
  0 <= pos ->
  Mp4.read (pre ++ data) (Z.of_nat (length pre) + pos) n = Mp4.read data pos n.
Proof.
  intros Hpos. unfold Mp4.read. f_equal.
  rewrite drop_app_ge by lia. f_equal. lia.
Qed.

Lemma moov_step_past_end (data : list byte) (pos : Z) :
  0 <= pos -> Z.of_nat (length data) < pos + 8 ->
  moov_step data pos = LoopEnds None.
Proof.
  intros Hpos Hend. unfold moov_step.
  destruct (Nat.ltb_spec (length (Mp4.read data pos Mp4.ATOM_HEADER_SIZE))
              Mp4.ATOM_HEADER_SIZE) as [|Hlen]; [reflexivity|].
  exfalso. unfold Mp4.read, Mp4.ATOM_HEADER_SIZE in Hlen.
  rewrite length_take, length_drop in Hlen. lia.
Qed.

Lemma moov_step_found (data : list byte) (pos p : Z) :
  0 <= pos -> moov_step data pos = LoopEnds (Some p) ->
  0 <= p <= Z.of_nat (length data).
Proof.
  intros Hpos. unfold moov_step.
  destruct (Nat.ltb_spec (length (Mp4.read data pos Mp4.ATOM_HEADER_SIZE))
              Mp4.ATOM_HEADER_SIZE) as [|Hlen]; [discriminate|].
  assert (Hl : length (Mp4.read data pos Mp4.ATOM_HEADER_SIZE) = 8%nat).
  { unfold Mp4.read, Mp4.ATOM_HEADER_SIZE in *. rewrite length_take in *. lia. }
  rewrite Hl. pose proof (read_length data pos 8 Hpos ltac:(lia) Hl) as Hfit.
  destruct (bool_decide _).
  - intros [= <-]. lia.
  - destruct (Mp4.unpack 4 _) as [atom_size|]; [|discriminate].
    destruct (atom_size =? 0); [discriminate|].
    destruct (atom_size =? 1).
    + destruct (Mp4.unpack 8 _); [|discriminate].
      destruct (Mp4.seek _ _); discriminate.
    + destruct (Mp4.seek _ _); discriminate.
Qed.

Ltac compare_positions :=
  repeat (progress (repeat match goal with
                           | |- context [?a <=? ?b] => destruct (Z.leb_spec a b)
                           | |- context [?a <? ?b] => destruct (Z.ltb_spec a b)
                           end;
                    cbn [andb]; cbv beta iota)).

(** One pass of the loop on a file with [pre] in front, started [length
    pre] bytes later. *)
Lemma moov_step_shift (pre data : list byte) (pos : Z) :
  0 <= pos ->
  moov_step (pre ++ data) (Z.of_nat (length pre) + pos) =
  match moov_step data pos with
  | LoopEnds None => LoopEnds None
  | LoopEnds (Some p) => LoopEnds (Some (Z.of_nat (length pre) + p))
  | LoopContinues p =>
      if Z.of_nat (length pre) + p <? 2 ^ 63
      then LoopContinues (Z.of_nat (length pre) + p)
      else LoopEnds None
  end.
Proof.
  intros Hpos. unfold moov_step. rewrite read_shift by lia.
  destruct (Nat.ltb_spec (length (Mp4.read data pos Mp4.ATOM_HEADER_SIZE))
              Mp4.ATOM_HEADER_SIZE) as [|Hlen]; [reflexivity|].
  assert (Hl : length (Mp4.read data pos Mp4.ATOM_HEADER_SIZE) = 8%nat).
  { unfold Mp4.read, Mp4.ATOM_HEADER_SIZE in *. rewrite length_take in *. lia. }
  rewrite Hl.
  destruct (bool_decide _); [do 2 f_equal; lia|].
  destruct (Mp4.unpack 4 _) as [atom_size|] eqn:Hsize; [|reflexivity].
  apply unpack_bound in Hsize.
  destruct (atom_size =? 0); [reflexivity|].
  destruct (atom_size =? 1).
  - replace (Z.of_nat (length pre) + pos + Z.of_nat 8)
      with (Z.of_nat (length pre) + (pos + Z.of_nat 8)) by lia.
    rewrite read_shift by lia.
    destruct (Mp4.unpack 8 _) as [extended_size|] eqn:Hext; [|reflexivity].
    pose proof Hext as Hext'. apply unpack_bound in Hext'.
    unfold Mp4.unpack in Hext.
    destruct (Nat.eqb_spec (length (Mp4.read data (pos + Z.of_nat 8) 8)) 8) as [He|];
      [|discriminate].
    rewrite He. unfold Mp4.seek. cbv zeta.
    compare_positions; try lia; try reflexivity; f_equal; lia.
  - unfold Mp4.seek. cbv zeta.
    compare_positions; try lia; try reflexivity; f_equal; lia.
Qed.

Lemma find_moov_shift (pre data : list byte) :
  Z.of_nat (length pre) + Z.of_nat (length data) < 2 ^ 63 ->
  forall (fuel : nat) (pos : Z) (r : option Z),
    0 <= pos ->
    Mp4.find_moov fuel data pos = Returned r ->
    Mp4.find_moov fuel (pre ++ data) (Z.of_nat (length pre) + pos)
    = Returned ((fun p => Z.of_nat (length pre) + p) <$> r).
Proof.
  intros Hsize. induction fuel as [|fuel IH]; intros pos r Hpos H; [discriminate|].
  rewrite find_moov_S in *. rewrite moov_step_shift by lia.
  destruct (moov_step data pos) as [found|pos'] eqn:Hstep.
  - injection H as <-. destruct found; reflexivity.
  - destruct (moov_step_continues data pos pos' Hpos Hstep) as [Hfit Hle].
    destruct (Z.ltb_spec (Z.of_nat (length pre) + pos') (2 ^ 63)) as [Hin|Hout].
    + apply IH; [lia | exact H].
    + destruct fuel as [|fuel']; [discriminate|].
      rewrite find_moov_S, moov_step_past_end in H by lia.
      injection H as <-. reflexivity.
Qed.

Lemma find_moov_found (data : list byte) :
  forall (fuel : nat) (pos p : Z),
    0 <= pos -> Mp4.find_moov fuel data pos = Returned (Some p) ->
    0 <= p <= Z.of_nat (length data).
Proof.
  induction fuel as [|fuel IH]; intros pos p Hpos H; [discriminate|].
  rewrite find_moov_S in H.
  destruct (moov_step data pos) as [found|pos'] eqn:Hstep.
  - injection H as ->. exact (moov_step_found data pos p Hpos Hstep).
  - destruct (moov_step_continues data pos pos' Hpos Hstep) as [Hfit Hle].
    apply (IH pos'); [lia | exact H].
Qed.

Lemma mvhd_shift (pre data : list byte) (pos : Z) :
  0 <= pos -> Z.of_nat (length pre) + Z.of_nat (length data) + 4 < 2 ^ 63 ->
  Mp4.mvhd_creation_time (pre ++ data) (Z.of_nat (length pre) + pos)
  = Mp4.mvhd_creation_time data pos.
Proof.
  intros Hpos Hsize. unfold Mp4.mvhd_creation_time. rewrite read_shift by lia.
  cbv zeta.
  destruct (bool_decide _); [reflexivity|].
  destruct (negb _); [reflexivity|].
  set (header := Mp4.read data pos Mp4.ATOM_HEADER_SIZE).
  replace (Z.of_nat (length pre) + pos + Z.of_nat (length header))
    with (Z.of_nat (length pre) + (pos + Z.of_nat (length header))) by lia.
  rewrite read_shift by lia.
  destruct (Mp4.read data (pos + Z.of_nat (length header)) 1) as [|version rest] eqn:Hv;
    [reflexivity|].
  assert (Hin : pos + Z.of_nat (length header) < Z.of_nat (length data)).
  { apply (f_equal length) in Hv. unfold Mp4.read in Hv.
    rewrite length_take, length_drop in Hv. cbn [length] in Hv. lia. }
  unfold Mp4.seek. cbv zeta.
  compare_positions; try lia.
  cbn [mbind option_bind].
  replace (Z.of_nat (length pre) + (pos + Z.of_nat (length header)) + 1 + 3)
    with (Z.of_nat (length pre) + (pos + Z.of_nat (length header) + 1 + 3)) by lia.
  rewrite !read_shift by lia. reflexivity.
Qed.

(** The first pass over a file that starts with an ordinary atom skips
    the atom. *)
Lemma moov_step_skips (size type payload data : list byte) :
  length size = 4%nat -> length type = 4%nat -> type <> Mp4.lit "moov" ->
  Mp4.be_uint size = 8 + Z.of_nat (length payload) ->
  moov_step ((size ++ type ++ payload) ++ data) 0
  = LoopContinues (Z.of_nat (length (size ++ type ++ payload))).
Proof.
  intros Hs Ht Hmoov Hval. unfold moov_step, Mp4.read, Mp4.ATOM_HEADER_SIZE.
  change (Z.to_nat 0) with 0%nat. rewrite !drop_0.
  assert (Hhead : take 8 ((size ++ type ++ payload) ++ data) = size ++ type).
  { rewrite <- !app_assoc. rewrite (app_assoc size type).
    apply take_app_length'. rewrite length_app. lia. }
  rewrite Hhead.
  assert (Hlen : length (size ++ type) = 8%nat) by (rewrite length_app; lia).
  rewrite Hlen. change (8 <? 8)%nat with false. cbv iota.
  assert (Htype : Mp4.slice 4 8 (size ++ type) = type).
  { unfold Mp4.slice. rewrite take_ge by lia. apply drop_app_length'. symmetry. exact Hs. }
  assert (Hsize : Mp4.slice 0 4 (size ++ type) = size).
  { unfold Mp4.slice. rewrite drop_0. apply take_app_length'. symmetry. exact Hs. }
  rewrite Htype, Hsize, (bool_decide_eq_false_2 _ Hmoov).
  unfold Mp4.unpack. rewrite Hs. change (4 =? 4)%nat with true. cbv iota.
  rewrite Hval.
  pose proof (be_uint_bound size) as Hb. rewrite Hs, Hval in Hb.
  change (256 ^ Z.of_nat 4) with (2 ^ 32) in Hb.
  destruct (Z.eqb_spec (8 + Z.of_nat (length payload)) 0); [lia|].
  destruct (Z.eqb_spec (8 + Z.of_nat (length payload)) 1); [lia|].
  unfold Mp4.seek. cbv zeta.
  compare_positions; try lia.
  f_equal. rewrite !length_app. lia.
Qed.

(** X16: an ordinary atom in front of a file is skipped.  Putting an atom
    with a 32-bit size and a type other than [moov] before the bytes of a
    file does not change the timestamp the binary parser returns; the
    loop takes one more pass. *)
Theorem leading_atom_skipped (fuel : nat) (size type payload data : list byte)
    (r : option Z) :
  length size = 4%nat -> length type = 4%nat -> type <> Mp4.lit "moov" ->
  Mp4.be_uint size = 8 + Z.of_nat (length payload) ->
  Z.of_nat (length ((size ++ type ++ payload) ++ data)) < 2 ^ 62 ->
  Mp4.parse_mp4_timestamp_binary fuel data = Returned r ->
  Mp4.parse_mp4_timestamp_binary (S fuel) ((size ++ type ++ payload) ++ data)
  = Returned r.
Proof.
  intros Hs Ht Hmoov Hval Hfile H.
  rewrite parse_binary_of_find_moov in *.
  destruct (Mp4.find_moov fuel data 0) as [found| |] eqn:E; try discriminate.
  rewrite find_moov_S, (moov_step_skips size type payload data Hs Ht Hmoov Hval).
  set (pre := size ++ type ++ payload) in *.
  rewrite length_app in Hfile.
  assert (Hsmall : Z.of_nat (length pre) + Z.of_nat (length data) + 4 < 2 ^ 63) by lia.
  replace (Z.of_nat (length pre)) with (Z.of_nat (length pre) + 0) at 1 by lia.
  rewrite (find_moov_shift pre data ltac:(lia) fuel 0 found ltac:(lia) E).
  destruct found as [p|]; [|exact H].
  cbn [fmap option_fmap option_map mbind option_bind] in *.
  pose proof (find_moov_found data fuel 0 p ltac:(lia) E) as Hp.
  rewrite mvhd_shift by lia. exact H.
Qed.

Lemma leading_atom_skipped_witness :
  Mp4.parse_mp4_timestamp_binary 3
    ((be_bytes 4 12 ++ Mp4.lit "free" ++ Mp4.lit "next") ++
     file_bytes (sample_mp4 "a.mp4" 2082844801))
  = Returned (Some 1000).
Proof.
  apply (leading_atom_skipped 2 (be_bytes 4 12) (Mp4.lit "free") (Mp4.lit "next")).
  - reflexivity.
  - reflexivity.
  - intros H. vm_compute in H. discriminate.
  - vm_compute. reflexivity.
  - vm_compute. reflexivity.
  - vm_compute. reflexivity.
Defined.

(** ** [orchestrator.run_phase1] *)

Lemma collect_message_no_identifier (acc : gset string * extraction_stats) (m : pyval) :
  no_identifier m ->
  exists acc', collect_message acc m = Returned acc' /\ fst acc' = fst acc.
Proof.
  intros (d & -> & Hfield). destruct acc as [ids st]. simpl.
  destruct Hfield as [-> | (s & -> & Hs)]; [eauto|].
  destruct (truthy (PyStr s)); [|eauto].
  rewrite Hs. eexists. split; [reflexivity|]. simpl.
  apply union_empty_r_L.
Qed.

Lemma collect_messages_no_identifier (l : list pyval) :
  Forall no_identifier l ->
  forall acc, exists acc', collect_messages acc l = Returned acc' /\ fst acc' = fst acc.
Proof.
  induction 1 as [|m l Hm _ IH]; intros acc; simpl; [eauto|].
  destruct (collect_message_no_identifier acc m Hm) as (acc1 & -> & H1). simpl.
  destruct (IH acc1) as (acc' & -> & H'). exists acc'. split; congruence.
Qed.

Lemma collect_conversations_no_identifier (messages : pydict) :
  corpus_without_ids messages ->
  forall acc, exists acc',
    collect_conversations acc messages = Returned acc' /\ fst acc' = fst acc.
Proof.
  induction 1 as [|[conv v] rest (l & Hv & Hl) _ IH]; intros acc; simpl; [eauto|].
  simpl in Hv. subst v. simpl.
  destruct (collect_messages_no_identifier l Hl acc) as (acc1 & -> & H1). simpl.
  destruct (IH acc1) as (acc' & -> & H'). exists acc'. split; congruence.
Qed.

Lemma mp4s_without_ids_elem (all_mp4s : list mp4_file) (matched : gset string)
    (f : mp4_file) :
  f ∈ mp4s_without_ids all_mp4s matched <->
  f ∈ all_mp4s /\
  (has_id (extract_media_id_from_filename (file_name f)) = false \/
   default "" (extract_media_id_from_filename (file_name f)) ∉ matched).
Proof.
  induction all_mp4s as [|g rest IH]; simpl.
  - split; [intros H | intros [H _]]; apply elem_of_nil in H; contradiction.
  - destruct (has_id (extract_media_id_from_filename (file_name g))) eqn:Hid;
      [destruct (bool_decide_reflect
                   (default "" (extract_media_id_from_filename (file_name g)) ∈ matched))
         as [Hin|Hout]|]; simpl; rewrite ?elem_of_cons, IH.
    + split; [tauto|]. intros [[->|Hf] Hc]; [|tauto].
      rewrite Hid in Hc. destruct Hc as [Hc|Hc]; [discriminate | contradiction].
    + split; [|tauto]. intros [->|Hf]; tauto.
    + split; [|tauto]. intros [->|Hf]; tauto.
Qed.

Lemma mp4s_without_ids_length (all_mp4s : list mp4_file) (matched : gset string) :
  (length (mp4s_without_ids all_mp4s matched) <= length all_mp4s)%nat.
Proof.
  induction all_mp4s as [|g rest IH]; simpl; [lia|].
  destruct (_ || _); simpl; lia.
Qed.

Lemma extract_returns (ffprobe : mp4_file -> option Z) (fuel : nat) (f : mp4_file)
    (r : option Z) :
  Mp4.parse_mp4_timestamp_binary fuel (file_bytes f) = Returned r ->
  exists r', Mp4.extract_mp4_timestamp ffprobe fuel f true = Returned r'.
Proof.
  intros H. unfold Mp4.extract_mp4_timestamp. rewrite H. simpl.
  destruct r; eauto.
Qed.

Lemma matches_size (files : list mp4_file) (matches : gmap string match_data) :
  (forall k v, matches !! k = Some v -> exists f, f ∈ files /\ file_name f = k) ->
  (size matches <= length files)%nat.
Proof.
  intros Hkeys. rewrite <- size_dom.
  transitivity (size (list_to_set (map file_name files) : gset string)).
  - apply subseteq_size. intros k Hk. apply elem_of_dom in Hk as [v Hv].
    destruct (Hkeys k v Hv) as (f & Hf & <-).
    apply elem_of_list_to_set, list_elem_of_fmap. exists f. auto.
  - rewrite <- (length_map file_name files). apply size_list_to_set_le.
Qed.

(** The file index never runs out of fuel. *)
Lemma media_index_outcome (files_completed : list string -> list string)
    (media_dir : option (list dir_entry)) (use_parallel : bool) (max_workers : Z) :
  (exists media_map,
     create_media_index files_completed media_dir use_parallel max_workers
     = Returned media_map) \/
  create_media_index files_completed media_dir use_parallel max_workers = Raised.
Proof.
  unfold create_media_index. destruct media_dir as [entries|]; [|eauto].
  destruct (use_parallel && _); [|eauto].
  unfold thread_pool. destruct (max_workers <=? 0); simpl; eauto.
Qed.

Section Phase1Facts.

Variable int_of_str : string -> option Z.
Variable parse_mp4_timestamp_ffprobe : mp4_file -> option Z.
Variable as_completed : list mp4_file -> list mp4_file.
Variable files_completed : list string -> list string.
Variable mapping_file_written : mapping_data -> bool.
Hypothesis as_completed_perm : forall l, as_completed l ≡ₚ l.

Local Abbreviation phase1 :=
  (run_phase1 int_of_str parse_mp4_timestamp_ffprobe as_completed files_completed
     mapping_file_written).

(** What a returned run was computed from. *)
Lemma run_phase1_returned (fuel : nat) (messages : pydict)
    (media_dir : option (list dir_entry)) (n_media_files : nat)
    (all_mp4s : list mp4_file) (timestamp_threshold max_workers : Z)
    (use_parallel : bool) (stats : phase1_stats) (md : mapping_data) :
  phase1 fuel messages media_dir n_media_files all_mp4s timestamp_threshold
    max_workers use_parallel = Returned (stats, Some md) ->
  exists (ids : gset string) (est : extraction_stats)
         (media_index : gmap string string) (matches : gmap string match_data),
    extract_media_ids_from_messages messages = Returned (ids, est) /\
    create_media_index files_completed media_dir use_parallel max_workers
    = Returned media_index /\
    size ids <> 0%nat /\
    (forall k v, matches !! k = Some v ->
       exists f, f ∈ mp4s_without_ids all_mp4s (ids ∩ dom media_index) /\
                 file_name f = k) /\
    stats = Phase1Stats (total_ids est) (size ids) (pipe_separated est)
              n_media_files (size (ids ∩ dom media_index))
              (size (ids ∖ dom media_index)) (size (dom media_index ∖ ids))
              (length (mp4s_without_ids all_mp4s (ids ∩ dom media_index)))
              (size matches) /\
    md = MappingData media_index (mapping_statistics ids media_index) matches stats /\
    mapping_file_written md = true.
Proof.
  unfold run_phase1. destruct messages as [|kv rest]; [discriminate|].
  set (messages := kv :: rest).
  destruct (extract_media_ids_from_messages messages) as [[ids est]| |] eqn:Hex;
    cbn [mbind outcome_bind]; try discriminate.
  destruct (create_media_index files_completed media_dir use_parallel max_workers)
    as [media_index| |] eqn:Hindex; cbn [mbind outcome_bind]; try discriminate.
  destruct (Nat.eqb_spec (size ids) 0) as [|Hids]; [discriminate|].
  cbn [matched_ids unmatched_ids orphaned_files mapping_statistics].
  unfold save_mapping.
  destruct (mp4s_without_ids all_mp4s (ids ∩ dom media_index)) as [|f0 pool] eqn:Hpool.
  - cbn [mbind outcome_bind].
    destruct (mapping_file_written _) eqn:Hw; cbn [mbind outcome_bind];
      try discriminate.
    intros [= <- <-].
    exists ids, est, media_index, ∅.
    split; [reflexivity | split; [reflexivity | split; [assumption|]]].
    split; [intros k v Hk; rewrite lookup_empty in Hk; discriminate|].
    rewrite ?Hpool, map_size_empty. split; [reflexivity | split; [reflexivity|]].
    exact Hw.
  - destruct (match_mp4_timestamps _ _ _ fuel (f0 :: pool) messages _ _ _)
      as [matches| |] eqn:Hbatch; cbn [mbind outcome_bind]; try discriminate.
    destruct (mapping_file_written _) eqn:Hw; cbn [mbind outcome_bind];
      try discriminate.
    intros [= <- <-].
    exists ids, est, media_index, matches.
    split; [reflexivity | split; [reflexivity | split; [assumption|]]].
    rewrite ?Hpool. split; [|split; [reflexivity | split; [reflexivity | exact Hw]]].
    intros k v Hk.
    destruct (batch_bindings int_of_str parse_mp4_timestamp_ffprobe as_completed
                fuel (f0 :: pool) messages timestamp_threshold use_parallel
                max_workers matches as_completed_perm Hbatch)
      as (index & _ & Hbind).
    destruct (Hbind k v Hk) as (f & Hf & (ts & e & Hname & _)). eauto.
Qed.

End Phase1Facts.

(** X17: a corpus without media crashes phase 1.  When conversations were
    loaded but no message yields an identifier, the run raises (the
    percentage of the log line divides by the number of unique
    identifiers), whatever the media directory holds. *)
Theorem phase1_fails_without_identifiers (int_of_str : string -> option Z)
    (parse_mp4_timestamp_ffprobe : mp4_file -> option Z)
    (as_completed : list mp4_file -> list mp4_file)
    (files_completed : list string -> list string)
    (mapping_file_written : mapping_data -> bool)
    (fuel : nat) (messages : pydict) (media_dir : option (list dir_entry))
    (n_media_files : nat) (all_mp4s : list mp4_file)
    (timestamp_threshold max_workers : Z) (use_parallel : bool) :
  messages <> [] -> corpus_without_ids messages ->
  run_phase1 int_of_str parse_mp4_timestamp_ffprobe as_completed files_completed
    mapping_file_written fuel messages media_dir n_media_files all_mp4s
    timestamp_threshold max_workers use_parallel = Raised.
Proof.
  intros Hne Hcorpus. unfold run_phase1.
  destruct messages as [|kv rest]; [contradiction|].
  unfold extract_media_ids_from_messages.
  destruct (collect_conversations_no_identifier _ Hcorpus (∅, ExtractionStats 0 0 0 0))
    as ([ids est] & -> & Hids).
  simpl in Hids. subst ids. cbn [mbind outcome_bind].
  destruct (media_index_outcome files_completed media_dir use_parallel max_workers)
    as [[media_index ->] | ->]; cbn [mbind outcome_bind]; [|reflexivity].
  rewrite size_empty. reflexivity.
Qed.

Lemma phase1_fails_without_identifiers_witness :
  run_phase1 no_int_of_str no_ffprobe in_order names_in_order always_written
    10 sample_messages (Some media_entries) 2 media_files 10 4 false = Raised.
Proof.
  apply phase1_fails_without_identifiers.
  - discriminate.
  - repeat constructor. exists [PyDict [("Created(microseconds)", PyInt 1000)]].
    split; [reflexivity|]. repeat constructor.
    eexists. split; [reflexivity|]. left. reflexivity.
Defined.

(** X18: the statistics of a returned run add up.  The mapped and the
    unmapped identifiers together are the unique identifiers, of which
    there is at least one and no more than identifiers counted; no more
    MP4 files were matched than processed, and no more processed than
    found; the mapping carries the same statistics and the index built
    from the media directory. *)
Theorem phase1_statistics_consistent (int_of_str : string -> option Z)
    (parse_mp4_timestamp_ffprobe : mp4_file -> option Z)
    (as_completed : list mp4_file -> list mp4_file)
    (files_completed : list string -> list string)
    (mapping_file_written : mapping_data -> bool)
    (fuel : nat) (messages : pydict) (media_dir : option (list dir_entry))
    (n_media_files : nat) (all_mp4s : list mp4_file)
    (timestamp_threshold max_workers : Z) (use_parallel : bool)
    (stats : phase1_stats) (md : mapping_data) :
  (forall l, as_completed l ≡ₚ l) ->
  run_phase1 int_of_str parse_mp4_timestamp_ffprobe as_completed files_completed
    mapping_file_written fuel messages media_dir n_media_files all_mp4s
    timestamp_threshold max_workers use_parallel
  = Returned (stats, Some md) ->
  (ids_mapped stats + ids_unmapped stats = unique_ids stats)%nat /\
  (0 < unique_ids stats <= total_media_ids stats)%nat /\
  (orphaned_files_count stats + ids_mapped stats = size (md_media_index md))%nat /\
  (mp4s_matched stats <= mp4s_processed stats <= length all_mp4s)%nat /\
  md_statistics md = stats /\
  create_media_index files_completed media_dir use_parallel max_workers
  = Returned (md_media_index md).
Proof.
  intros Hperm Hrun.
  destruct (run_phase1_returned _ _ _ _ _ Hperm _ _ _ _ _ _ _ _ _ _ Hrun)
    as (ids & est & media_index & matches & Hex & Hindex & Hids & Hkeys & -> & -> & _).
  destruct (collector_result messages ids est Hex) as [(_ & _ & Hsize & _) _].
  cbn [fst snd] in Hsize.
  cbn [ids_mapped ids_unmapped unique_ids total_media_ids orphaned_files_count
       mp4s_matched mp4s_processed md_media_index md_statistics].
  split; [|split; [lia | split; [|split; [split|split; [reflexivity | exact Hindex]]]]].
  - rewrite <- size_union.
    + f_equal. apply set_eq. intros x.
      rewrite elem_of_union, elem_of_intersection, elem_of_difference.
      destruct (decide (x ∈ dom media_index)); tauto.
    + intros x Hx Hy. apply elem_of_intersection in Hx.
      apply elem_of_difference in Hy. tauto.
  - rewrite <- size_dom, <- size_union.
    + f_equal. apply set_eq. intros x.
      rewrite elem_of_union, elem_of_intersection, elem_of_difference.
      destruct (decide (x ∈ ids)); tauto.
    + intros x Hx Hy. apply elem_of_intersection in Hy.
      apply elem_of_difference in Hx. tauto.
  - apply matches_size. exact Hkeys.
  - apply mp4s_without_ids_length.
Qed.

Lemma phase1_statistics_consistent_witness :
  exists stats md,
    run_phase1 no_int_of_str no_ffprobe in_order names_in_order always_written
      10 media_messages (Some media_entries) 2 media_files 10 4 false
    = Returned (stats, Some md) /\
    (ids_mapped stats + ids_unmapped stats = unique_ids stats)%nat /\
    (0 < unique_ids stats <= total_media_ids stats)%nat /\
    (orphaned_files_count stats + ids_mapped stats = size (md_media_index md))%nat /\
    (mp4s_matched stats <= mp4s_processed stats <= length media_files)%nat /\
    md_statistics md = stats /\
    create_media_index names_in_order (Some media_entries) false 4
    = Returned (md_media_index md).
Proof.
  eexists _, _. split; [vm_compute; reflexivity|].
  eapply (phase1_statistics_consistent no_int_of_str no_ffprobe in_order
            names_in_order always_written 10 media_messages (Some media_entries) 2
            media_files 10 4 false).
  - intros l. reflexivity.
  - vm_compute. reflexivity.
Defined.

(** X19: timestamp matching leaves identified files alone.  Every key of
    [mp4_matches] is the name of an MP4 file of the directory whose name
    yields no identifier, or an identifier that is not among the matched
    ones; a file whose identifier is matched gets no timestamp match. *)
Theorem identified_mp4_not_timestamp_matched (int_of_str : string -> option Z)
    (parse_mp4_timestamp_ffprobe : mp4_file -> option Z)
    (as_completed : list mp4_file -> list mp4_file)
    (files_completed : list string -> list string)
    (mapping_file_written : mapping_data -> bool)
    (fuel : nat) (messages : pydict) (media_dir : option (list dir_entry))
    (n_media_files : nat) (all_mp4s : list mp4_file)
    (timestamp_threshold max_workers : Z) (use_parallel : bool)
    (stats : phase1_stats) (md : mapping_data) :
  (forall l, as_completed l ≡ₚ l) ->
  run_phase1 int_of_str parse_mp4_timestamp_ffprobe as_completed files_completed
    mapping_file_written fuel messages media_dir n_media_files all_mp4s
    timestamp_threshold max_workers use_parallel
  = Returned (stats, Some md) ->
  (forall k v, md_mp4_matches md !! k = Some v ->
     (exists f, f ∈ all_mp4s /\ file_name f = k) /\
     forall id, extract_media_id_from_filename k = Some id ->
                id ∉ matched_ids (md_sets md)) /\
  (forall name id, extract_media_id_from_filename name = Some id ->
     id ∈ matched_ids (md_sets md) -> md_mp4_matches md !! name = None).
Proof.
  intros Hperm Hrun.
  destruct (run_phase1_returned _ _ _ _ _ Hperm _ _ _ _ _ _ _ _ _ _ Hrun)
    as (ids & est & media_index & matches & Hex & Hindex & Hids & Hkeys & -> & -> & _).
  cbn [md_mp4_matches md_sets matched_ids mapping_statistics].
  assert (Hfirst : forall k v, matches !! k = Some v ->
            (exists f, f ∈ all_mp4s /\ file_name f = k) /\
            forall id, extract_media_id_from_filename k = Some id ->
                       id ∉ ids ∩ dom media_index).
  { intros k v Hk. destruct (Hkeys k v Hk) as (f & Hf & Hname).
    apply mp4s_without_ids_elem in Hf as [Hf Hc]. rewrite Hname in Hc.
    split; [eauto|]. intros id Hid. rewrite Hid in Hc. simpl in Hc.
    destruct Hc as [Hc|Hc]; [|exact Hc].
    apply identifier_nonempty in Hid. apply negb_false_iff, String.eqb_eq in Hc.
    contradiction. }
  split; [exact Hfirst|].
  intros name id Hid Hin. destruct (matches !! name) as [v|] eqn:Hk; [|reflexivity].
  destruct (Hfirst name v Hk) as [_ Hout]. exfalso. exact (Hout id Hid Hin).
Qed.

Lemma identified_mp4_not_timestamp_matched_witness :
  exists stats md,
    run_phase1 no_int_of_str no_ffprobe in_order names_in_order always_written
      10 media_messages (Some media_entries) 2 media_files 10 4 false
    = Returned (stats, Some md) /\
    md_mp4_matches md !! "a.mp4" = Some ("conv", 0%nat, 0) /\
    md_mp4_matches md !! "2025-01-01_media~AB.mp4" = None.
Proof.
  eexists _, _. split; [vm_compute; reflexivity|].
  split; [vm_compute; reflexivity|].
  refine (proj2 (identified_mp4_not_timestamp_matched no_int_of_str no_ffprobe in_order
            names_in_order always_written 10 media_messages (Some media_entries) 2
            media_files 10 4 false _ _ _ _)
            "2025-01-01_media~AB.mp4" "media~AB" _ _).
  - intros l. reflexivity.
  - vm_compute. reflexivity.
  - vm_compute. reflexivity.
  - match goal with |- ?P => apply (bool_decide_unpack P) end.
    vm_compute. reflexivity.
Defined.

(** ** When the atom loop does not end *)

Lemma find_moov_fixed_point (data : list byte) :
  forall (fuel : nat) (pos : Z),
    0 <= pos -> Z.of_nat (length data) < pos + 8 + Z.of_nat fuel ->
    Mp4.find_moov (S fuel) data pos = OutOfFuel ->
    exists p, 0 <= p /\ moov_step data p = LoopContinues p.
Proof.
  induction fuel as [|fuel IH]; intros pos Hpos Hlen H; rewrite find_moov_S in H;
    destruct (moov_step data pos) as [found|pos'] eqn:Hstep; try discriminate;
    destruct (moov_step_continues data pos pos' Hpos Hstep) as [Hfit Hle].
  - lia.
  - destruct (Z.eq_dec pos' pos) as [->|Hne]; [eauto|].
    apply (IH pos'); [lia | lia | exact H].
Qed.

Lemma moov_step_fixed (data : list byte) (pos : Z) :
  0 <= pos -> moov_step data pos = LoopContinues pos ->
  pos + 16 <= Z.of_nat (length data) /\
  Mp4.unpack 4 (Mp4.slice 0 4 (Mp4.read data pos 8)) = Some 1 /\
  Mp4.slice 4 8 (Mp4.read data pos 8) <> Mp4.lit "moov" /\
  Mp4.unpack 8 (Mp4.read data (pos + 8) 8) = Some 0.
Proof.
  intros Hpos. unfold moov_step, Mp4.ATOM_HEADER_SIZE.
  destruct (Nat.ltb_spec (length (Mp4.read data pos 8)) 8) as [|Hlen]; [discriminate|].
  assert (Hl : length (Mp4.read data pos 8) = 8%nat).
  { unfold Mp4.read in *. rewrite length_take in *. lia. }
  rewrite Hl. change (Z.of_nat 8) with 8.
  destruct (bool_decide_reflect (Mp4.slice 4 8 (Mp4.read data pos 8) = Mp4.lit "moov"))
    as [|Hmoov]; [discriminate|].
  destruct (Mp4.unpack 4 _) as [atom_size|] eqn:Hsize; [|discriminate].
  destruct (Z.eqb_spec atom_size 0); [discriminate|].
  destruct (Z.eqb_spec atom_size 1) as [->|].
  - destruct (Mp4.unpack 8 _) as [extended_size|] eqn:Hext; [|discriminate].
    pose proof Hext as Hext'. unfold Mp4.unpack in Hext'.
    destruct (Nat.eqb_spec (length (Mp4.read data (pos + 8) 8)) 8) as [He|];
      [|discriminate].
    rewrite He. change (Z.of_nat 8) with 8. unfold Mp4.seek.
    destruct (_ && _); [|discriminate]. intros [= Heq].
    assert (extended_size = 0) by lia. subst extended_size.
    pose proof (read_length data (pos + 8) 8 ltac:(lia) ltac:(lia) He) as Hfit.
    change (Z.of_nat 8) with 8 in Hfit.
    split; [lia | split; [reflexivity | split; [exact Hmoov | reflexivity]]].
  - unfold Mp4.seek. destruct (_ && _); [|discriminate]. intros [= Heq]. lia.
Qed.

(** X20: the atom loop can only fail to end on an atom of size 1 with
    extended size 0.  If the parser has not returned after [len(data) + 1]
    passes, the file holds, at some offset, a header with size field 1 and
    a type other than [moov], followed by eight zero bytes. *)
Theorem atom_loop_hangs_on_zero_extended_size (data : list byte) :
  Mp4.parse_mp4_timestamp_binary (S (length data)) data = OutOfFuel ->
  exists pos, 0 <= pos /\ pos + 16 <= Z.of_nat (length data) /\
    Mp4.unpack 4 (Mp4.slice 0 4 (Mp4.read data pos 8)) = Some 1 /\
    Mp4.slice 4 8 (Mp4.read data pos 8) <> Mp4.lit "moov" /\
    Mp4.unpack 8 (Mp4.read data (pos + 8) 8) = Some 0.
Proof.
  intros H. rewrite parse_binary_of_find_moov in H.
  destruct (Mp4.find_moov (S (length data)) data 0) eqn:E; try discriminate.
  destruct (find_moov_fixed_point data (length data) 0 ltac:(lia) ltac:(lia) E)
    as (p & Hp & Hfix).
  exists p. split; [exact Hp|]. exact (moov_step_fixed data p Hp Hfix).
Qed.

Lemma atom_loop_hangs_on_zero_extended_size_witness :
  exists pos, 0 <= pos /\ pos + 16 <= Z.of_nat (length looping_file) /\
    Mp4.unpack 4 (Mp4.slice 0 4 (Mp4.read looping_file pos 8)) = Some 1 /\
    Mp4.slice 4 8 (Mp4.read looping_file pos 8) <> Mp4.lit "moov" /\
    Mp4.unpack 8 (Mp4.read looping_file (pos + 8) 8) = Some 0.
Proof.
  apply (atom_loop_hangs_on_zero_extended_size looping_file).
  vm_compute. reflexivity.
Defined.

(** ** The batch returns *)

(** X21: when the batch returns.  When no message carries an infinite
    timestamp, the pool has at least one worker, the threshold is below
    the float limit and the binary parser returns on every file, the batch
    returns a mapping, in either branch, and the mapping has no more
    entries than there are files. *)
Theorem batch_returns (int_of_str : string -> option Z)
    (parse_mp4_timestamp_ffprobe : mp4_file -> option Z)
    (as_completed : list mp4_file -> list mp4_file)
    (fuel : nat) (files : list mp4_file) (messages : pydict)
    (threshold_seconds : Z) (use_parallel : bool) (max_workers : Z) :
  (forall l, as_completed l ≡ₚ l) ->
  finite_timestamps messages -> 0 < max_workers ->
  threshold_seconds < float_limit ->
  (forall f, f ∈ files ->
     exists r, Mp4.parse_mp4_timestamp_binary fuel (file_bytes f) = Returned r) ->
  exists matches,
    match_mp4_timestamps int_of_str parse_mp4_timestamp_ffprobe as_completed
      fuel files messages threshold_seconds use_parallel max_workers
    = Returned matches /\
    (size matches <= length files)%nat.
Proof.
  intros Hperm Hfin Hworkers Hthr Hret.
  destruct (batch_returns_mapping int_of_str parse_mp4_timestamp_ffprobe as_completed
              fuel files messages threshold_seconds use_parallel max_workers
              Hperm Hfin Hworkers Hthr)
    as [matches Hbatch].
  { intros f Hf. destruct (Hret f Hf) as [r Hr]. exact (extract_returns _ _ _ _ Hr). }
  exists matches. split; [exact Hbatch|].
  apply matches_size. intros k v Hk.
  destruct (batch_bindings _ _ _ _ _ _ _ _ _ _ Hperm Hbatch) as (index & _ & Hbind).
  destruct (Hbind k v Hk) as (f & Hf & (ts & e & Hname & _)).
  eauto.
Qed.

Lemma batch_returns_witness :
  exists matches,
    match_mp4_timestamps no_int_of_str no_ffprobe (fun l => rev l)
      10 eleven_files sample_messages 10 true 4 = Returned matches /\
    (size matches <= length eleven_files)%nat.
Proof.
  apply batch_returns.
  - intros l. symmetry. apply Permutation_rev.
  - apply finite_timestamps_check. reflexivity.
  - lia.
  - vm_compute. reflexivity.
  - intros f Hf. unfold eleven_files in Hf. simpl in Hf.
    repeat (apply elem_of_cons in Hf as [->|Hf]; [eexists; vm_compute; reflexivity|]).
    apply elem_of_nil in Hf. contradiction.
Defined.

(** The three ways the batch raises. *)
Example batch_raises :
  match_mp4_timestamps no_int_of_str no_ffprobe in_order 10
    [sample_mp4 "a.mp4" 2082844801]
    [("conv", PyList [PyDict [("Created(microseconds)",
                               PyFloat (S754_infinity false))]])] 10 false 4
  = Raised /\
  match_mp4_timestamps no_int_of_str no_ffprobe in_order 10
    eleven_files sample_messages 10 true 0 = Raised /\
  match_mp4_timestamps no_int_of_str no_ffprobe in_order 10
    [sample_mp4 "a.mp4" 2082844801]
    [("conv", PyList [PyDict [("Created(microseconds)",
                               PyInt (1000 - 1000 * float_limit))]])]
    float_limit false 4
  = Raised.
Proof. split; [|split]; vm_compute; reflexivity. Qed.

(** ** The collected identifiers *)

Lemma collect_message_ids (acc acc' : gset string * extraction_stats) (m : pyval) :
  collect_message acc m = Returned acc' ->
  forall id, id ∈ fst acc' <-> id ∈ fst acc \/ message_names m id.
Proof.
  destruct acc as [ids st]. unfold collect_message, message_names.
  destruct m as [| | | | | |d]; try discriminate.
  destruct (truthy (dict_get_default "Media IDs" (PyStr "") d)) eqn:Ht.
  - destruct (dict_get_default "Media IDs" (PyStr "") d) as [| | | |field| |] eqn:Hf;
      try discriminate.
    intros [= <-] id. cbn [fst]. rewrite elem_of_union, elem_of_list_to_set.
    split; intros [H|H]; auto.
    + right. exists d, field. auto.
    + destruct H as (d' & s & [= <-] & Hs & Hid). rewrite Hf in Hs.
      injection Hs as <-. auto.
  - intros [= <-] id. cbn [fst]. split; [auto|]. intros [H|H]; [exact H|].
    destruct H as (d' & s & [= <-] & Hs & Hid). rewrite Hs in Ht. simpl in Ht.
    apply negb_false_iff, String.eqb_eq in Ht. subst s.
    apply elem_of_nil in Hid. contradiction.
Qed.

Lemma collect_messages_ids (l : list pyval) :
  forall acc acc' : gset string * extraction_stats,
    collect_messages acc l = Returned acc' ->
    forall id, id ∈ fst acc' <-> id ∈ fst acc \/ exists m, m ∈ l /\ message_names m id.
Proof.
  induction l as [|m l IH]; intros acc acc' H id; simpl in H.
  - injection H as <-. split; [auto|]. intros [H|(m & Hm & _)]; [exact H|].
    apply elem_of_nil in Hm. contradiction.
  - destruct (collect_message acc m) as [acc1| |] eqn:E; simpl in H; try discriminate.
    rewrite (IH acc1 acc' H id), (collect_message_ids acc acc1 m E id).
    split.
    + intros [[H1|H1]|(m' & Hm' & H1)]; auto.
      * right. exists m. split; [apply elem_of_cons; auto | exact H1].
      * right. exists m'. split; [apply elem_of_cons; auto | exact H1].
    + intros [H1|(m' & Hm' & H1)]; auto.
      apply elem_of_cons in Hm' as [->|Hm']; eauto.
Qed.

Lemma collect_conversations_ids (messages : pydict) :
  forall acc acc' : gset string * extraction_stats,
    collect_conversations acc messages = Returned acc' ->
    forall id, id ∈ fst acc' <-> id ∈ fst acc \/ corpus_names messages id.
Proof.
  unfold corpus_names.
  induction messages as [|[conv v] rest IH]; intros acc acc' H id; simpl in H.
  - injection H as <-. split; [auto|]. intros [H|(c & v & l & m & Hin & _)]; [exact H|].
    apply elem_of_nil in Hin. contradiction.
  - destruct (py_iter v) as [items| |] eqn:Hv; simpl in H; try discriminate.
    destruct (collect_messages acc items) as [acc1| |] eqn:E; simpl in H;
      try discriminate.
    rewrite (IH acc1 acc' H id), (collect_messages_ids items acc acc1 E id).
    split.
    + intros [[H1|(m & Hm & H1)]|(c & v' & l & m & Hin & Hl & Hm & H1)]; auto.
      * right. exists conv, v, items, m.
        split; [apply elem_of_cons; auto | auto].
      * right. exists c, v', l, m. split; [apply elem_of_cons; auto | auto].
    + intros [H1|(c & v' & l & m & Hin & Hl & Hm & H1)]; auto.
      apply elem_of_cons in Hin as [[= -> ->]|Hin].
      * rewrite Hv in Hl. injection Hl as <-. eauto.
      * right. exists c, v', l, m. auto.
Qed.

(** X22: the collector returns exactly the identifiers the messages name.
    An identifier is in the returned set if and only if it is one of the
    trimmed, non-empty pieces of the [Media IDs] field of some message of
    some conversation. *)
Theorem collected_ids_exact (messages : pydict) (ids : gset string)
    (st : extraction_stats) (id : string) :
  extract_media_ids_from_messages messages = Returned (ids, st) ->
  id ∈ ids <-> corpus_names messages id.
Proof.
  intros H. rewrite (collect_conversations_ids messages _ _ H id). cbn [fst].
  split; [|auto]. intros [Hin|Hc]; [|exact Hc].
  apply elem_of_empty in Hin. contradiction.
Qed.

Lemma collected_ids_exact_witness :
  "media~AB" ∈ ({["media~AB"]} : gset string) <->
  corpus_names media_messages "media~AB".
Proof.
  apply (collected_ids_exact media_messages {["media~AB"]} (ExtractionStats 1 1 0 1)).
  vm_compute. reflexivity.
Defined.

(** ** Phase 1 returns *)

(** X23: phase 1 completes on well-formed input.  When every message is
    readable, some message names an identifier, no message carries an
    infinite timestamp, the pool has at least one worker, the threshold is
    below the float limit, the binary parser returns on every MP4 file and
    the mapping file can be written, the run returns statistics and a
    mapping, with at least one unique identifier counted. *)
Theorem phase1_returns (int_of_str : string -> option Z)
    (parse_mp4_timestamp_ffprobe : mp4_file -> option Z)
    (as_completed : list mp4_file -> list mp4_file)
    (files_completed : list string -> list string)
    (mapping_file_written : mapping_data -> bool)
    (fuel : nat) (messages : pydict) (media_dir : option (list dir_entry))
    (n_media_files : nat) (all_mp4s : list mp4_file)
    (timestamp_threshold max_workers : Z) (use_parallel : bool) (id : string) :
  (forall l, as_completed l ≡ₚ l) ->
  readable_corpus messages -> corpus_names messages id ->
  finite_timestamps messages -> 0 < max_workers ->
  timestamp_threshold < float_limit ->
  (forall mapping, mapping_file_written mapping = true) ->
  (forall f, f ∈ all_mp4s ->
     exists r, Mp4.parse_mp4_timestamp_binary fuel (file_bytes f) = Returned r) ->
  exists stats md,
    run_phase1 int_of_str parse_mp4_timestamp_ffprobe as_completed files_completed
      mapping_file_written fuel messages media_dir n_media_files all_mp4s
      timestamp_threshold max_workers use_parallel
    = Returned (stats, Some md) /\
    (0 < unique_ids stats)%nat /\ total_media_files stats = n_media_files.
Proof.
  intros Hperm Hread Hname Hfin Hworkers Hthr Hwritten Hret. unfold run_phase1.
  destruct messages as [|kv rest].
  { destruct Hname as (c & v & l & m & Hin & _). apply elem_of_nil in Hin.
    contradiction. }
  set (messages := kv :: rest) in *.
  destruct (collect_conversations_readable messages Hread (∅, ExtractionStats 0 0 0 0))
    as [[ids est] Hex].
  change (collect_conversations (∅, ExtractionStats 0 0 0 0) messages)
    with (extract_media_ids_from_messages messages) in Hex.
  rewrite Hex. cbn [mbind outcome_bind].
  destruct (media_index_returns files_completed media_dir use_parallel max_workers)
    as [media_index ->]; [auto|]. cbn [mbind outcome_bind].
  assert (Hin : id ∈ ids).
  { rewrite (collect_conversations_ids messages _ _ Hex id). auto. }
  destruct (Nat.eqb_spec (size ids) 0) as [Hz|Hnz].
  { apply size_empty_iff in Hz.
    exfalso. exact (proj1 (elem_of_equiv_empty ids) Hz id Hin). }
  cbn [matched_ids mapping_statistics]. unfold save_mapping.
  destruct (mp4s_without_ids all_mp4s (ids ∩ dom media_index)) as [|f0 pool] eqn:Hpool.
  - cbn [mbind outcome_bind]. rewrite Hwritten. cbn [mbind outcome_bind].
    eexists _, _. split; [reflexivity|].
    cbn [unique_ids total_media_files]. split; [lia | reflexivity].
  - destruct (batch_returns_mapping int_of_str parse_mp4_timestamp_ffprobe as_completed
                fuel (f0 :: pool) messages timestamp_threshold use_parallel
                max_workers Hperm Hfin Hworkers Hthr)
      as [matches ->].
    + intros f Hf. rewrite <- Hpool in Hf. apply mp4s_without_ids_elem in Hf as [Hf _].
      destruct (Hret f Hf) as [r Hr]. exact (extract_returns _ _ _ _ Hr).
    + cbn [mbind outcome_bind]. rewrite Hwritten. cbn [mbind outcome_bind].
      eexists _, _. split; [reflexivity|].
      cbn [unique_ids total_media_files]. split; [lia | reflexivity].
Qed.

Lemma phase1_returns_witness :
  exists stats md,
    run_phase1 no_int_of_str no_ffprobe in_order names_in_order always_written
      10 media_messages (Some media_entries) 2 media_files 10 4 false
    = Returned (stats, Some md) /\
    (0 < unique_ids stats)%nat /\ total_media_files stats = 2%nat.
Proof.
  apply (phase1_returns no_int_of_str no_ffprobe in_order names_in_order
           always_written 10 media_messages (Some media_entries) 2 media_files
           10 4 false "media~AB").
  - intros l. reflexivity.
  - repeat constructor. eexists. split; [reflexivity|]. repeat constructor.
    eexists. split; [reflexivity|]. right. eexists. reflexivity.
  - exists "conv", (PyList [PyDict [("Media IDs", PyStr "media~AB");
                                    ("Created(microseconds)", PyInt 1000)]]),
      [PyDict [("Media IDs", PyStr "media~AB"); ("Created(microseconds)", PyInt 1000)]],
      (PyDict [("Media IDs", PyStr "media~AB"); ("Created(microseconds)", PyInt 1000)]).
    split; [apply list_elem_of_singleton; reflexivity|].
    split; [reflexivity|]. split; [apply list_elem_of_singleton; reflexivity|].
    eexists _, "media~AB". split; [reflexivity|]. split; [reflexivity|].
    apply (bool_decide_unpack ("media~AB" ∈ split_pipe_separated_ids "media~AB")).
    vm_compute. reflexivity.
  - apply finite_timestamps_check. reflexivity.
  - lia.
  - vm_compute. reflexivity.
  - reflexivity.
  - intros f Hf. unfold media_files in Hf.
    repeat (apply elem_of_cons in Hf as [->|Hf]; [eexists; vm_compute; reflexivity|]).
    apply elem_of_nil in Hf. contradiction.
Defined.

(** The run raises when the mapping file cannot be written. *)
Example phase1_write_fails :
  run_phase1 no_int_of_str no_ffprobe in_order names_in_order (fun _ => false)
    10 media_messages (Some media_entries) 2 media_files 10 4 false = Raised.
Proof. vm_compute. reflexivity. Qed.
